(** * Camera mirror: the audio monitoring path of [src/routes/camera/+page.svelte]

    A shallow embedding of the page script: its module-level variables, the
    browser objects they point to (audio elements, audio contexts, media
    streams, the canvas), and the functions that drive the microphone
    monitoring path.  Every function of the script is a [Script]: a state
    transformer that may complete normally or abruptly (a JavaScript
    exception), so that [try]/[catch] and "nothing is thrown" can be stated.

    Numbers that are floating point in the browser (levels, delay time,
    canvas coordinates) are exact rationals here.  *)

From Stdlib Require Import ZArith QArith Lqa.
From stdpp Require Import base list strings.

Set Default Proof Using "Type".
Open Scope Z_scope.

(** ** Browser objects *)

(** What an element's [srcObject] may point to: a captured stream, or the
    stream of a [MediaStreamAudioDestinationNode] that lives in an audio
    context. *)
Inductive StreamRef : Type :=
| RawStream (sid : nat)
| DestStream (ctx : nat) (node : nat).

#[global] Instance StreamRef_eq_dec : EqDecision StreamRef.
Proof. solve_decision. Defined.

(** [HTMLAudioElement]; a fresh [new Audio()] is paused, at time 0, not muted,
    at full volume and has no source. *)
Record AudioElem : Type := mkAudioElem {
  a_srcObject : option StreamRef;
  a_paused : bool;
  a_currentTime : Q;
  a_muted : bool;
  a_volume : Q
}.

Definition fresh_audio : AudioElem :=
  {| a_srcObject := None; a_paused := true; a_currentTime := 0%Q;
     a_muted := false; a_volume := 1%Q |}.

(** The [<video>] element bound by the template. *)
Record VideoElem : Type := mkVideoElem {
  v_srcObject : option StreamRef;
  v_paused : bool
}.

(** Nodes of an audio graph and the context that owns them.  A node is named
    by its position in [ctx_nodes]; [ctx_edges] lists the [connect] calls as
    (from, to). *)
Inductive Node : Type :=
| NDelay (delayTime : Q)
| NSource (sid : nat)
| NDestination
| NAnalyser (fftSize : Z).

Inductive CtxState : Type := Running | Closed.

#[global] Instance CtxState_eq_dec : EqDecision CtxState.
Proof. solve_decision. Defined.

Record AudioCtx : Type := mkAudioCtx {
  ctx_state : CtxState;
  ctx_nodes : list Node;
  ctx_edges : list (nat * nat)
}.

Definition fresh_ctx : AudioCtx :=
  {| ctx_state := Running; ctx_nodes := []; ctx_edges := [] |}.

(** A [MediaStream] is its list of tracks. *)
Inductive TrackKind : Type := AudioTrack | VideoTrack.

Record Track : Type := mkTrack {
  t_kind : TrackKind;
  t_live : bool
}.

Definition MediaStream : Type := list Track.

(** The canvas: its size, whether a 2d context can be obtained, and the
    [fillRect] calls made on it so far. *)
Inductive FillStyle : Type :=
| Background                  (* '#1f2937' *)
| Hsl (hue : Q).              (* hsl(hue, 70%, 50%) *)

Record Paint : Type := mkPaint {
  p_style : FillStyle;
  p_x : Q; p_y : Q; p_w : Q; p_h : Q
}.

Record Canvas : Type := mkCanvas {
  cv_width : Z;
  cv_height : Z;
  cv_has2d : bool;
  cv_painted : list Paint
}.

Record MediaDeviceInfo : Type := mkDevice {
  deviceId : string;
  kind : string;
  label : string
}.

(** A promise returned by [audioElement.play()], with the handlers the call
    site attached to it. *)
Inductive PlayKind : Type :=
| FromSetup      (* setupAudioPlayback: then/catch set audioEnabled *)
| FromToggle     (* toggleAudio: then/catch set audioEnabled *)
| FromResume.    (* updateAudioDelay: catch only logs *)

Inductive PlayStatus : Type :=
| Pending        (* the browser has not decided yet *)
| Aborted        (* the element was paused or reloaded: will reject *)
| Settled.

Record PlayPromise : Type := mkPlay {
  pp_elem : nat;
  pp_kind : PlayKind;
  pp_status : PlayStatus
}.

(** ** The global scope: which browser APIs exist ([typeof X !== 'undefined']) *)

Inductive Ctor : Type :=
| CtorUndefined   (* typeof AudioContext === 'undefined' *)
| CtorThrows      (* defined, but construction fails *)
| CtorWorks.

Record Caps : Type := mkCaps {
  has_navigator : bool;
  has_mediaDevices : bool;
  has_document : bool;
  has_Audio : bool;
  AudioContext_ctor : Ctor;
  has_requestAnimationFrame : bool;
  has_cancelAnimationFrame : bool
}.

(** [typeof AudioContext !== 'undefined'] *)
Definition ctor_defined (c : Ctor) : bool :=
  match c with CtorUndefined => false | _ => true end.

(** ** Calls on browser resources, in the order the script makes them *)

Inductive Event : Type :=
| EvAddListener | EvRemoveListener
| EvEnumerateDevices
| EvGetUserMedia (audioDevice : option string)
| EvVideoPause | EvVideoSetSrc (o : option StreamRef) | EvVideoPlay
| EvAudioNew (a : nat)
| EvAudioSetSrc (a : nat) (o : option StreamRef)
| EvAudioPause (a : nat)
| EvAudioSeek (a : nat)
| EvAudioPlay (a : nat)
| EvTrackStop (sid : nat) (i : nat)
| EvCtxNew (c : nat)
| EvCtxClose (c : nat)
| EvRequestFrame (h : nat)
| EvCancelFrame (h : nat).

#[global] Instance Event_eq_dec : EqDecision Event.
Proof. solve_decision. Defined.

(** ** Program state

    The first group is the browser side, the second the variables declared at
    the top of the script (source lines 4-22; [isFullscreen] and [videoFit]
    only concern page chrome and are left out), and [log] is the history of
    resource calls. *)
Record State : Type := mkState {
  caps : Caps;
  audios : list AudioElem;
  contexts : list AudioCtx;
  streams : list MediaStream;
  plays : list PlayPromise;
  gumPending : nat;                 (* getUserMedia calls being awaited *)
  rafPending : list nat;            (* scheduled animation frame handles *)
  rafNext : nat;                    (* next handle; handles start at 1 *)

  videoElement : option VideoElem;
  audioContext : option nat;
  analyser : option (nat * nat);    (* context, node *)
  stream : option nat;
  audioElement : option nat;
  isStreaming : bool;
  hasPermission : bool;
  errorMessage : string;
  micLevel : Q;
  availableMics : list MediaDeviceInfo;
  selectedMicId : string;
  audioEnabled : bool;
  audioDelay : Z;
  canvasElement : option Canvas;
  animationFrame : option nat;

  log : list Event
}.

Definition init (c : Caps) : State :=
  {| caps := c; audios := []; contexts := []; streams := []; plays := [];
     gumPending := 0; rafPending := []; rafNext := 1;
     videoElement := None; audioContext := None; analyser := None;
     stream := None; audioElement := None; isStreaming := false;
     hasPermission := false; errorMessage := ""; micLevel := 0%Q;
     availableMics := []; selectedMicId := ""; audioEnabled := false;
     audioDelay := 0; canvasElement := None; animationFrame := None;
     log := [] |}.

(** Field updates. *)
Definition set_audios v s := mkState (caps s) v (contexts s) (streams s) (plays s) (gumPending s) (rafPending s) (rafNext s) (videoElement s) (audioContext s) (analyser s) (stream s) (audioElement s) (isStreaming s) (hasPermission s) (errorMessage s) (micLevel s) (availableMics s) (selectedMicId s) (audioEnabled s) (audioDelay s) (canvasElement s) (animationFrame s) (log s).
Definition set_contexts v s := mkState (caps s) (audios s) v (streams s) (plays s) (gumPending s) (rafPending s) (rafNext s) (videoElement s) (audioContext s) (analyser s) (stream s) (audioElement s) (isStreaming s) (hasPermission s) (errorMessage s) (micLevel s) (availableMics s) (selectedMicId s) (audioEnabled s) (audioDelay s) (canvasElement s) (animationFrame s) (log s).
Definition set_streams v s := mkState (caps s) (audios s) (contexts s) v (plays s) (gumPending s) (rafPending s) (rafNext s) (videoElement s) (audioContext s) (analyser s) (stream s) (audioElement s) (isStreaming s) (hasPermission s) (errorMessage s) (micLevel s) (availableMics s) (selectedMicId s) (audioEnabled s) (audioDelay s) (canvasElement s) (animationFrame s) (log s).
Definition set_plays v s := mkState (caps s) (audios s) (contexts s) (streams s) v (gumPending s) (rafPending s) (rafNext s) (videoElement s) (audioContext s) (analyser s) (stream s) (audioElement s) (isStreaming s) (hasPermission s) (errorMessage s) (micLevel s) (availableMics s) (selectedMicId s) (audioEnabled s) (audioDelay s) (canvasElement s) (animationFrame s) (log s).
Definition set_gumPending v s := mkState (caps s) (audios s) (contexts s) (streams s) (plays s) v (rafPending s) (rafNext s) (videoElement s) (audioContext s) (analyser s) (stream s) (audioElement s) (isStreaming s) (hasPermission s) (errorMessage s) (micLevel s) (availableMics s) (selectedMicId s) (audioEnabled s) (audioDelay s) (canvasElement s) (animationFrame s) (log s).
Definition set_rafPending v s := mkState (caps s) (audios s) (contexts s) (streams s) (plays s) (gumPending s) v (rafNext s) (videoElement s) (audioContext s) (analyser s) (stream s) (audioElement s) (isStreaming s) (hasPermission s) (errorMessage s) (micLevel s) (availableMics s) (selectedMicId s) (audioEnabled s) (audioDelay s) (canvasElement s) (animationFrame s) (log s).
Definition set_rafNext v s := mkState (caps s) (audios s) (contexts s) (streams s) (plays s) (gumPending s) (rafPending s) v (videoElement s) (audioContext s) (analyser s) (stream s) (audioElement s) (isStreaming s) (hasPermission s) (errorMessage s) (micLevel s) (availableMics s) (selectedMicId s) (audioEnabled s) (audioDelay s) (canvasElement s) (animationFrame s) (log s).
Definition set_videoElement v s := mkState (caps s) (audios s) (contexts s) (streams s) (plays s) (gumPending s) (rafPending s) (rafNext s) v (audioContext s) (analyser s) (stream s) (audioElement s) (isStreaming s) (hasPermission s) (errorMessage s) (micLevel s) (availableMics s) (selectedMicId s) (audioEnabled s) (audioDelay s) (canvasElement s) (animationFrame s) (log s).
Definition set_audioContext v s := mkState (caps s) (audios s) (contexts s) (streams s) (plays s) (gumPending s) (rafPending s) (rafNext s) (videoElement s) v (analyser s) (stream s) (audioElement s) (isStreaming s) (hasPermission s) (errorMessage s) (micLevel s) (availableMics s) (selectedMicId s) (audioEnabled s) (audioDelay s) (canvasElement s) (animationFrame s) (log s).
Definition set_analyser v s := mkState (caps s) (audios s) (contexts s) (streams s) (plays s) (gumPending s) (rafPending s) (rafNext s) (videoElement s) (audioContext s) v (stream s) (audioElement s) (isStreaming s) (hasPermission s) (errorMessage s) (micLevel s) (availableMics s) (selectedMicId s) (audioEnabled s) (audioDelay s) (canvasElement s) (animationFrame s) (log s).
Definition set_stream v s := mkState (caps s) (audios s) (contexts s) (streams s) (plays s) (gumPending s) (rafPending s) (rafNext s) (videoElement s) (audioContext s) (analyser s) v (audioElement s) (isStreaming s) (hasPermission s) (errorMessage s) (micLevel s) (availableMics s) (selectedMicId s) (audioEnabled s) (audioDelay s) (canvasElement s) (animationFrame s) (log s).
Definition set_audioElement v s := mkState (caps s) (audios s) (contexts s) (streams s) (plays s) (gumPending s) (rafPending s) (rafNext s) (videoElement s) (audioContext s) (analyser s) (stream s) v (isStreaming s) (hasPermission s) (errorMessage s) (micLevel s) (availableMics s) (selectedMicId s) (audioEnabled s) (audioDelay s) (canvasElement s) (animationFrame s) (log s).
Definition set_isStreaming v s := mkState (caps s) (audios s) (contexts s) (streams s) (plays s) (gumPending s) (rafPending s) (rafNext s) (videoElement s) (audioContext s) (analyser s) (stream s) (audioElement s) v (hasPermission s) (errorMessage s) (micLevel s) (availableMics s) (selectedMicId s) (audioEnabled s) (audioDelay s) (canvasElement s) (animationFrame s) (log s).
Definition set_hasPermission v s := mkState (caps s) (audios s) (contexts s) (streams s) (plays s) (gumPending s) (rafPending s) (rafNext s) (videoElement s) (audioContext s) (analyser s) (stream s) (audioElement s) (isStreaming s) v (errorMessage s) (micLevel s) (availableMics s) (selectedMicId s) (audioEnabled s) (audioDelay s) (canvasElement s) (animationFrame s) (log s).
Definition set_errorMessage v s := mkState (caps s) (audios s) (contexts s) (streams s) (plays s) (gumPending s) (rafPending s) (rafNext s) (videoElement s) (audioContext s) (analyser s) (stream s) (audioElement s) (isStreaming s) (hasPermission s) v (micLevel s) (availableMics s) (selectedMicId s) (audioEnabled s) (audioDelay s) (canvasElement s) (animationFrame s) (log s).
Definition set_micLevel v s := mkState (caps s) (audios s) (contexts s) (streams s) (plays s) (gumPending s) (rafPending s) (rafNext s) (videoElement s) (audioContext s) (analyser s) (stream s) (audioElement s) (isStreaming s) (hasPermission s) (errorMessage s) v (availableMics s) (selectedMicId s) (audioEnabled s) (audioDelay s) (canvasElement s) (animationFrame s) (log s).
Definition set_availableMics v s := mkState (caps s) (audios s) (contexts s) (streams s) (plays s) (gumPending s) (rafPending s) (rafNext s) (videoElement s) (audioContext s) (analyser s) (stream s) (audioElement s) (isStreaming s) (hasPermission s) (errorMessage s) (micLevel s) v (selectedMicId s) (audioEnabled s) (audioDelay s) (canvasElement s) (animationFrame s) (log s).
Definition set_selectedMicId v s := mkState (caps s) (audios s) (contexts s) (streams s) (plays s) (gumPending s) (rafPending s) (rafNext s) (videoElement s) (audioContext s) (analyser s) (stream s) (audioElement s) (isStreaming s) (hasPermission s) (errorMessage s) (micLevel s) (availableMics s) v (audioEnabled s) (audioDelay s) (canvasElement s) (animationFrame s) (log s).
Definition set_audioEnabled v s := mkState (caps s) (audios s) (contexts s) (streams s) (plays s) (gumPending s) (rafPending s) (rafNext s) (videoElement s) (audioContext s) (analyser s) (stream s) (audioElement s) (isStreaming s) (hasPermission s) (errorMessage s) (micLevel s) (availableMics s) (selectedMicId s) v (audioDelay s) (canvasElement s) (animationFrame s) (log s).
Definition set_audioDelay v s := mkState (caps s) (audios s) (contexts s) (streams s) (plays s) (gumPending s) (rafPending s) (rafNext s) (videoElement s) (audioContext s) (analyser s) (stream s) (audioElement s) (isStreaming s) (hasPermission s) (errorMessage s) (micLevel s) (availableMics s) (selectedMicId s) (audioEnabled s) v (canvasElement s) (animationFrame s) (log s).
Definition set_canvasElement v s := mkState (caps s) (audios s) (contexts s) (streams s) (plays s) (gumPending s) (rafPending s) (rafNext s) (videoElement s) (audioContext s) (analyser s) (stream s) (audioElement s) (isStreaming s) (hasPermission s) (errorMessage s) (micLevel s) (availableMics s) (selectedMicId s) (audioEnabled s) (audioDelay s) v (animationFrame s) (log s).
Definition set_animationFrame v s := mkState (caps s) (audios s) (contexts s) (streams s) (plays s) (gumPending s) (rafPending s) (rafNext s) (videoElement s) (audioContext s) (analyser s) (stream s) (audioElement s) (isStreaming s) (hasPermission s) (errorMessage s) (micLevel s) (availableMics s) (selectedMicId s) (audioEnabled s) (audioDelay s) (canvasElement s) v (log s).
Definition set_log v s := mkState (caps s) (audios s) (contexts s) (streams s) (plays s) (gumPending s) (rafPending s) (rafNext s) (videoElement s) (audioContext s) (analyser s) (stream s) (audioElement s) (isStreaming s) (hasPermission s) (errorMessage s) (micLevel s) (availableMics s) (selectedMicId s) (audioEnabled s) (audioDelay s) (canvasElement s) (animationFrame s) v.

(** ** Scripts: state, exceptions, [try]/[catch] *)

Inductive Completion (A : Type) : Type :=
| Normal (a : A)
| Abrupt (name : string).    (* a thrown error or rejected promise, by its [name] *)
Arguments Normal {A} a.
Arguments Abrupt {A} name.

Definition Script (A : Type) : Type := State -> Completion A * State.

Definition ret {A} (a : A) : Script A := fun s => (Normal a, s).

Definition throw {A} (name : string) : Script A := fun s => (Abrupt name, s).

Definition bind {A B} (m : Script A) (k : A -> Script B) : Script B :=
  fun s =>
    match m s with
    | (Normal a, s') => k a s'
    | (Abrupt e, s') => (Abrupt e, s')
    end.

Definition try_catch {A} (m : Script A) (h : string -> Script A) : Script A :=
  fun s =>
    match m s with
    | (Normal a, s') => (Normal a, s')
    | (Abrupt e, s') => h e s'
    end.

Definition read {A} (f : State -> A) : Script A := fun s => (Normal (f s), s).

Definition write (f : State -> State) : Script unit := fun s => (Normal tt, f s).

(** The value an awaited promise settles to. *)
Definition settled {A} (r : Completion A) : Script A := fun s => (r, s).

Abbreviation skip := (ret tt).

Declare Scope script_scope.
Delimit Scope script_scope with script.
Bind Scope script_scope with Script.
Notation "x <- m ;; k" := (bind m (fun x => k))
  (at level 100, m at next level, k at level 200, right associativity) : script_scope.
Notation "m ;; k" := (bind m (fun _ => k))
  (at level 100, k at level 200, right associativity) : script_scope.
Open Scope script_scope.

(** The state a script leaves behind, and whether it completed normally. *)
Definition exec {A} (m : Script A) (s : State) : State := (m s).2.

Definition completes {A} (m : Script A) (s : State) : bool :=
  match (m s).1 with Normal _ => true | Abrupt _ => false end.

(** ** Browser API *)

Definition emit (e : Event) : Script unit :=
  write (fun s => set_log (log s ++ [e]) s).

(** *** HTMLAudioElement *)

Definition with_src (o : option StreamRef) (e : AudioElem) : AudioElem :=
  mkAudioElem o true (a_currentTime e) (a_muted e) (a_volume e).
Definition with_paused (b : bool) (e : AudioElem) : AudioElem :=
  mkAudioElem (a_srcObject e) b (a_currentTime e) (a_muted e) (a_volume e).
Definition with_currentTime (t : Q) (e : AudioElem) : AudioElem :=
  mkAudioElem (a_srcObject e) (a_paused e) t (a_muted e) (a_volume e).
Definition with_muted (b : bool) (e : AudioElem) : AudioElem :=
  mkAudioElem (a_srcObject e) (a_paused e) (a_currentTime e) b (a_volume e).
Definition with_volume (v : Q) (e : AudioElem) : AudioElem :=
  mkAudioElem (a_srcObject e) (a_paused e) (a_currentTime e) (a_muted e) v.

(** Pausing or reloading an element rejects the play promises it still has
    pending. *)
Definition abort_play (a : nat) (p : PlayPromise) : PlayPromise :=
  if decide (pp_elem p = a) then
    match pp_status p with
    | Pending => mkPlay (pp_elem p) (pp_kind p) Aborted
    | _ => p
    end
  else p.

Definition abort_plays (a : nat) (s : State) : State :=
  set_plays (abort_play a <$> plays s) s.

Definition update_audio (a : nat) (f : AudioElem -> AudioElem) (s : State) : State :=
  set_audios (alter f a (audios s)) s.

(** [new Audio()] *)
Definition audio_new : Script nat :=
  fun s =>
    let a := length (audios s) in
    (Normal a, set_log (log s ++ [EvAudioNew a]) (set_audios (audios s ++ [fresh_audio]) s)).

(** [el.srcObject = o]: the element loads the new source, which leaves it
    paused. *)
Definition audio_set_srcObject (a : nat) (o : option StreamRef) : Script unit :=
  write (update_audio a (with_src o));;
  write (abort_plays a);;
  emit (EvAudioSetSrc a o).

Definition audio_set_muted (a : nat) (b : bool) : Script unit :=
  write (update_audio a (with_muted b)).

Definition audio_set_volume (a : nat) (v : Q) : Script unit :=
  write (update_audio a (with_volume v)).

(** [el.pause()] *)
Definition audio_pause (a : nat) : Script unit :=
  write (update_audio a (with_paused true));;
  write (abort_plays a);;
  emit (EvAudioPause a).

(** [el.currentTime = 0] *)
Definition audio_rewind (a : nat) : Script unit :=
  write (update_audio a (with_currentTime 0%Q));;
  emit (EvAudioSeek a).

(** [el.play()] with the handlers of call site [k]; the promise settles
    later (see [playSettled]). *)
Definition audio_play (a : nat) (k : PlayKind) : Script unit :=
  write (fun s => set_plays (plays s ++ [mkPlay a k Pending]) s);;
  emit (EvAudioPlay a).

(** *** HTMLVideoElement *)

Definition video_pause : Script unit :=
  write (fun s => set_videoElement
                    ((fun v => mkVideoElem (v_srcObject v) true) <$> videoElement s) s);;
  emit EvVideoPause.

Definition video_set_srcObject (o : option StreamRef) : Script unit :=
  write (fun s => set_videoElement
                    ((fun v => mkVideoElem o (v_paused v)) <$> videoElement s) s);;
  emit (EvVideoSetSrc o).

Definition video_play : Script unit :=
  write (fun s => set_videoElement
                    ((fun v => mkVideoElem (v_srcObject v) false) <$> videoElement s) s);;
  emit EvVideoPlay.

(** *** MediaStream tracks *)

Definition stop_track (t : Track) : Track := mkTrack (t_kind t) false.

(** [stream.getTracks().forEach((track) => track.stop())] *)
Definition stream_stop_tracks (sid : nat) : Script unit :=
  fun s =>
    let n := length (default [] (streams s !! sid)) in
    (Normal tt,
     set_log (log s ++ (EvTrackStop sid <$> seq 0 n))
       (set_streams (alter (fmap stop_track) sid (streams s)) s)).

(** *** AudioContext and its nodes *)

Definition with_state (st : CtxState) (c : AudioCtx) : AudioCtx :=
  mkAudioCtx st (ctx_nodes c) (ctx_edges c).
Definition with_nodes (ns : list Node) (c : AudioCtx) : AudioCtx :=
  mkAudioCtx (ctx_state c) ns (ctx_edges c).
Definition with_edges (es : list (nat * nat)) (c : AudioCtx) : AudioCtx :=
  mkAudioCtx (ctx_state c) (ctx_nodes c) es.

Definition update_ctx (c : nat) (f : AudioCtx -> AudioCtx) (s : State) : State :=
  set_contexts (alter f c (contexts s)) s.

(** [new AudioContext()] *)
Definition ctx_new : Script nat :=
  fun s =>
    match AudioContext_ctor (caps s) with
    | CtorWorks =>
        let c := length (contexts s) in
        (Normal c, set_log (log s ++ [EvCtxNew c]) (set_contexts (contexts s ++ [fresh_ctx]) s))
    | CtorThrows => (Abrupt "NotSupportedError", s)
    | CtorUndefined => (Abrupt "ReferenceError", s)
    end.

(** [ctx.state] *)
Definition ctx_get_state (c : nat) : Script CtxState :=
  fun s =>
    match contexts s !! c with
    | Some x => (Normal (ctx_state x), s)
    | None => (Abrupt "TypeError", s)
    end.

(** [ctx.close()]; on a context that is already closed the returned promise
    rejects and nothing changes. *)
Definition ctx_close (c : nat) : Script unit :=
  write (update_ctx c (with_state Closed));;
  emit (EvCtxClose c).

(** [ctx.createDelay()], [createMediaStreamSource], ...: the new node's name. *)
Definition ctx_create (c : nat) (n : Node) : Script nat :=
  fun s =>
    match contexts s !! c with
    | Some x =>
        (Normal (length (ctx_nodes x)),
         update_ctx c (with_nodes (ctx_nodes x ++ [n])) s)
    | None => (Abrupt "TypeError", s)
    end.

(** [from.connect(to)] *)
Definition node_connect (c from to : nat) : Script unit :=
  write (update_ctx c (fun x => with_edges (ctx_edges x ++ [(from, to)]) x)).

Definition set_delayTime (q : Q) (n : Node) : Node :=
  match n with NDelay _ => NDelay q | _ => n end.

Definition set_fftSize (z : Z) (n : Node) : Node :=
  match n with NAnalyser _ => NAnalyser z | _ => n end.

Definition update_node (c i : nat) (f : Node -> Node) : Script unit :=
  write (update_ctx c (fun x => with_nodes (alter f i (ctx_nodes x)) x)).

(** *** Animation frames *)

(** [requestAnimationFrame(draw)] *)
Definition request_frame : Script nat :=
  fun s =>
    let h := rafNext s in
    (Normal h,
     set_log (log s ++ [EvRequestFrame h])
       (set_rafNext (S h) (set_rafPending (rafPending s ++ [h]) s))).

(** [cancelAnimationFrame(h)] *)
Definition cancel_frame (h : nat) : Script unit :=
  write (fun s => set_rafPending (filter (fun x => x ≠ h) (rafPending s)) s);;
  emit (EvCancelFrame h).

(** ** The page script *)

(** [getErrorMessage(error)], on [error.name] (source lines 325-335). *)
Definition getErrorMessage (name : string) : string :=
  if String.eqb name "NotAllowedError" then
    "Camera and microphone access was denied. Please allow access in your browser settings."
  else if String.eqb name "NotFoundError" then
    "No camera or microphone found. Please connect a device and try again."
  else if String.eqb name "NotReadableError" then
    "Camera or microphone is already in use by another application."
  else
    "Error accessing camera or microphone. Please check your device permissions.".

(** [navigator.mediaDevices.X(...)] throws a [TypeError] when
    [navigator.mediaDevices] is undefined. *)
Definition mediaDevices_call (e : Event) : Script unit :=
  ok <- read (fun s => has_mediaDevices (caps s));;
  if ok then emit e else throw "TypeError".

(** [getAudioDevices] (lines 54-66); [r] is what [enumerateDevices()] settles
    to. *)
Definition getAudioDevices (r : Completion (list MediaDeviceInfo)) : Script unit :=
  nav <- read (fun s => has_navigator (caps s));;
  if negb nav then skip else
  try_catch
    (mediaDevices_call EvEnumerateDevices;;
     devices <- settled r;;
     write (set_availableMics (filter (fun d => kind d = "audioinput") devices));;
     mics <- read availableMics;;
     sel <- read selectedMicId;;
     match mics with
     | m :: _ => if String.eqb sel "" then write (set_selectedMicId (deviceId m)) else skip
     | [] => skip
     end)
    (fun _ => skip).

(** [setupAudioPlayback(mediaStream)] (lines 99-122). *)
Definition setupAudioPlayback (mediaStream : nat) : Script unit :=
  hasAudio <- read (fun s => has_Audio (caps s));;
  if negb hasAudio then skip else
  try_catch
    (a <- audio_new;;
     write (set_audioElement (Some a));;
     audio_set_srcObject a (Some (RawStream mediaStream));;
     audio_set_muted a false;;
     audio_set_volume a (8 # 10)%Q;;
     audio_play a FromSetup)
    (fun _ => skip).

(** [setupAudioAnalyser(mediaStream)] (lines 205-216). *)
Definition setupAudioAnalyser (mediaStream : nat) : Script unit :=
  ctor <- read (fun s => AudioContext_ctor (caps s));;
  if negb (ctor_defined ctor) then skip else
  cur <- read audioContext;;
  c <- match cur with
       | Some c => ret c
       | None => c <- ctx_new;; write (set_audioContext (Some c));; ret c
       end;;
  source <- ctx_create c (NSource mediaStream);;
  an <- ctx_create c (NAnalyser 2048);;
  write (set_analyser (Some (c, an)));;
  update_node c an (set_fftSize 256);;
  node_connect c source an.

(** The [try] block of [updateAudioDelay] (lines 158-186). *)
Definition buildDelayGraph (a st : nat) : Script unit :=
  cur <- read audioContext;;
  c0 <- match cur with
        | Some c => ret c
        | None => c <- ctx_new;; write (set_audioContext (Some c));; ret c
        end;;
  state <- ctx_get_state c0;;
  (match state with
   | Closed => skip
   | Running => ctx_close c0
   end);;
  c <- ctx_new;;
  write (set_audioContext (Some c));;
  delay <- read audioDelay;;
  delayNode <- ctx_create c (NDelay 0%Q);;
  update_node c delayNode (set_delayTime (delay # 1000)%Q);;
  source <- ctx_create c (NSource st);;
  destination <- ctx_create c NDestination;;
  node_connect c source delayNode;;
  node_connect c delayNode destination;;
  node_connect c source destination;;
  audio_set_srcObject a (Some (DestStream c destination)).

(** [updateAudioDelay] (lines 149-203). *)
Definition updateAudioDelay : Script unit :=
  el <- read audioElement;;
  str <- read stream;;
  match el, str with
  | Some a, Some st =>
      audio_pause a;;
      audio_rewind a;;
      delay <- read audioDelay;;
      ctor <- read (fun s => AudioContext_ctor (caps s));;
      (if (0 <? delay) && ctor_defined ctor then
         try_catch (buildDelayGraph a st)
                   (fun _ => audio_set_srcObject a (Some (RawStream st)))
       else
         audio_set_srcObject a (Some (RawStream st)));;
      enabled <- read audioEnabled;;
      if enabled then audio_play a FromResume else skip
  | _, _ => skip
  end.

(** [toggleAudio] (lines 124-147). *)
Definition toggleAudio : Script unit :=
  el <- read audioElement;;
  str <- read stream;;
  match el, str with
  | Some a, Some _ =>
      enabled <- read audioEnabled;;
      if enabled then
        audio_pause a;;
        audio_rewind a;;
        audio_set_srcObject a None;;
        write (set_audioEnabled false)
      else
        updateAudioDelay;;
        audio_play a FromToggle
  | _, _ => skip
  end.

(** The handlers attached to a [play()] promise: [ok] tells whether it was
    fulfilled. *)
Definition playHandlers (k : PlayKind) (ok : bool) : Script unit :=
  match k with
  | FromSetup | FromToggle =>
      if ok then write (set_audioEnabled true) else write (set_audioEnabled false)
  | FromResume => skip
  end.

(** The browser settles the [i]-th [play()] promise: fulfilled (playback has
    started, [ok = true]) or rejected.  A promise whose element was paused or
    reloaded in the meantime can only be rejected. *)
Definition playSettled (i : nat) (ok : bool) : Script unit :=
  ps <- read plays;;
  match ps !! i with
  | Some p =>
      let started := match pp_status p with Pending => ok | _ => false end in
      match pp_status p with
      | Settled => skip
      | _ =>
          write (set_plays (<[i := mkPlay (pp_elem p) (pp_kind p) Settled]> ps));;
          (if started then write (update_audio (pp_elem p) (with_paused false)) else skip);;
          playHandlers (pp_kind p) started
      end
  | None => skip
  end.

(** *** Level visualisation *)

(** [analyser.frequencyBinCount]: half the FFT size. *)
Definition frequencyBinCount (an : nat * nat) : Script nat :=
  fun s =>
    match contexts s !! an.1 with
    | Some x =>
        match ctx_nodes x !! an.2 with
        | Some (NAnalyser fft) => (Normal (Z.to_nat (fft / 2)), s)
        | _ => (Abrupt "TypeError", s)
        end
    | None => (Abrupt "TypeError", s)
    end.

(** [new Uint8Array(n)] filled by [getByteFrequencyData]; [data] is what the
    analyser currently holds. *)
Definition byteFrequencyData (n : nat) (data : list Z) : list Z :=
  (fun i => nth i data 0 mod 256) <$> seq 0 n.

Definition paint (p : Paint) : Script unit :=
  write (fun s =>
    set_canvasElement
      ((fun c => mkCanvas (cv_width c) (cv_height c) (cv_has2d c) (cv_painted c ++ [p]))
         <$> canvasElement s) s).

(** The loop of lines 247-256, from horizontal position [x]. *)
Fixpoint drawBars (height barWidth x : Q) (dataArray : list Z) : Script unit :=
  match dataArray with
  | [] => skip
  | d :: rest =>
      let barHeight := (inject_Z d / 255 * height)%Q in
      let hue := ((1 - inject_Z d / 255) * 120)%Q in
      paint (mkPaint (Hsl hue) x (height - barHeight)%Q barWidth barHeight);;
      drawBars height barWidth (x + barWidth + 1)%Q rest
  end.

(** The closure [draw] of [startAudioLevelVisualization] (lines 219-261). *)
Definition draw (data : list Z) : Script unit :=
  cv <- read canvasElement;;
  match cv with
  | None => skip
  | Some canvas =>
      an <- read analyser;;
      match an with
      | None => skip
      | Some an =>
          if negb (cv_has2d canvas) then skip else
          bufferLength <- frequencyBinCount an;;
          let dataArray := byteFrequencyData bufferLength data in
          let width := inject_Z (cv_width canvas) in
          let height := inject_Z (cv_height canvas) in
          paint (mkPaint Background 0 0 width height);;
          let sum := foldl Z.add 0 dataArray in
          let average := (inject_Z sum / inject_Z (Z.of_nat bufferLength))%Q in
          write (set_micLevel (average / 255)%Q);;
          let barWidth := (width / inject_Z (Z.of_nat bufferLength) * 2)%Q in
          drawBars height barWidth 0%Q dataArray;;
          raf <- read (fun s => has_requestAnimationFrame (caps s));;
          if raf then
            h <- request_frame;;
            write (set_animationFrame (Some h))
          else skip
      end
  end.

(** [startAudioLevelVisualization] (lines 218-264). *)
Definition startAudioLevelVisualization (data : list Z) : Script unit :=
  draw data.

(** The browser runs the callback registered under handle [h]. *)
Definition frameFired (h : nat) (data : list Z) : Script unit :=
  pending <- read rafPending;;
  if bool_decide (h ∈ pending) then
    write (fun s => set_rafPending (filter (fun x => x ≠ h) (rafPending s)) s);;
    draw data
  else skip.

(** *** Stream control *)

(** [startStream] (lines 266-272). *)
Definition startStream : Script unit :=
  str <- read stream;;
  v <- read videoElement;;
  match str, v with
  | Some st, Some _ =>
      video_set_srcObject (Some (RawStream st));;
      video_play;;
      write (set_isStreaming true)
  | _, _ => skip
  end.

(** [stopStream] (lines 274-298). *)
Definition stopStream : Script unit :=
  v <- read videoElement;;
  (match v with
   | Some _ => video_pause;; video_set_srcObject None
   | None => skip
   end);;
  el <- read audioElement;;
  (match el with
   | Some a => audio_pause a;; audio_rewind a;; audio_set_srcObject a None
   | None => skip
   end);;
  str <- read stream;;
  (match str with
   | Some st => stream_stop_tracks st
   | None => skip
   end);;
  cur <- read audioContext;;
  (match cur with
   | Some c => ctx_close c;; write (set_audioContext None)
   | None => skip
   end);;
  write (set_isStreaming false);;
  write (set_audioEnabled false);;
  write (set_micLevel 0%Q).

(** *** Acquisition *)

(** The [catch] block of [requestPermissions] (lines 92-96). *)
Definition requestPermissions_catch (name : string) : Script unit :=
  write (set_errorMessage (getErrorMessage name));;
  write (set_hasPermission false).

(** [requestPermissions] up to its [await] (lines 68-78): tells whether a
    [getUserMedia] promise is now awaited. *)
Definition requestPermissions_call : Script bool :=
  nav <- read (fun s => has_navigator (caps s));;
  if negb nav then ret false else
  try_catch
    (sel <- read selectedMicId;;
     mediaDevices_call (EvGetUserMedia (if String.eqb sel "" then None else Some sel));;
     write (fun s => set_gumPending (S (gumPending s)) s);;
     ret true)
    (fun e => requestPermissions_catch e;; ret false).

(** What the awaited [getUserMedia] gives: a new stream with live tracks of
    the given kinds, or a rejection. *)
Definition getUserMedia_settled (r : Completion (list TrackKind)) : Script nat :=
  write (fun s => set_gumPending (pred (gumPending s)) s);;
  kinds <- settled r;;
  fun s =>
    (Normal (length (streams s)),
     set_streams (streams s ++ [(fun k => mkTrack k true) <$> kinds]) s).

(** [requestPermissions] after its [await] (lines 78-96). *)
Definition requestPermissions_resume (r : Completion (list TrackKind)) : Script unit :=
  try_catch
    (mediaStream <- getUserMedia_settled r;;
     write (set_stream (Some mediaStream));;
     write (set_hasPermission true);;
     write (set_errorMessage "");;
     v <- read videoElement;;
     (match v with
      | Some _ => video_set_srcObject (Some (RawStream mediaStream))
      | None => skip
      end);;
     setupAudioPlayback mediaStream;;
     setupAudioAnalyser mediaStream)
    requestPermissions_catch.

(** [requestPermissions] with nothing else running during the [await]. *)
Definition requestPermissions (r : Completion (list TrackKind)) : Script unit :=
  awaiting <- requestPermissions_call;;
  if awaiting then requestPermissions_resume r else skip.

(** [switchMicrophone] up to its [await] (lines 300-303). *)
Definition switchMicrophone_call : Script bool :=
  str <- read stream;;
  match str with
  | Some _ => stopStream;; requestPermissions_call
  | None => ret false
  end.

(** [switchMicrophone] (lines 300-305), the [await] uninterrupted. *)
Definition switchMicrophone (r : Completion (list TrackKind)) : Script unit :=
  awaiting <- switchMicrophone_call;;
  if awaiting then requestPermissions_resume r else skip.

(** *** Component lifecycle *)

(** [onMount] (lines 24-34), its [await]s uninterrupted. *)
Definition onMount (devices : Completion (list MediaDeviceInfo))
    (media : Completion (list TrackKind)) (data : list Z) : Script unit :=
  doc <- read (fun s => has_document (caps s));;
  (if doc then emit EvAddListener else skip);;
  getAudioDevices devices;;
  requestPermissions media;;
  startAudioLevelVisualization data.

(** [animationFrame && ...]: a handle is truthy unless it is 0. *)
Definition truthy_handle (h : option nat) : option nat :=
  match h with
  | Some (S n) => Some (S n)
  | _ => None
  end.

(** [onDestroy] (lines 36-45). *)
Definition onDestroy : Script unit :=
  stopStream;;
  h <- read animationFrame;;
  caf <- read (fun s => has_cancelAnimationFrame (caps s));;
  (match truthy_handle h with
   | Some h => if caf then cancel_frame h else skip
   | None => skip
   end);;
  doc <- read (fun s => has_document (caps s));;
  if doc then emit EvRemoveListener else skip.

(** ** What can happen to the page

    User gestures, browser callbacks and template bindings.  The template
    disables some controls in some states; no such restriction is made here,
    so the states reached below include every state the page can be in. *)
Inductive Action : Type :=
| Mount (devices : Completion (list MediaDeviceInfo))
        (media : Completion (list TrackKind)) (data : list Z)
| DevicesListed (devices : Completion (list MediaDeviceInfo))
| PermissionsRequested                (* the call, up to its await *)
| MicrophoneSelected (id : string)    (* bind:value, then switchMicrophone up to its await *)
| MediaSettled (media : Completion (list TrackKind))
| VisualizationStarted (data : list Z)
| FrameFired (h : nat) (data : list Z)
| AudioToggled
| DelayInput (d : Z)                  (* bind:value, then updateAudioDelay *)
| StreamStarted
| StreamStopped
| PlaySettled (i : nat) (ok : bool)
| VideoBound                          (* bind:this inside {#if hasPermission} *)
| VideoUnbound
| CanvasBound (width height : Z) (has2d : bool)
| Destroyed.

Definition perform (a : Action) : Script unit :=
  match a with
  | Mount devices media data => onMount devices media data
  | DevicesListed devices => getAudioDevices devices
  | PermissionsRequested => _ <- requestPermissions_call;; skip
  | MicrophoneSelected id =>
      write (set_selectedMicId id);;
      _ <- switchMicrophone_call;; skip
  | MediaSettled media =>
      n <- read gumPending;;
      match n with
      | O => skip
      | S _ => requestPermissions_resume media
      end
  | VisualizationStarted data => startAudioLevelVisualization data
  | FrameFired h data => frameFired h data
  | AudioToggled => toggleAudio
  | DelayInput d => write (set_audioDelay d);; updateAudioDelay
  | StreamStarted => startStream
  | StreamStopped => stopStream
  | PlaySettled i ok => playSettled i ok
  | VideoBound =>
      p <- read hasPermission;;
      if p then write (set_videoElement (Some (mkVideoElem None true))) else skip
  | VideoUnbound =>
      p <- read hasPermission;;
      if p then skip else write (set_videoElement None)
  | CanvasBound w h has2d =>
      write (set_canvasElement (Some (mkCanvas w h has2d [])))
  | Destroyed => onDestroy
  end.

Fixpoint run (acts : list Action) (s : State) : State :=
  match acts with
  | [] => s
  | a :: rest => run rest (exec (perform a) s)
  end.

Inductive Reachable : State -> Prop :=
| reach_init (c : Caps) : Reachable (init c)
| reach_step (s : State) (a : Action) :
    Reachable s -> Reachable (exec (perform a) s).

(** ** Observations used in the statements *)

(** An element that is audible: it has a source and is not paused. *)
Definition is_active (e : AudioElem) : bool :=
  match a_srcObject e with
  | Some _ => negb (a_paused e)
  | None => false
  end.

Definition active_playbacks (s : State) : nat :=
  length (filter (fun e => is_active e = true) (audios s)).

(** Names of the contexts that are not closed, among those from [i] on. *)
Fixpoint live_from (i : nat) (cs : list AudioCtx) : list nat :=
  match cs with
  | [] => []
  | c :: rest =>
      match ctx_state c with
      | Running => i :: live_from (S i) rest
      | Closed => live_from (S i) rest
      end
  end.

Definition live_contexts (s : State) : list nat := live_from 0 (contexts s).

(** The calls a script adds to the log. *)
Definition emitted {A} (m : Script A) (s : State) : list Event :=
  drop (length (log s)) (log (exec m s)).

(** The graph [updateAudioDelay] builds for a delay of [d] ms on stream [st]:
    node 0 the delay, node 1 the source, node 2 the destination. *)
Definition delayGraph (d : Z) (st : nat) : AudioCtx :=
  {| ctx_state := Running;
     ctx_nodes := [NDelay (d # 1000)%Q; NSource st; NDestination];
     ctx_edges := [(1, 0); (0, 2); (1, 2)]%nat |}.

(** The source an element currently plays from. *)
Definition source_of (s : State) (a : nat) : option StreamRef :=
  e ← audios s !! a; a_srcObject e.

(** ** Invariants *)

(** The script's references point at objects that exist. *)
Definition refs_ok (s : State) : Prop :=
  match audioElement s with
  | Some a => (a < length (audios s))%nat
  | None => True
  end /\
  match stream s with
  | Some st => (st < length (streams s))%nat
  | None => True
  end.

(** The only context that may be open is the one [audioContext] holds, and
    that one is open. *)
Definition ctx_inv (s : State) : Prop :=
  live_contexts s = option_list (audioContext s) /\
  match audioContext s with
  | Some _ => AudioContext_ctor (caps s) = CtorWorks
  | None => True
  end.

(** Until an analyser is attached, no level has been shown and nothing has
    been painted. *)
Definition quiet (s : State) : Prop :=
  analyser s = None ->
  micLevel s = 0%Q /\
  forall cv, canvasElement s = Some cv -> cv_painted cv = [].

(** * Vocabulary of the properties *)

(** ** Postconditions *)

(** Running [m] from [s] ends in a completion and a state that satisfy [Q]. *)
Definition wp {A} (m : Script A) (s : State) (Q : Completion A -> State -> Prop) : Prop :=
  Q (m s).1 (m s).2.

(** ** The effect of a delay change on the element *)

(** What the element is left with after pause, rewind and a new source. *)
Definition reloaded (o : option StreamRef) (a : nat) (l : list AudioElem) : list AudioElem :=
  alter (with_src o) a (alter (with_currentTime 0%Q) a (alter (with_paused true) a l)).

(** The promises of the element after pause and a new source, plus the one a
    resumed playback adds. *)
Definition replayed (a : nat) (enabled : bool) (ps : list PlayPromise) : list PlayPromise :=
  (abort_play a <$> (abort_play a <$> ps))
    ++ (if enabled then [mkPlay a FromResume Pending] else []).

(** Everything [updateAudioDelay] never writes. *)
Definition untouched (s s' : State) : Prop :=
  caps s' = caps s /\ streams s' = streams s /\ gumPending s' = gumPending s /\
  rafPending s' = rafPending s /\ rafNext s' = rafNext s /\
  videoElement s' = videoElement s /\ analyser s' = analyser s /\
  stream s' = stream s /\ audioElement s' = audioElement s /\
  isStreaming s' = isStreaming s /\ hasPermission s' = hasPermission s /\
  errorMessage s' = errorMessage s /\ micLevel s' = micLevel s /\
  availableMics s' = availableMics s /\ selectedMicId s' = selectedMicId s /\
  audioEnabled s' = audioEnabled s /\ audioDelay s' = audioDelay s /\
  canvasElement s' = canvasElement s /\ animationFrame s' = animationFrame s.

(** ** Concrete pages used as examples *)

(** A browser with every API the script probes for. *)
Definition browser : Caps :=
  {| has_navigator := true; has_mediaDevices := true; has_document := true;
     has_Audio := true; AudioContext_ctor := CtorWorks;
     has_requestAnimationFrame := true; has_cancelAnimationFrame := true |}.

Definition two_mics : list MediaDeviceInfo :=
  [mkDevice "mic-a" "audioinput" "Built-in";
   mkDevice "cam" "videoinput" "Camera";
   mkDevice "mic-b" "audioinput" "Headset"].

(** The page after mounting with access granted and autoplay allowed: the
    microphone is audible and the level display runs. *)
Definition monitoring : State :=
  run [CanvasBound 300 100 true;
       Mount (Normal two_mics) (Normal [AudioTrack; VideoTrack]) [12; 200; 7];
       VideoBound;
       PlaySettled 0 true]
      (init browser).

(** The same page when the user refused access. *)
Definition refused : State :=
  run [CanvasBound 300 100 true;
       Mount (Normal two_mics) (Abrupt "NotAllowedError") []]
      (init browser).

(** The page waiting for the browser to decide on autoplay. *)
Definition awaiting_autoplay : State :=
  run [CanvasBound 300 100 true;
       Mount (Normal two_mics) (Normal [AudioTrack; VideoTrack]) [12; 200; 7]]
      (init browser).

(** The page after the user pressed "Stop Mirror". *)
Definition halted : State := exec (perform StreamStopped) monitoring.

(** The element [setupAudioPlayback] creates, before its [play()] settles. *)
Definition monitor_element (st : nat) : AudioElem :=
  {| a_srcObject := Some (RawStream st); a_paused := true; a_currentTime := 0%Q;
     a_muted := false; a_volume := (8 # 10)%Q |}.

(** Access asked for twice with no stop in between: [requestPermissions] is
    called on mount and, while the browser still waits for the user's answer
    ([hasPermission] is false, so the template shows the button bound to
    [requestPermissions]), called again from that button; then both requests
    are granted and both autoplays allowed. *)
Definition enabled_twice : State :=
  run [CanvasBound 300 100 true;
       DevicesListed (Normal two_mics);
       PermissionsRequested;
       PermissionsRequested;
       MediaSettled (Normal [AudioTrack; VideoTrack]);
       MediaSettled (Normal [AudioTrack; VideoTrack]);
       PlaySettled 0 true;
       PlaySettled 1 true]
      (init browser).

(** ** Counting context calls *)

Definition is_close (e : Event) : bool :=
  match e with EvCtxClose _ => true | _ => false end.

Definition is_build (e : Event) : bool :=
  match e with EvCtxNew _ => true | _ => false end.

Definition count_closes (evs : list Event) : nat :=
  length (List.filter is_close evs).

(** A close-then-build cycle: [close()] immediately followed by
    [new AudioContext()]. *)
Fixpoint close_build_cycles (evs : list Event) : nat :=
  match evs with
  | [] => 0
  | e :: rest =>
      match e, rest with
      | EvCtxClose _, EvCtxNew _ :: _ => S (close_build_cycles rest)
      | _, _ => close_build_cycles rest
      end
  end.

(** ** What [stopStream] does *)

(** The calls [stopStream] makes, in order. *)
Definition stop_calls (s : State) : list Event :=
  match videoElement s with
  | Some _ => [EvVideoPause; EvVideoSetSrc None]
  | None => []
  end ++
  match audioElement s with
  | Some a => [EvAudioPause a; EvAudioSeek a; EvAudioSetSrc a None]
  | None => []
  end ++
  match stream s with
  | Some st => EvTrackStop st <$> seq 0 (length (default [] (streams s !! st)))
  | None => []
  end ++
  match audioContext s with
  | Some c => [EvCtxClose c]
  | None => []
  end.

(** The state [stopStream] leaves behind. *)
Definition after_stop (s : State) : State :=
  {| caps := caps s;
     audios := match audioElement s with
               | Some a => reloaded None a (audios s)
               | None => audios s
               end;
     contexts := match audioContext s with
                 | Some c => alter (with_state Closed) c (contexts s)
                 | None => contexts s
                 end;
     streams := match stream s with
                | Some st => alter (fmap stop_track) st (streams s)
                | None => streams s
                end;
     plays := match audioElement s with
              | Some a => abort_play a <$> (abort_play a <$> plays s)
              | None => plays s
              end;
     gumPending := gumPending s;
     rafPending := rafPending s;
     rafNext := rafNext s;
     videoElement := (fun _ => mkVideoElem None true) <$> videoElement s;
     audioContext := None;
     analyser := analyser s;
     stream := stream s;
     audioElement := audioElement s;
     isStreaming := false;
     hasPermission := hasPermission s;
     errorMessage := errorMessage s;
     micLevel := 0%Q;
     availableMics := availableMics s;
     selectedMicId := selectedMicId s;
     audioEnabled := false;
     audioDelay := audioDelay s;
     canvasElement := canvasElement s;
     animationFrame := animationFrame s;
     log := log s ++ stop_calls s |}.

(** ** Open contexts along a run of calls *)

(** The contexts open after call [e], given those open before it. *)
Definition ctx_step (live : list nat) (e : Event) : list nat :=
  match e with
  | EvCtxNew c => live ++ [c]
  | EvCtxClose c => filter (fun x => x ≠ c) live
  | _ => live
  end.

(** After every call of the run at most one context is open. *)
Fixpoint never_two_live (live : list nat) (evs : list Event) : bool :=
  match evs with
  | [] => true
  | e :: rest =>
      (length (ctx_step live e) <=? 1)%nat && never_two_live (ctx_step live e) rest
  end.

(** Every [close()] of the run is made on a context open at that moment. *)
Fixpoint closes_only_open (live : list nat) (evs : list Event) : bool :=
  match evs with
  | [] => true
  | e :: rest =>
      match e with
      | EvCtxClose c => existsb (Nat.eqb c) live
      | _ => true
      end && closes_only_open (ctx_step live e) rest
  end.

(** What a script does to the set of open contexts, as seen in its calls. *)
Definition ctx_disciplined {A} (m : Script A) (s : State) : Prop :=
  never_two_live (live_contexts s) (emitted m s) = true /\
  closes_only_open (live_contexts s) (emitted m s) = true /\
  foldl ctx_step (live_contexts s) (emitted m s) = live_contexts (exec m s) /\
  ctx_inv (exec m s).

(** ** Stopped states *)

(** The rational 0 as [stopStream] writes it. *)
Definition is_zero (q : Q) : bool :=
  match q with
  | Qmake 0 1 => true
  | _ => false
  end.

Definition element_stopped (e : AudioElem) : bool :=
  match a_srcObject e with
  | None => a_paused e && is_zero (a_currentTime e)
  | Some _ => false
  end.

(** No promise of element [a] is still undecided. *)
Definition none_pending (a : nat) (ps : list PlayPromise) : bool :=
  forallb (fun p => negb (Nat.eqb (pp_elem p) a) ||
                    match pp_status p with Pending => false | _ => true end) ps.

(** Playback and capture are stopped: the video and audio elements are
    paused, rewound and detached, no [play()] is undecided, every track has
    ended, no context is held, and the flags say so. *)
Definition stopped (s : State) : bool :=
  match videoElement s with
  | Some v => match v_srcObject v with None => v_paused v | Some _ => false end
  | None => true
  end &&
  match audioElement s with
  | Some a =>
      match audios s !! a with Some e => element_stopped e | None => true end &&
      none_pending a (plays s)
  | None => true
  end &&
  match stream s with
  | Some st => forallb (fun t => negb (t_live t)) (default [] (streams s !! st))
  | None => true
  end &&
  match audioContext s with Some _ => false | None => true end &&
  negb (isStreaming s) && negb (audioEnabled s) && is_zero (micLevel s).

(** ** Teardown *)

(** The calls [onDestroy] makes after [stopStream]. *)
Definition cancel_calls (s : State) : list Event :=
  match truthy_handle (animationFrame s) with
  | Some h => if has_cancelAnimationFrame (caps s) then [EvCancelFrame h] else []
  | None => []
  end.

Definition listener_calls (s : State) : list Event :=
  if has_document (caps s) then [EvRemoveListener] else [].

Definition teardown_calls (s : State) : list Event :=
  stop_calls s ++ cancel_calls s ++ listener_calls s.

(** The order in which teardown releases: video display, audio playback,
    capture tracks, processing context, refresh loop, page listener. *)
Definition teardown_phase (e : Event) : nat :=
  match e with
  | EvVideoPause | EvVideoSetSrc _ | EvVideoPlay => 0
  | EvAudioNew _ | EvAudioSetSrc _ _ | EvAudioPause _ | EvAudioSeek _ | EvAudioPlay _ => 1
  | EvTrackStop _ _ => 2
  | EvCtxNew _ | EvCtxClose _ => 3
  | EvRequestFrame _ | EvCancelFrame _ => 4
  | EvAddListener | EvRemoveListener => 5
  | EvEnumerateDevices | EvGetUserMedia _ => 6
  end.

(** The order the specification states: playback, then the graph, then the
    tracks, then the analyser (for which there is no call), then the
    refresh loop. *)
Definition claimed_phase (e : Event) : nat :=
  match e with
  | EvVideoPause | EvVideoSetSrc _ | EvVideoPlay => 0
  | EvAudioNew _ | EvAudioSetSrc _ _ | EvAudioPause _ | EvAudioSeek _ | EvAudioPlay _ => 0
  | EvCtxNew _ | EvCtxClose _ => 1
  | EvTrackStop _ _ => 2
  | EvRequestFrame _ | EvCancelFrame _ => 4
  | EvAddListener | EvRemoveListener => 5
  | EvEnumerateDevices | EvGetUserMedia _ => 6
  end.

(** The calls come in non-decreasing phase. *)
Fixpoint in_order (phase : Event -> nat) (evs : list Event) : bool :=
  match evs with
  | [] => true
  | e :: rest =>
      match rest with
      | [] => true
      | e' :: _ => (phase e <=? phase e')%nat && in_order phase rest
      end
  end.

(** A run that is in order and stays within phases [lo..hi]. *)
Definition seg (phase : Event -> nat) (lo hi : nat) (l : list Event) : Prop :=
  in_order phase l = true /\ Forall (fun e => (lo <= phase e <= hi)%nat) l.

(** ** Switching the microphone *)

Definition is_acquire (e : Event) : bool :=
  match e with EvGetUserMedia _ => true | _ => false end.

(** The [getUserMedia] request [requestPermissions] makes, if the browser has
    the API. *)
Definition acquire_calls (s : State) : list Event :=
  if has_navigator (caps s) && has_mediaDevices (caps s) then
    [EvGetUserMedia (if String.eqb (selectedMicId s) "" then None
                     else Some (selectedMicId s))]
  else [].

(** ** Invariants of scripts *)

(** A script keeps an invariant. *)
Definition keeps (I : State -> Prop) {A} (m : Script A) : Prop :=
  forall s, I s -> wp m s (fun _ s' => I s').

(** The invariant the claims about contexts and elements assume; every
    state the page can reach satisfies it. *)
Definition sound (s : State) : Prop := refs_ok s /\ ctx_inv s.

(** * Vocabulary of the further properties *)

(** ** Acquisition and the analyser *)

Definition live_tracks (kinds : list TrackKind) : MediaStream :=
  (fun k => mkTrack k true) <$> kinds.

Definition feeds_analyser (x : AudioCtx) (st n : nat) : Prop :=
  ctx_nodes x !! n = Some (NAnalyser 256) /\
  exists src, ctx_nodes x !! src = Some (NSource st) /\ (src, n) ∈ ctx_edges x.

Definition with_analyser (st : nat) (x : AudioCtx) : AudioCtx :=
  {| ctx_state := ctx_state x;
     ctx_nodes := ctx_nodes x ++ [NSource st; NAnalyser 256];
     ctx_edges := ctx_edges x ++ [(length (ctx_nodes x), S (length (ctx_nodes x)))] |}.

(** ** Listing the microphones *)

Definition is_microphone (d : MediaDeviceInfo) : Prop := kind d = "audioinput".

Definition default_microphone (sel : string) (mics : list MediaDeviceInfo) : string :=
  match mics with
  | m :: _ => if String.eqb sel "" then deviceId m else sel
  | [] => sel
  end.

(** ** The level display *)

Definition is_byte (d : Z) : Prop := 0 <= d <= 255.

Definition painted_by (ps : list Paint) (s : State) : State :=
  set_canvasElement
    ((fun c => mkCanvas (cv_width c) (cv_height c) (cv_has2d c) (cv_painted c ++ ps))
       <$> canvasElement s) s.

(** The rectangles the loop of lines 247-256 paints, from position [x]. *)
Fixpoint bars (height barWidth x : Q) (dataArray : list Z) : list Paint :=
  match dataArray with
  | [] => []
  | d :: rest =>
      mkPaint (Hsl ((1 - inject_Z d / 255) * 120)) x
              (height - inject_Z d / 255 * height) barWidth
              (inject_Z d / 255 * height)
        :: bars height barWidth (x + barWidth + 1) rest
  end.

(** What one refresh paints: the background, then the bars. *)
Definition frame_paints (cv : Canvas) (dataArray : list Z) : list Paint :=
  mkPaint Background 0 0 (inject_Z (cv_width cv)) (inject_Z (cv_height cv))
    :: bars (inject_Z (cv_height cv))
            (inject_Z (cv_width cv) / inject_Z (Z.of_nat (length dataArray)) * 2)
            0 dataArray.

Definition level_of (dataArray : list Z) : Q :=
  inject_Z (foldl Z.add 0 dataArray) / inject_Z (Z.of_nat (length dataArray)) / 255.


(** ** The refresh loop *)

Definition starts_display (a : Action) : bool :=
  match a with
  | Mount _ _ _ | VisualizationStarted _ => true
  | _ => false
  end.

(** No frame is scheduled and the level shown is 0. *)
Definition idle_display (s : State) : Prop :=
  rafPending s = [] /\ micLevel s = 0%Q.

Definition granted_later : list Action :=
  [PermissionsRequested; MediaSettled (Normal [AudioTrack; VideoTrack]);
   VideoBound; PlaySettled 0 true; FrameFired 1 [200; 180; 90]].

(** ** Starting, stopping and falling back *)

Definition all_ended (tracks : MediaStream) : Prop :=
  Forall (fun t => t_live t = false) tracks.

Definition no_web_audio : Caps :=
  {| has_navigator := true; has_mediaDevices := true; has_document := true;
     has_Audio := true; AudioContext_ctor := CtorThrows;
     has_requestAnimationFrame := true; has_cancelAnimationFrame := true |}.

Definition delayed_without_web_audio : State :=
  set_audioDelay 300
    (run [Mount (Normal two_mics) (Normal [AudioTrack; VideoTrack]) []; PlaySettled 0 true]
         (init no_web_audio)).

(** ** Well-formed states *)

(** The analyser, once attached, is a node with 128 bins of a context that
    exists. *)
Definition analyser_ok (s : State) : Prop :=
  match analyser s with
  | Some an =>
      exists x, contexts s !! an.1 = Some x /\ ctx_nodes x !! an.2 = Some (NAnalyser 256)
  | None => True
  end.

Definition well_formed (s : State) : Prop := sound s /\ analyser_ok s.

(** A script that, from a well-formed state, completes normally in a
    well-formed state. *)
Definition safe {A} (m : Script A) : Prop :=
  forall s, well_formed s ->
    wp m s (fun r s' => (exists a, r = Normal a) /\ well_formed s').

(** ** One refresh loop *)

(** In browser [c], at most one frame is scheduled, and [animationFrame]
    holds its handle. *)
Definition one_loop (c : Caps) (s : State) : Prop :=
  caps s = c /\ (0 < rafNext s)%nat /\
  (rafPending s = [] \/
   exists h, rafPending s = [h] /\ animationFrame s = Some h /\ (0 < h)%nat).

(** The refresh loop is as it was. *)
Definition loop_is (P : list nat) (N : nat) (F : option nat) (c : Caps) (s : State) : Prop :=
  rafPending s = P /\ rafNext s = N /\ animationFrame s = F /\ caps s = c.

Definition busy_session : list Action :=
  [VideoBound; PlaySettled 0 true; FrameFired 1 [10; 20]; DelayInput 300;
   FrameFired 2 [30]; AudioToggled; MicrophoneSelected "mic-b";
   MediaSettled (Normal [AudioTrack; VideoTrack]); FrameFired 3 []].

(** ** The calls made on mount *)

(** The calls made so far begin with [K]. *)
Definition log_begins (K : list Event) (s : State) : Prop := K `prefix_of` log s.

(** The constraint [requestPermissions] passes for the microphone. *)
Definition microphone_constraint (sel : string) : option string :=
  if String.eqb sel "" then None else Some sel.

(** The selection [getAudioDevices] leaves. *)
Definition listed_selection (r : Completion (list MediaDeviceInfo)) (sel : string) : string :=
  match r with
  | Normal devices => default_microphone sel (filter (fun d => kind d = "audioinput") devices)
  | Abrupt _ => sel
  end.

(** * Proofs *)

(** ** Running scripts symbolically *)

Section wp_rules.
Context {A B : Type}.
Implicit Types (s : State) (Q : Completion A -> State -> Prop).

Lemma wp_ret (a : A) s Q : Q (Normal a) s -> wp (ret a) s Q.
Proof. done. Qed.

Lemma wp_throw (e : string) s Q : Q (Abrupt e) s -> wp (throw e) s Q.
Proof. done. Qed.

Lemma wp_read (f : State -> A) s Q : Q (Normal (f s)) s -> wp (read f) s Q.
Proof. done. Qed.

Lemma wp_settled (r : Completion A) s Q : Q r s -> wp (settled r) s Q.
Proof. done. Qed.

Lemma wp_bind (m : Script A) (k : A -> Script B) s (Q : Completion B -> State -> Prop) :
  wp m s (fun r s' =>
          match r with
          | Normal a => wp (k a) s' Q
          | Abrupt e => Q (Abrupt e) s'
          end) ->
  wp (bind m k) s Q.
Proof. unfold wp, bind. by destruct (m s) as [[a|e] s']. Qed.

Lemma wp_try_catch (m : Script A) (h : string -> Script A) s Q :
  wp m s (fun r s' =>
          match r with
          | Normal a => Q (Normal a) s'
          | Abrupt e => wp (h e) s' Q
          end) ->
  wp (try_catch m h) s Q.
Proof. unfold wp, try_catch. by destruct (m s) as [[a|e] s']. Qed.

Lemma wp_mono (m : Script A) s Q (Q' : Completion A -> State -> Prop) :
  (forall r s', Q r s' -> Q' r s') -> wp m s Q -> wp m s Q'.
Proof. unfold wp. auto. Qed.
End wp_rules.

Lemma wp_write (f : State -> State) s (Q : Completion unit -> State -> Prop) :
  Q (Normal tt) (f s) -> wp (write f) s Q.
Proof. done. Qed.

Lemma wp_exec {A} (m : Script A) s (Q : Completion A -> State -> Prop) :
  wp m s Q -> Q (m s).1 (exec m s).
Proof. done. Qed.

(** The browser calls that are not built from the monad operations. *)
Section wp_browser.
Implicit Types (s : State).

Lemma wp_audio_new s (Q : Completion nat -> State -> Prop) :
  Q (Normal (length (audios s)))
    (set_log (log s ++ [EvAudioNew (length (audios s))])
       (set_audios (audios s ++ [fresh_audio]) s)) ->
  wp audio_new s Q.
Proof. done. Qed.

Lemma wp_ctx_new s (Q : Completion nat -> State -> Prop) :
  match AudioContext_ctor (caps s) with
  | CtorWorks =>
      Q (Normal (length (contexts s)))
        (set_log (log s ++ [EvCtxNew (length (contexts s))])
           (set_contexts (contexts s ++ [fresh_ctx]) s))
  | CtorThrows => Q (Abrupt "NotSupportedError") s
  | CtorUndefined => Q (Abrupt "ReferenceError") s
  end ->
  wp ctx_new s Q.
Proof. unfold wp, ctx_new. by destruct (AudioContext_ctor (caps s)). Qed.

Lemma wp_ctx_get_state (c : nat) s (Q : Completion CtxState -> State -> Prop) :
  match contexts s !! c with
  | Some x => Q (Normal (ctx_state x)) s
  | None => Q (Abrupt "TypeError") s
  end ->
  wp (ctx_get_state c) s Q.
Proof. unfold wp, ctx_get_state. by destruct (contexts s !! c). Qed.

Lemma wp_ctx_create (c : nat) (n : Node) s (Q : Completion nat -> State -> Prop) :
  match contexts s !! c with
  | Some x =>
      Q (Normal (length (ctx_nodes x)))
        (update_ctx c (with_nodes (ctx_nodes x ++ [n])) s)
  | None => Q (Abrupt "TypeError") s
  end ->
  wp (ctx_create c n) s Q.
Proof. unfold wp, ctx_create. by destruct (contexts s !! c). Qed.

Lemma wp_stream_stop_tracks (sid : nat) s (Q : Completion unit -> State -> Prop) :
  Q (Normal tt)
    (set_log (log s ++ (EvTrackStop sid <$> seq 0 (length (default [] (streams s !! sid)))))
       (set_streams (alter (fmap stop_track) sid (streams s)) s)) ->
  wp (stream_stop_tracks sid) s Q.
Proof. done. Qed.

Lemma wp_request_frame s (Q : Completion nat -> State -> Prop) :
  Q (Normal (rafNext s))
    (set_log (log s ++ [EvRequestFrame (rafNext s)])
       (set_rafNext (S (rafNext s)) (set_rafPending (rafPending s ++ [rafNext s]) s))) ->
  wp request_frame s Q.
Proof. done. Qed.

Lemma wp_frequencyBinCount (an : nat * nat) s (Q : Completion nat -> State -> Prop) :
  match contexts s !! an.1 with
  | Some x =>
      match ctx_nodes x !! an.2 with
      | Some (NAnalyser fft) => Q (Normal (Z.to_nat (fft / 2))) s
      | _ => Q (Abrupt "TypeError") s
      end
  | None => Q (Abrupt "TypeError") s
  end ->
  wp (frequencyBinCount an) s Q.
Proof.
  unfold wp, frequencyBinCount. destruct (contexts s !! an.1) as [x|]; [|done].
  by destruct (ctx_nodes x !! an.2) as [[]|].
Qed.
End wp_browser.

Lemma lookup_fresh {A} (l : list A) (x : A) : (l ++ [x]) !! length l = Some x.
Proof. by rewrite list_lookup_middle. Qed.

Lemma alter_fresh {A} (f : A -> A) (l : list A) (x : A) :
  alter f (length l) (l ++ [x]) = l ++ [f x].
Proof.
  replace (length l) with (length l + 0)%nat by lia.
  by rewrite alter_app_r.
Qed.

Lemma drop_log {A} (l k : list A) : drop (length l) (l ++ k) = k.
Proof. by rewrite drop_app_length. Qed.

(** Projections of updated states. *)
Ltac simp_state :=
  cbn [caps audios contexts streams plays gumPending rafPending rafNext
       videoElement audioContext analyser stream audioElement isStreaming
       hasPermission errorMessage micLevel availableMics selectedMicId
       audioEnabled audioDelay canvasElement animationFrame log
       set_audios set_contexts set_streams set_plays set_gumPending
       set_rafPending set_rafNext set_videoElement set_audioContext
       set_analyser set_stream set_audioElement set_isStreaming
       set_hasPermission set_errorMessage set_micLevel set_availableMics
       set_selectedMicId set_audioEnabled set_audioDelay set_canvasElement
       set_animationFrame set_log update_audio update_ctx abort_plays
       ctx_state ctx_nodes ctx_edges with_state with_nodes with_edges fresh_ctx
       set_delayTime set_fftSize length app alter list_alter
       fst snd ctor_defined negb andb].

Ltac simp_state_in_all :=
  cbn [caps audios contexts streams plays gumPending rafPending rafNext
       videoElement audioContext analyser stream audioElement isStreaming
       hasPermission errorMessage micLevel availableMics selectedMicId
       audioEnabled audioDelay canvasElement animationFrame log] in *.

(** A state built from a record by updates, as a record. *)
Ltac flat_state :=
  cbv [caps audios contexts streams plays gumPending rafPending rafNext
       videoElement audioContext analyser stream audioElement isStreaming
       hasPermission errorMessage micLevel availableMics selectedMicId
       audioEnabled audioDelay canvasElement animationFrame log
       set_audios set_contexts set_streams set_plays set_gumPending
       set_rafPending set_rafNext set_videoElement set_audioContext
       set_analyser set_stream set_audioElement set_isStreaming
       set_hasPermission set_errorMessage set_micLevel set_availableMics
       set_selectedMicId set_audioEnabled set_audioDelay set_canvasElement
       set_animationFrame set_log update_audio update_ctx abort_plays].

(** One step of a script built from the monad operations. *)
Ltac wp_step :=
  lazymatch goal with
  | |- wp (bind _ _) _ _ => apply wp_bind
  | |- wp (try_catch _ _) _ _ => apply wp_try_catch
  | |- wp (ret _) _ _ => apply wp_ret
  | |- wp (throw _) _ _ => apply wp_throw
  | |- wp (read _) _ _ => apply wp_read
  | |- wp (write _) _ _ => apply wp_write
  | |- wp (settled _) _ _ => apply wp_settled
  | |- wp (emit _) _ _ => unfold emit
  | |- wp (audio_set_srcObject _ _) _ _ => unfold audio_set_srcObject
  | |- wp (audio_set_muted _ _) _ _ => unfold audio_set_muted
  | |- wp (audio_set_volume _ _) _ _ => unfold audio_set_volume
  | |- wp (audio_pause _) _ _ => unfold audio_pause
  | |- wp (audio_rewind _) _ _ => unfold audio_rewind
  | |- wp (audio_play _ _) _ _ => unfold audio_play
  | |- wp video_pause _ _ => unfold video_pause
  | |- wp (video_set_srcObject _) _ _ => unfold video_set_srcObject
  | |- wp video_play _ _ => unfold video_play
  | |- wp (ctx_close _) _ _ => unfold ctx_close
  | |- wp (node_connect _ _ _) _ _ => unfold node_connect
  | |- wp (update_node _ _ _) _ _ => unfold update_node
  | |- wp (cancel_frame _) _ _ => unfold cancel_frame
  | |- wp (mediaDevices_call _) _ _ => unfold mediaDevices_call
  | |- wp (paint _) _ _ => unfold paint
  | |- wp audio_new _ _ => apply wp_audio_new
  | |- wp ctx_new _ _ => apply wp_ctx_new
  | |- wp (ctx_get_state _) _ _ => apply wp_ctx_get_state
  | |- wp (ctx_create _ _) _ _ => apply wp_ctx_create
  | |- wp (stream_stop_tracks _) _ _ => apply wp_stream_stop_tracks
  | |- wp request_frame _ _ => apply wp_request_frame
  | |- wp (frequencyBinCount _) _ _ => apply wp_frequencyBinCount
  | |- wp (fun _ => _) _ _ => unfold wp at 1
  end; cbv beta iota; simp_state; rewrite ?alter_fresh, ?lookup_fresh; cbv beta iota; simp_state.

Ltac wp_steps := repeat wp_step.

Lemma filter_all {A} (P : A -> Prop) `{forall x, Decision (P x)} (l : list A) :
  Forall P l -> filter P l = l.
Proof.
  induction 1 as [|x l Hx _ IH]; [done|].
  by rewrite filter_cons_True, IH.
Qed.

(** ** Contexts that are open *)

Lemma live_from_app (i : nat) (cs ds : list AudioCtx) :
  live_from i (cs ++ ds) = live_from i cs ++ live_from (i + length cs) ds.
Proof.
  revert i. induction cs as [|c cs IH]; intros i; simpl.
  - by rewrite Nat.add_0_r.
  - rewrite IH. replace (S i + length cs)%nat with (i + S (length cs))%nat by lia.
    by destruct (ctx_state c).
Qed.

Lemma live_from_ge (i c : nat) (cs : list AudioCtx) :
  c ∈ live_from i cs -> (i <= c)%nat.
Proof.
  revert i. induction cs as [|x cs IH]; intros i; simpl.
  - by intros ?%elem_of_nil.
  - destruct (ctx_state x).
    + intros [->|H]%elem_of_cons; [lia|]. apply IH in H. lia.
    + intros H. apply IH in H. lia.
Qed.

Lemma live_from_alter_same (f : AudioCtx -> AudioCtx) (i c : nat) (cs : list AudioCtx) :
  (forall x, ctx_state (f x) = ctx_state x) ->
  live_from i (alter f c cs) = live_from i cs.
Proof.
  intros Hf. revert i c. induction cs as [|x cs IH]; intros i [|c]; try done.
  - change (alter f 0%nat (x :: cs)) with (f x :: cs). simpl. by rewrite Hf.
  - change (alter f (S c) (x :: cs)) with (x :: alter f c cs). simpl. by rewrite IH.
Qed.

Lemma live_from_close (i c : nat) (cs : list AudioCtx) :
  live_from i (alter (with_state Closed) c cs) =
  filter (fun x => x ≠ (i + c)%nat) (live_from i cs).
Proof.
  revert i c. induction cs as [|x cs IH]; intros i [|c]; try done.
  - change (alter (with_state Closed) 0%nat (x :: cs)) with (with_state Closed x :: cs).
    simpl. rewrite Nat.add_0_r.
    assert (H : filter (fun y => y ≠ i) (live_from (S i) cs) = live_from (S i) cs).
    { apply filter_all. apply Forall_forall. intros y Hy%live_from_ge. lia. }
    destruct (ctx_state x); [|done].
    rewrite filter_cons_False by (intros H'; by apply H'). done.
  - change (alter (with_state Closed) (S c) (x :: cs))
      with (x :: alter (with_state Closed) c cs).
    simpl. rewrite IH. replace (S i + c)%nat with (i + S c)%nat by lia.
    destruct (ctx_state x); [|done].
    rewrite filter_cons_True by lia. done.
Qed.

Lemma elem_of_live_from (i c : nat) (cs : list AudioCtx) :
  c ∈ live_from i cs <->
  (i <= c)%nat /\ exists x, cs !! (c - i)%nat = Some x /\ ctx_state x = Running.
Proof.
  revert i. induction cs as [|y cs IH]; intros i; simpl.
  - split; [by intros ?%elem_of_nil|]. by intros (_ & x & Hx & _).
  - assert (Htail : c ∈ live_from (S i) cs <->
                    (i < c)%nat /\ exists x, (y :: cs) !! (c - i)%nat = Some x /\ ctx_state x = Running).
    { rewrite IH. split.
      - intros (Hle & x & Hx & Hr). split; [lia|]. exists x. split; [|done].
        replace (c - i)%nat with (S (c - S i)) by lia. done.
      - intros (Hlt & x & Hx & Hr). split; [lia|]. exists x. split; [|done].
        replace (c - i)%nat with (S (c - S i)) in Hx by lia. done. }
    destruct (ctx_state y) eqn:Ey.
    + rewrite elem_of_cons, Htail. split.
      * intros [->|(Hlt & Hx)]; [|split; [lia|done]].
        split; [lia|]. exists y. by rewrite Nat.sub_diag.
      * intros (Hle & x & Hx & Hr). destruct (decide (c = i)) as [->|Hne]; [by left|].
        right. split; [lia|]. by exists x.
    + rewrite Htail. split.
      * intros (Hlt & Hx). split; [lia|done].
      * intros (Hle & x & Hx & Hr). destruct (decide (c = i)) as [->|Hne].
        -- rewrite Nat.sub_diag in Hx. simpl in Hx. congruence.
        -- split; [lia|]. by exists x.
Qed.

Lemma live_lookup (s : State) (c : nat) :
  c ∈ live_contexts s <-> exists x, contexts s !! c = Some x /\ ctx_state x = Running.
Proof.
  unfold live_contexts. rewrite elem_of_live_from, Nat.sub_0_r.
  split; [by intros [_ H]|]. intros H. split; [lia|done].
Qed.

(** Use what is known about the value a script branches on. *)
Ltac wp_known :=
  match goal with
  | H : ?x = _ |- context [match ?y with _ => _ end] =>
      match y with context [x] => rewrite H end
  end; cbv beta iota; simp_state.

Ltac wp_go := repeat first [wp_step | wp_known].

(** From [wp] to the state left behind. *)
Lemma wp_normal {A} (m : Script A) (s : State) (P : State -> Prop) :
  wp m s (fun r s' => (exists a, r = Normal a) /\ P s') ->
  completes m s = true /\ P (exec m s).
Proof.
  unfold wp, completes, exec. intros [[a ->] HP]. done.
Qed.

Lemma emitted_app {A} (m : Script A) (s : State) (evs : list Event) :
  log (exec m s) = log s ++ evs -> emitted m s = evs.
Proof. unfold emitted. intros ->. apply drop_log. Qed.

Lemma ctx_inv_open (s : State) (c : nat) :
  ctx_inv s -> audioContext s = Some c ->
  exists x, contexts s !! c = Some x /\ ctx_state x = Running.
Proof.
  intros [Hlive _] Hc. apply live_lookup. rewrite Hlive, Hc. simpl. by left.
Qed.

Lemma ctx_inv_none (s : State) :
  ctx_inv s -> audioContext s = None -> live_contexts s = [].
Proof. intros [Hlive _] Hc. by rewrite Hlive, Hc. Qed.

(** ** What [updateAudioDelay] does, case by case *)

(** Nothing at all without an element or a stream. *)
Lemma updateAudioDelay_idle (s : State) :
  audioElement s = None \/ stream s = None ->
  updateAudioDelay s = (Normal tt, s).
Proof.
  intros [H|H]; unfold updateAudioDelay, bind, read; rewrite H; [done|].
  by destruct (audioElement s).
Qed.

(** No delay requested, or no audio processing available: the raw stream is
    attached and no context is touched. *)
Lemma updateAudioDelay_direct (s : State) (a st : nat) :
  audioElement s = Some a -> stream s = Some st ->
  audioDelay s <= 0 \/ AudioContext_ctor (caps s) = CtorUndefined ->
  wp updateAudioDelay s (fun r s' =>
    (exists u, r = Normal u) /\
    audios s' = reloaded (Some (RawStream st)) a (audios s) /\
    contexts s' = contexts s /\
    audioContext s' = audioContext s /\
    plays s' = replayed a (audioEnabled s) (plays s) /\
    untouched s s' /\
    log s' = log s ++ [EvAudioPause a; EvAudioSeek a; EvAudioSetSrc a (Some (RawStream st))]
                   ++ (if audioEnabled s then [EvAudioPlay a] else [])).
Proof.
  intros Ha Hst Hd. unfold updateAudioDelay. wp_go.
  assert (Hcond : (0 <? audioDelay s) && ctor_defined (AudioContext_ctor (caps s)) = false).
  { destruct Hd as [Hd|Hd].
    - destruct (0 <? audioDelay s) eqn:E; [lia|done].
    - rewrite Hd. apply andb_false_r. }
  rewrite Hcond. wp_go.
  unfold replayed.
  destruct (audioEnabled s) eqn:Een; wp_go; rewrite <- ?app_assoc, ?app_nil_r;
    repeat split; try reflexivity; eauto.
Qed.

(** A positive delay with a context already open: that context is closed and
    a new one is built. *)
Lemma updateAudioDelay_rebuild (s : State) (a st c0 : nat) (x : AudioCtx) :
  audioElement s = Some a -> stream s = Some st -> 0 < audioDelay s ->
  AudioContext_ctor (caps s) = CtorWorks ->
  audioContext s = Some c0 -> contexts s !! c0 = Some x -> ctx_state x = Running ->
  wp updateAudioDelay s (fun r s' =>
    let c := length (contexts s) in
    (exists u, r = Normal u) /\
    audios s' = reloaded (Some (DestStream c 2)) a (audios s) /\
    contexts s' = alter (with_state Closed) c0 (contexts s) ++ [delayGraph (audioDelay s) st] /\
    audioContext s' = Some c /\
    plays s' = replayed a (audioEnabled s) (plays s) /\
    untouched s s' /\
    log s' = log s ++ [EvAudioPause a; EvAudioSeek a; EvCtxClose c0; EvCtxNew c;
                       EvAudioSetSrc a (Some (DestStream c 2))]
                   ++ (if audioEnabled s then [EvAudioPlay a] else [])).
Proof.
  intros Ha Hst Hd Hc Hv Hx Hr.
  assert (E : (0 <? audioDelay s) = true) by lia.
  unfold updateAudioDelay, buildDelayGraph. wp_go.
  unfold replayed.
  destruct (audioEnabled s) eqn:Een; wp_go;
    rewrite ?alter_fresh, ?length_alter, <- ?app_assoc, ?app_nil_r;
    repeat split; try reflexivity; eauto.
Qed.

(** A positive delay with no context yet: one is created, closed at once, and
    the graph is built in a second one. *)
Lemma updateAudioDelay_first_build (s : State) (a st : nat) :
  audioElement s = Some a -> stream s = Some st -> 0 < audioDelay s ->
  AudioContext_ctor (caps s) = CtorWorks ->
  audioContext s = None ->
  wp updateAudioDelay s (fun r s' =>
    let c0 := length (contexts s) in
    let c := S c0 in
    (exists u, r = Normal u) /\
    audios s' = reloaded (Some (DestStream c 2)) a (audios s) /\
    contexts s' = contexts s ++ [with_state Closed fresh_ctx; delayGraph (audioDelay s) st] /\
    audioContext s' = Some c /\
    plays s' = replayed a (audioEnabled s) (plays s) /\
    untouched s s' /\
    log s' = log s ++ [EvAudioPause a; EvAudioSeek a; EvCtxNew c0; EvCtxClose c0; EvCtxNew c;
                       EvAudioSetSrc a (Some (DestStream c 2))]
                   ++ (if audioEnabled s then [EvAudioPlay a] else [])).
Proof.
  intros Ha Hst Hd Hc Hv.
  assert (E : (0 <? audioDelay s) = true) by lia.
  unfold updateAudioDelay, buildDelayGraph. wp_go.
  unfold replayed.
  destruct (audioEnabled s) eqn:Een; wp_go;
    rewrite ?alter_fresh, ?length_app, <- ?app_assoc, ?app_nil_r; simpl;
    rewrite ?Nat.add_1_r; repeat split; try reflexivity; eauto.
Qed.

(** A positive delay, no context yet, and [new AudioContext()] fails: the
    [catch] block attaches the raw stream. *)
Lemma updateAudioDelay_fallback (s : State) (a st : nat) :
  audioElement s = Some a -> stream s = Some st -> 0 < audioDelay s ->
  AudioContext_ctor (caps s) = CtorThrows ->
  audioContext s = None ->
  wp updateAudioDelay s (fun r s' =>
    (exists u, r = Normal u) /\
    audios s' = reloaded (Some (RawStream st)) a (audios s) /\
    contexts s' = contexts s /\
    audioContext s' = audioContext s /\
    plays s' = replayed a (audioEnabled s) (plays s) /\
    untouched s s' /\
    log s' = log s ++ [EvAudioPause a; EvAudioSeek a; EvAudioSetSrc a (Some (RawStream st))]
                   ++ (if audioEnabled s then [EvAudioPlay a] else [])).
Proof.
  intros Ha Hst Hd Hc Hv.
  assert (E : (0 <? audioDelay s) = true) by lia.
  unfold updateAudioDelay, buildDelayGraph. wp_go.
  unfold replayed.
  destruct (audioEnabled s) eqn:Een; wp_go; rewrite <- ?app_assoc, ?app_nil_r;
    repeat split; try reflexivity; eauto.
Qed.

(** Split on what a script branches on when nothing is known about it. *)
Ltac wp_case :=
  match goal with
  | |- wp (match ?x with _ => _ end) _ _ => destruct x eqn:?
  | |- match ?x with _ => _ end => destruct x eqn:?
  end; cbv beta iota; simp_state.

Ltac wp_all := repeat first [wp_step | wp_known | wp_case].

(** [updateAudioDelay] never throws. *)
Lemma updateAudioDelay_completes (s : State) :
  completes updateAudioDelay s = true.
Proof.
  apply (wp_normal updateAudioDelay s (fun _ => True)).
  unfold updateAudioDelay, buildDelayGraph. wp_all; eauto.
Qed.

Lemma source_of_reloaded (s s' : State) (o : StreamRef) (a : nat) :
  (a < length (audios s))%nat ->
  audios s' = reloaded (Some o) a (audios s) ->
  source_of s' a = Some o.
Proof.
  intros Hlt Heq. unfold source_of. rewrite Heq. unfold reloaded.
  destruct (lookup_lt_is_Some_2 (audios s) a Hlt) as [e He].
  rewrite !list_lookup_alter_eq, He. done.
Qed.

(** * The claims *)

(** ** The toggle and the graph builder *)

(** C10.  When the audio element or the media stream has not been created,
    [toggleAudio] returns at once: it completes normally and the whole state
    (every variable, every browser object, the call log) is left as it was. *)
Theorem toggleAudio_noop_without_element_or_stream (s : State) :
  audioElement s = None \/ stream s = None ->
  toggleAudio s = (Normal tt, s).
Proof.
  intros [H|H]; unfold toggleAudio, bind, read; rewrite H; [done|].
  by destruct (audioElement s).
Qed.

Lemma toggleAudio_noop_witness :
  toggleAudio (init browser) = (Normal tt, init browser).
Proof.
  apply toggleAudio_noop_without_element_or_stream. left. reflexivity.
Defined.

(** C5.  [updateAudioDelay] as the graph builder.  With a delay of 0 the
    element plays the raw stream itself and no context is created or
    touched.  With a positive delay (and a working [AudioContext]) a new
    context holds exactly the graph source -> delay -> destination plus
    source -> destination, the delay time is [audioDelay / 1000] seconds, and
    the element plays the stream of that one destination. *)
Theorem updateAudioDelay_builds_delay_graph (s : State) (a st : nat) :
  audioElement s = Some a -> stream s = Some st -> refs_ok s -> ctx_inv s ->
  completes updateAudioDelay s = true /\
  (audioDelay s = 0 ->
     source_of (exec updateAudioDelay s) a = Some (RawStream st) /\
     contexts (exec updateAudioDelay s) = contexts s /\
     audioContext (exec updateAudioDelay s) = audioContext s) /\
  (0 < audioDelay s -> AudioContext_ctor (caps s) = CtorWorks ->
     exists c,
       audioContext (exec updateAudioDelay s) = Some c /\
       contexts (exec updateAudioDelay s) !! c = Some (delayGraph (audioDelay s) st) /\
       source_of (exec updateAudioDelay s) a = Some (DestStream c 2)).
Proof.
  intros Ha Hst [Hra _] Hinv. rewrite Ha in Hra.
  split; [apply updateAudioDelay_completes|]. split.
  - intros Hd.
    destruct (wp_exec _ _ _ (updateAudioDelay_direct s a st Ha Hst ltac:(left; lia)))
      as (_ & Haud & Hctx & Hvar & _).
    eauto using source_of_reloaded.
  - intros Hd Hc. destruct (audioContext s) as [c0|] eqn:Hv.
    + destruct (ctx_inv_open s c0 Hinv Hv) as (x & Hx & Hr).
      destruct (wp_exec _ _ _ (updateAudioDelay_rebuild s a st c0 x Ha Hst Hd Hc Hv Hx Hr))
        as (_ & Haud & Hctx & Hvar & _).
      exists (length (contexts s)). split; [done|]. split.
      * rewrite Hctx. rewrite <- (length_alter (with_state Closed) (contexts s) c0).
        apply lookup_fresh.
      * eauto using source_of_reloaded.
    + destruct (wp_exec _ _ _ (updateAudioDelay_first_build s a st Ha Hst Hd Hc Hv))
        as (_ & Haud & Hctx & Hvar & _).
      exists (S (length (contexts s))). split; [done|]. split.
      * rewrite Hctx. change (contexts s ++ [with_state Closed fresh_ctx; delayGraph (audioDelay s) st])
          with (contexts s ++ [with_state Closed fresh_ctx] ++ [delayGraph (audioDelay s) st]).
        rewrite app_assoc.
        replace (S (length (contexts s))) with (length (contexts s ++ [with_state Closed fresh_ctx])).
        -- apply lookup_fresh.
        -- rewrite length_app. simpl. lia.
      * eauto using source_of_reloaded.
Qed.

Lemma updateAudioDelay_graph_witness :
  let s := set_audioDelay 300 monitoring in
  (audioElement s = Some 0%nat /\ stream s = Some 0%nat /\ refs_ok s /\ ctx_inv s) /\
  exists c,
    audioContext (exec updateAudioDelay s) = Some c /\
    contexts (exec updateAudioDelay s) !! c = Some (delayGraph 300 0) /\
    source_of (exec updateAudioDelay s) 0 = Some (DestStream c 2).
Proof.
  intros s.
  assert (H : audioElement s = Some 0%nat /\ stream s = Some 0%nat /\ refs_ok s /\ ctx_inv s).
  { vm_compute. repeat split; lia. }
  split; [exact H|].
  destruct H as (Ha & Hst & Hrefs & Hinv).
  apply (updateAudioDelay_builds_delay_graph s 0 0 Ha Hst Hrefs Hinv);
    vm_compute; reflexivity.
Defined.

Lemma filter_ne_self (c : nat) : filter (fun x => x ≠ c) [c] = [].
Proof. rewrite filter_cons_False; [done|]. intros H. by apply H. Qed.

Lemma live_after_rebuild (cs : list AudioCtx) (c0 : nat) (g : AudioCtx) :
  live_from 0 cs = [c0] -> ctx_state g = Running ->
  live_from 0 (alter (with_state Closed) c0 cs ++ [g]) = [length cs].
Proof.
  intros Hlive Hg. rewrite live_from_app, live_from_close, Hlive. simpl.
  rewrite filter_ne_self, length_alter, Hg. done.
Qed.

Lemma live_after_first_build (cs : list AudioCtx) (g : AudioCtx) :
  live_from 0 cs = [] -> ctx_state g = Running ->
  live_from 0 (cs ++ [with_state Closed fresh_ctx; g]) = [S (length cs)].
Proof.
  intros Hlive Hg. rewrite live_from_app, Hlive. simpl. by rewrite Hg.
Qed.

Lemma DelayInput_unfold (d : Z) (s : State) :
  completes (perform (DelayInput d)) s = completes updateAudioDelay (set_audioDelay d s) /\
  exec (perform (DelayInput d)) s = exec updateAudioDelay (set_audioDelay d s) /\
  emitted (perform (DelayInput d)) s = emitted updateAudioDelay (set_audioDelay d s).
Proof. done. Qed.

(** C2.  Moving the delay to a value [d] in (0,1000] while monitoring is
    enabled (the slider's [bind:value] followed by [updateAudioDelay]):
    nothing is thrown, [audioEnabled] stays true, the one open context is a
    newly built graph with delay [d / 1000] whose output the element now
    plays, playback is restarted ([play()] is the last call and its promise
    is pending), and the context calls made are exactly one [close()]
    immediately followed by a [new AudioContext()].  (When [audioContext]
    held no context, the script first creates one, and that is the one it
    closes.)  The delay before the change plays no role. *)
Theorem delay_change_while_enabled_rebuilds (s : State) (a st : nat) (d : Z) :
  audioElement s = Some a -> stream s = Some st -> refs_ok s -> ctx_inv s ->
  audioEnabled s = true -> AudioContext_ctor (caps s) = CtorWorks ->
  0 < d <= 1000 ->
  let m := perform (DelayInput d) in
  completes m s = true /\
  audioEnabled (exec m s) = true /\
  audioDelay (exec m s) = d /\
  (exists c,
     audioContext (exec m s) = Some c /\
     live_contexts (exec m s) = [c] /\
     contexts (exec m s) !! c = Some (delayGraph d st) /\
     source_of (exec m s) a = Some (DestStream c 2)) /\
  last (emitted m s) = Some (EvAudioPlay a) /\
  last (plays (exec m s)) = Some (mkPlay a FromResume Pending) /\
  count_closes (emitted m s) = 1%nat /\
  close_build_cycles (emitted m s) = 1%nat.
Proof.
  intros Ha Hst [Hra _] [Hlive Hctor] Hen Hc [Hd _] m. rewrite Ha in Hra.
  subst m. destruct (DelayInput_unfold d s) as (-> & -> & ->).
  set (s0 := set_audioDelay d s).
  split; [apply updateAudioDelay_completes|].
  destruct (audioContext s) as [c0|] eqn:Hv.
  - assert (Hin : c0 ∈ live_contexts s) by (rewrite Hlive; simpl; by left).
    apply live_lookup in Hin as (x & Hx & Hr).
    destruct (wp_exec _ _ _ (updateAudioDelay_rebuild s0 a st c0 x Ha Hst Hd Hc Hv Hx Hr))
      as (_ & Haud & Hctx & Hvar & Hplays & Hsame & Hlog).
    destruct Hsame as (_&_&_&_&_&_&_&_&_&_&_&_&_&_&_&Hen'&Hd'&_).
    change (audioEnabled s0) with (audioEnabled s) in *.
    change (contexts s0) with (contexts s) in *.
    change (audios s0) with (audios s) in *.
    change (audioDelay s0) with d in *.
    rewrite Hen in *.
    repeat split; try done.
    + exists (length (contexts s)). split; [done|]. split; [|split].
      * unfold live_contexts. rewrite Hctx. by apply live_after_rebuild.
      * rewrite Hctx, <- (length_alter (with_state Closed) (contexts s) c0).
        apply lookup_fresh.
      * eauto using source_of_reloaded.
    + by rewrite (emitted_app _ _ _ Hlog).
    + rewrite Hplays. unfold replayed. apply last_snoc.
    + by rewrite (emitted_app _ _ _ Hlog).
    + by rewrite (emitted_app _ _ _ Hlog).
  - destruct (wp_exec _ _ _ (updateAudioDelay_first_build s0 a st Ha Hst Hd Hc Hv))
      as (_ & Haud & Hctx & Hvar & Hplays & Hsame & Hlog).
    destruct Hsame as (_&_&_&_&_&_&_&_&_&_&_&_&_&_&_&Hen'&Hd'&_).
    change (audioEnabled s0) with (audioEnabled s) in *.
    change (contexts s0) with (contexts s) in *.
    change (audios s0) with (audios s) in *.
    change (audioDelay s0) with d in *.
    rewrite Hen in *.
    repeat split; try done.
    + exists (S (length (contexts s))). split; [done|]. split; [|split].
      * unfold live_contexts. rewrite Hctx. by apply live_after_first_build.
      * rewrite Hctx.
        change (contexts s ++ [with_state Closed fresh_ctx; delayGraph d st])
          with (contexts s ++ [with_state Closed fresh_ctx] ++ [delayGraph d st]).
        rewrite app_assoc.
        replace (S (length (contexts s)))
          with (length (contexts s ++ [with_state Closed fresh_ctx]))
          by (rewrite length_app; simpl; lia).
        apply lookup_fresh.
      * eauto using source_of_reloaded.
    + by rewrite (emitted_app _ _ _ Hlog).
    + rewrite Hplays. unfold replayed. apply last_snoc.
    + by rewrite (emitted_app _ _ _ Hlog).
    + by rewrite (emitted_app _ _ _ Hlog).
Qed.

Lemma delay_change_witness :
  (audioElement monitoring = Some 0%nat /\ stream monitoring = Some 0%nat /\
   refs_ok monitoring /\ ctx_inv monitoring /\ audioEnabled monitoring = true /\
   AudioContext_ctor (caps monitoring) = CtorWorks /\ 0 < 300 <= 1000) /\
  audioEnabled (exec (perform (DelayInput 300)) monitoring) = true /\
  count_closes (emitted (perform (DelayInput 300)) monitoring) = 1%nat /\
  close_build_cycles (emitted (perform (DelayInput 300)) monitoring) = 1%nat.
Proof.
  assert (H : audioElement monitoring = Some 0%nat /\ stream monitoring = Some 0%nat /\
              refs_ok monitoring /\ ctx_inv monitoring /\ audioEnabled monitoring = true /\
              AudioContext_ctor (caps monitoring) = CtorWorks /\ 0 < 300 <= 1000).
  { vm_compute. repeat split; (lia || discriminate). }
  split; [exact H|].
  destruct H as (Ha & Hst & Hrefs & Hinv & Hen & Hc & Hd).
  destruct (delay_change_while_enabled_rebuilds monitoring 0 0 300 Ha Hst Hrefs Hinv Hen Hc Hd)
    as (_ & Hen' & _ & _ & _ & _ & Hcl & Hcy).
  auto.
Defined.

(** ** What [stopStream] does *)

Lemma stopStream_wp (s : State) :
  wp stopStream s (fun r s' =>
    r = Normal tt /\ s' = set_log (log s') (after_stop s) /\ log s' = log s ++ stop_calls s).
Proof.
  unfold stopStream, after_stop, stop_calls, reloaded.
  wp_all; rewrite <- ?app_assoc, ?app_nil_r;
    (split; [reflexivity|]); (split; [|reflexivity]);
    destruct s; simp_state_in_all; subst; flat_state; reflexivity.
Qed.

Lemma stopStream_eq (s : State) : stopStream s = (Normal tt, after_stop s).
Proof.
  pose proof (stopStream_wp s) as H. unfold wp in H.
  destruct (stopStream s) as [r s']. simpl in H.
  destruct H as (-> & Hs & Hlog). rewrite Hs, Hlog. reflexivity.
Qed.

(** ** Open contexts along a run of calls *)

Lemma emitted_nil {A} (m : Script A) (s : State) :
  log (exec m s) = log s -> emitted m s = [].
Proof. intros H. apply emitted_app. by rewrite app_nil_r. Qed.

Lemma updateAudioDelay_ctx_disciplined (s : State) :
  ctx_inv s -> ctx_disciplined updateAudioDelay s.
Proof.
  intros [Hlive Hctor]. unfold ctx_disciplined, ctx_inv.
  destruct (audioElement s) as [a|] eqn:Ha;
    [destruct (stream s) as [st|] eqn:Hst|].
  2,3: unfold emitted, exec; rewrite updateAudioDelay_idle by auto;
       simpl; rewrite drop_all; simpl; rewrite Hlive;
       by destruct (audioContext s).
  assert (Hkeep : forall r s',
    (exists u : unit, r = Normal u) /\
    audios s' = reloaded (Some (RawStream st)) a (audios s) /\
    contexts s' = contexts s /\ audioContext s' = audioContext s /\
    plays s' = replayed a (audioEnabled s) (plays s) /\ untouched s s' /\
    log s' = log s ++ [EvAudioPause a; EvAudioSeek a; EvAudioSetSrc a (Some (RawStream st))]
                   ++ (if audioEnabled s then [EvAudioPlay a] else []) ->
    forall evs, drop (length (log s)) (log s') = evs ->
    never_two_live (live_contexts s) evs = true /\
    closes_only_open (live_contexts s) evs = true /\
    foldl ctx_step (live_contexts s) evs = live_contexts s' /\
    live_contexts s' = option_list (audioContext s') /\
    match audioContext s' with
    | Some _ => AudioContext_ctor (caps s') = CtorWorks
    | None => True
    end).
  { intros r s' (_ & _ & Hctx & Hvar & _ & (Hcaps & _) & Hlog) evs <-.
    assert (Hl' : live_contexts s' = live_contexts s)
      by (unfold live_contexts; by rewrite Hctx).
    rewrite Hlog, drop_log, Hl', Hvar, Hcaps, Hlive.
    by destruct (audioContext s), (audioEnabled s). }
  destruct (decide (0 < audioDelay s)) as [Hd|Hd].
  2: { eapply Hkeep; [|reflexivity].
       apply (wp_exec _ _ _ (updateAudioDelay_direct s a st Ha Hst ltac:(left; lia))). }
  destruct (AudioContext_ctor (caps s)) eqn:Hc.
  - eapply Hkeep; [|reflexivity].
    apply (wp_exec _ _ _ (updateAudioDelay_direct s a st Ha Hst ltac:(by right))).
  - destruct (audioContext s) as [c0|] eqn:Hv; [done|].
    eapply Hkeep; [|reflexivity]. rewrite <- Hv.
    apply (wp_exec _ _ _ (updateAudioDelay_fallback s a st Ha Hst Hd Hc Hv)).
  - destruct (audioContext s) as [c0|] eqn:Hv.
    + assert (Hin : c0 ∈ live_contexts s) by (rewrite Hlive; simpl; by left).
      apply live_lookup in Hin as (x & Hx & Hr).
      destruct (wp_exec _ _ _ (updateAudioDelay_rebuild s a st c0 x Ha Hst Hd Hc Hv Hx Hr))
        as (_ & _ & Hctx & Hvar & _ & (Hcaps & _) & Hlog).
      rewrite (emitted_app _ _ _ Hlog), Hvar, Hcaps, Hlive.
      unfold live_contexts. rewrite Hctx, live_after_rebuild by done.
      destruct (audioEnabled s); cbn [app never_two_live closes_only_open foldl ctx_step
                                      existsb option_list];
        rewrite ?filter_ne_self; simpl; rewrite ?Nat.eqb_refl; done.
    + destruct (wp_exec _ _ _ (updateAudioDelay_first_build s a st Ha Hst Hd Hc Hv))
        as (_ & _ & Hctx & Hvar & _ & (Hcaps & _) & Hlog).
      rewrite (emitted_app _ _ _ Hlog), Hvar, Hcaps, Hlive.
      unfold live_contexts. rewrite Hctx, live_after_first_build by done.
      destruct (audioEnabled s); cbn [app never_two_live closes_only_open foldl ctx_step
                                      existsb option_list];
        rewrite ?filter_ne_self; simpl; rewrite ?Nat.eqb_refl; done.
Qed.

Lemma stopStream_exec (s : State) : exec stopStream s = after_stop s.
Proof. unfold exec. by rewrite stopStream_eq. Qed.

Lemma stopStream_emitted (s : State) : emitted stopStream s = stop_calls s.
Proof. apply emitted_app. by rewrite stopStream_exec. Qed.

Lemma stopStream_releases (s : State) :
  ctx_inv s -> live_contexts (exec stopStream s) = [].
Proof.
  intros [Hlive _]. rewrite stopStream_exec. unfold live_contexts, after_stop.
  cbn [contexts]. unfold live_contexts in Hlive.
  destruct (audioContext s) as [c|]; [|done].
  rewrite live_from_close, Hlive. apply filter_ne_self.
Qed.

Lemma no_close_in_track_stops (st : nat) (l : list nat) :
  List.filter is_close (EvTrackStop st <$> l) = [].
Proof. induction l as [|i l IH]; [done|]. simpl. exact IH. Qed.

Lemma stop_calls_closes (s : State) :
  count_closes (stop_calls s) = match audioContext s with Some _ => 1%nat | None => 0%nat end.
Proof.
  unfold count_closes, stop_calls. rewrite !List.filter_app.
  destruct (videoElement s), (audioElement s), (stream s), (audioContext s);
    simpl; rewrite ?no_close_in_track_stops; done.
Qed.

Lemma ctx_close_closed (s : State) (c : nat) (x : AudioCtx) :
  contexts s !! c = Some x -> ctx_state x = Closed ->
  contexts (exec (ctx_close c) s) = contexts s.
Proof.
  intros Hx Hc. unfold exec, ctx_close, bind, write, emit. cbn.
  apply list_eq. intros i. destruct (decide (i = c)) as [->|Hne].
  - rewrite list_lookup_alter_eq, Hx. simpl. f_equal. destruct x. simpl in Hc. by subst.
  - by rewrite list_lookup_alter_ne.
Qed.

(** C3.  Contexts are released before new ones are built.  Setting any delay
    [d] in [0,1000] from a state where the only open context is the one in
    [audioContext]: after every single call at most one context is open (a
    [close()] comes before each [new AudioContext()] that would otherwise
    make two), [close()] is only ever called on a context that is open, and
    the calls account exactly for the contexts open afterwards.  Releasing
    right after the build ([stopStream]) leaves no context open; releasing
    once more closes nothing and changes no context; and [close()] on a
    closed context changes nothing. *)
Theorem context_closed_before_rebuild (s : State) (d : Z) :
  ctx_inv s -> 0 <= d <= 1000 ->
  let build := perform (DelayInput d) in
  let built := exec build s in
  never_two_live (live_contexts s) (emitted build s) = true /\
  closes_only_open (live_contexts s) (emitted build s) = true /\
  foldl ctx_step (live_contexts s) (emitted build s) = live_contexts built /\
  (length (live_contexts built) <= 1)%nat /\
  live_contexts (exec stopStream built) = [] /\
  contexts (exec stopStream (exec stopStream built)) = contexts (exec stopStream built) /\
  count_closes (emitted stopStream (exec stopStream built)) = 0%nat /\
  (forall c x, contexts s !! c = Some x -> ctx_state x = Closed ->
               contexts (exec (ctx_close c) s) = contexts s).
Proof.
  intros Hinv _ build built. subst build built.
  destruct (DelayInput_unfold d s) as (_ & -> & ->).
  destruct (updateAudioDelay_ctx_disciplined (set_audioDelay d s) Hinv)
    as (Hnever & Hopen & Hfold & Hinv').
  change (live_contexts (set_audioDelay d s)) with (live_contexts s) in *.
  set (built := exec updateAudioDelay (set_audioDelay d s)) in *.
  repeat split; try assumption.
  - destruct Hinv' as [-> _]. destruct (audioContext built); simpl; lia.
  - by apply stopStream_releases.
  - rewrite (stopStream_exec (exec stopStream built)), (stopStream_exec built). done.
  - rewrite stopStream_emitted, stop_calls_closes, stopStream_exec. done.
  - apply ctx_close_closed.
Qed.

Lemma context_release_witness :
  (ctx_inv monitoring /\ 0 <= 300 <= 1000) /\
  never_two_live (live_contexts monitoring) (emitted (perform (DelayInput 300)) monitoring) = true /\
  live_contexts (exec stopStream (exec (perform (DelayInput 300)) monitoring)) = [].
Proof.
  assert (H : ctx_inv monitoring /\ 0 <= 300 <= 1000).
  { vm_compute. repeat split; discriminate. }
  split; [exact H|]. destruct H as [Hinv Hd].
  destruct (context_closed_before_rebuild monitoring 300 Hinv Hd) as (H1 & _ & _ & _ & H5 & _).
  auto.
Defined.

(** ** Playback promises *)

Lemma wp_updateAudioDelay_any (s : State) (Q : Completion unit -> State -> Prop) :
  (forall s', Q (Normal tt) s') -> wp updateAudioDelay s Q.
Proof.
  intros HQ. pose proof (updateAudioDelay_completes s) as H.
  unfold wp, completes in *. destruct (updateAudioDelay s) as [[[]|e] s']; [apply HQ|done].
Qed.

Lemma toggleAudio_completes (s : State) : completes toggleAudio s = true.
Proof.
  apply (wp_normal toggleAudio s (fun _ => True)). unfold toggleAudio.
  wp_all; eauto. apply wp_updateAudioDelay_any. intros s'. wp_all. eauto.
Qed.

Lemma setupAudioPlayback_completes (st : nat) (s : State) :
  completes (setupAudioPlayback st) s = true.
Proof.
  apply (wp_normal (setupAudioPlayback st) s (fun _ => True)). unfold setupAudioPlayback.
  wp_all; eauto.
Qed.

(** Enabling from the disabled state ends with a [play()] call whose promise
    is pending. *)
Lemma toggleAudio_starts_playback (s : State) (a st : nat) :
  audioElement s = Some a -> stream s = Some st -> audioEnabled s = false ->
  last (log (exec toggleAudio s)) = Some (EvAudioPlay a) /\
  last (plays (exec toggleAudio s)) = Some (mkPlay a FromToggle Pending).
Proof.
  intros Ha Hst Hen.
  apply (wp_exec toggleAudio s (fun _ s' =>
           last (log s') = Some (EvAudioPlay a) /\
           last (plays s') = Some (mkPlay a FromToggle Pending))).
  unfold toggleAudio. wp_go. apply wp_updateAudioDelay_any. intros s'. wp_go.
  split; apply last_snoc.
Qed.

(** C6.  A rejected playback start.  When the browser rejects the [play()]
    promise made by [setupAudioPlayback] or by [toggleAudio] (autoplay
    blocked, or the element was paused meanwhile), the handler completes
    without throwing, [audioEnabled] is false afterwards, and nothing else
    but the promise's own status changes: no element starts playing.  The
    calls that made the promise never throw either, and from the resulting
    state [toggleAudio] takes the enabling path again: it ends with a new
    [play()] call whose promise is pending. *)
Theorem rejected_playback_leaves_disabled (s : State) (i : nat) (p : PlayPromise) (ok : bool) :
  plays s !! i = Some p -> pp_status p <> Settled -> pp_kind p <> FromResume ->
  ok = false \/ pp_status p = Aborted ->
  let s' := exec (playSettled i ok) s in
  completes (playSettled i ok) s = true /\
  audioEnabled s' = false /\
  audios s' = audios s /\ contexts s' = contexts s /\ streams s' = streams s /\
  audioElement s' = audioElement s /\ stream s' = stream s /\
  audioContext s' = audioContext s /\ audioDelay s' = audioDelay s /\
  hasPermission s' = hasPermission s /\ log s' = log s /\
  plays s' = <[i := mkPlay (pp_elem p) (pp_kind p) Settled]> (plays s) /\
  (forall st, completes (setupAudioPlayback st) s = true) /\
  completes toggleAudio s = true /\
  completes toggleAudio s' = true /\
  (forall a st, audioElement s = Some a -> stream s = Some st ->
     last (log (exec toggleAudio s')) = Some (EvAudioPlay a) /\
     last (plays (exec toggleAudio s')) = Some (mkPlay a FromToggle Pending)).
Proof.
  intros Hp Hstat Hkind Hrej s'.
  assert (H : completes (playSettled i ok) s = true /\
              (audioEnabled s' = false /\
               audios s' = audios s /\ contexts s' = contexts s /\ streams s' = streams s /\
               audioElement s' = audioElement s /\ stream s' = stream s /\
               audioContext s' = audioContext s /\ audioDelay s' = audioDelay s /\
               hasPermission s' = hasPermission s /\ log s' = log s /\
               plays s' = <[i := mkPlay (pp_elem p) (pp_kind p) Settled]> (plays s))).
  { subst s'.
    apply (wp_normal (playSettled i ok) s (fun s' =>
             audioEnabled s' = false /\
             audios s' = audios s /\ contexts s' = contexts s /\ streams s' = streams s /\
             audioElement s' = audioElement s /\ stream s' = stream s /\
             audioContext s' = audioContext s /\ audioDelay s' = audioDelay s /\
             hasPermission s' = hasPermission s /\ log s' = log s /\
             plays s' = <[i := mkPlay (pp_elem p) (pp_kind p) Settled]> (plays s))).
    unfold playSettled. wp_go.
    destruct (pp_status p) eqn:Es; [| |done];
      (destruct ok; [destruct Hrej as [Hrej|Hrej]; try discriminate|]);
      cbv beta iota; wp_go; unfold playHandlers;
      (destruct (pp_kind p) eqn:Ek; [| |done]); wp_go;
      repeat split; eauto. }
  destruct H as (Hc & Hen & Haud & Hctx & Hstr & Hel & Hst & Hvar & Hdel & Hperm & Hlog & Hplays).
  repeat split; try assumption.
  - intros st. apply setupAudioPlayback_completes.
  - apply toggleAudio_completes.
  - apply toggleAudio_completes.
  - apply (toggleAudio_starts_playback s' a st); congruence.
  - apply (toggleAudio_starts_playback s' a st); congruence.
Qed.

Lemma rejected_playback_witness :
  (plays awaiting_autoplay !! 0%nat = Some (mkPlay 0 FromSetup Pending) /\
   pp_status (mkPlay 0 FromSetup Pending) <> Settled /\
   pp_kind (mkPlay 0 FromSetup Pending) <> FromResume) /\
  audioEnabled (exec (playSettled 0 false) awaiting_autoplay) = false /\
  completes (playSettled 0 false) awaiting_autoplay = true.
Proof.
  assert (H : plays awaiting_autoplay !! 0%nat = Some (mkPlay 0 FromSetup Pending) /\
              pp_status (mkPlay 0 FromSetup Pending) <> Settled /\
              pp_kind (mkPlay 0 FromSetup Pending) <> FromResume).
  { split; [vm_compute; reflexivity|]. split; discriminate. }
  split; [exact H|]. destruct H as (Hp & Hs & Hk).
  destruct (rejected_playback_leaves_disabled awaiting_autoplay 0
              (mkPlay 0 FromSetup Pending) false Hp Hs Hk (or_introl eq_refl))
    as (Hc & Hen & _).
  auto.
Defined.

(** ** Stopping what is already stopped *)

Lemma alter_fixed {A} (f : A -> A) (i : nat) (l : list A) :
  (forall x, l !! i = Some x -> f x = x) -> alter f i l = l.
Proof.
  intros Hf. apply list_eq. intros j. destruct (decide (j = i)) as [->|Hne].
  - rewrite list_lookup_alter_eq. destruct (l !! i) as [x|] eqn:E; [|done].
    simpl. by rewrite Hf.
  - by rewrite list_lookup_alter_ne.
Qed.

Lemma is_zero_eq (q : Q) : is_zero q = true -> q = 0%Q.
Proof. destruct q as [[|n|n] [d|d|]]; simpl; try done. Qed.

Lemma element_stopped_reloaded (e : AudioElem) :
  element_stopped e = true ->
  with_src None (with_currentTime 0%Q (with_paused true e)) = e.
Proof.
  destruct e as [src paused t muted vol]. unfold element_stopped. simpl.
  destruct src; [done|]. intros [-> Hz%is_zero_eq]%andb_prop. by subst.
Qed.

Lemma none_pending_abort (a : nat) (ps : list PlayPromise) :
  none_pending a ps = true -> abort_play a <$> ps = ps.
Proof.
  unfold none_pending.
  induction ps as [|p ps IH]; [done|]. rewrite fmap_cons. cbn [forallb].
  intros [Hp Hps]%andb_prop. f_equal; [|by apply IH].
  unfold abort_play. destruct (decide (pp_elem p = a)) as [Heq|Hne]; [|done].
  apply Nat.eqb_eq in Heq. rewrite Heq in Hp. simpl in Hp.
  by destruct (pp_status p).
Qed.

Lemma all_ended_stop (tr : list Track) :
  forallb (fun t => negb (t_live t)) tr = true -> stop_track <$> tr = tr.
Proof.
  induction tr as [|t tr IH]; [done|]. rewrite fmap_cons. cbn [forallb].
  intros [Ht Htr]%andb_prop. f_equal; [|by apply IH].
  destruct t as [k live]. simpl in Ht. by destruct live.
Qed.

Lemma reloaded_alter (o : option StreamRef) (a : nat) (l : list AudioElem) :
  reloaded o a l = alter (fun e => with_src o (with_currentTime 0%Q (with_paused true e))) a l.
Proof. unfold reloaded. by rewrite !list_alter_alter_eq. Qed.

(** When everything is stopped, [stopStream] only adds its calls to the log. *)
Lemma stopStream_when_stopped (s : State) :
  stopped s = true -> after_stop s = set_log (log s ++ stop_calls s) s.
Proof.
  unfold stopped. intros H.
  apply andb_prop in H as [H Hmic]. apply andb_prop in H as [H Hen].
  apply andb_prop in H as [H Hstreaming]. apply andb_prop in H as [H Hvar].
  apply andb_prop in H as [H Htracks]. apply andb_prop in H as [Hvideo Haudio].
  assert (Haud : match audioElement s with
                 | Some a => reloaded None a (audios s)
                 | None => audios s
                 end = audios s).
  { revert Haudio. destruct (audioElement s) as [a|]; [|done]. intros Haudio.
    rewrite reloaded_alter. apply alter_fixed. intros e He.
    rewrite He in Haudio. apply andb_prop in Haudio as [Haudio _].
    by apply element_stopped_reloaded. }
  assert (Hplays : match audioElement s with
                   | Some a => abort_play a <$> (abort_play a <$> plays s)
                   | None => plays s
                   end = plays s).
  { revert Haudio. destruct (audioElement s) as [a|]; [|done]. intros Haudio.
    apply andb_prop in Haudio as [_ Hn].
    by rewrite !(none_pending_abort a (plays s) Hn). }
  assert (Hstr : match stream s with
                 | Some st => alter (fmap stop_track) st (streams s)
                 | None => streams s
                 end = streams s).
  { revert Htracks. destruct (stream s) as [st|]; [|done]. intros Htracks.
    apply alter_fixed. intros tr Htr. unfold MediaStream in *.
    rewrite Htr in Htracks. by apply all_ended_stop. }
  assert (Hvid : (fun _ => mkVideoElem None true) <$> videoElement s = videoElement s).
  { destruct (videoElement s) as [[[] []]|]; done. }
  unfold after_stop. rewrite Haud, Hplays, Hstr, Hvid.
  apply negb_true_iff in Hen, Hstreaming. apply is_zero_eq in Hmic.
  clear Haud Hplays Hstr Hvid Hvideo Haudio Htracks.
  destruct s; simpl in *. subst. by destruct audioContext0.
Qed.

Lemma none_pending_aborted (a : nat) (ps : list PlayPromise) :
  none_pending a (abort_play a <$> ps) = true.
Proof.
  unfold none_pending.
  induction ps as [|p ps IH]; [done|]. rewrite fmap_cons. cbn [forallb].
  rewrite IH, andb_true_r.
  unfold abort_play. destruct (decide (pp_elem p = a)) as [Heq|Hne].
  - destruct (pp_status p) eqn:Es; simpl; rewrite ?Es; by rewrite ?orb_true_r.
  - apply Nat.eqb_neq in Hne. by rewrite Hne.
Qed.

Lemma all_ended_after_stop (tr : list Track) :
  forallb (fun t => negb (t_live t)) (stop_track <$> tr) = true.
Proof. induction tr as [|t tr IH]; [done|]. rewrite fmap_cons. exact IH. Qed.

(** [stopStream] always leaves everything stopped. *)
Lemma stopped_after_stop (s : State) : stopped (after_stop s) = true.
Proof.
  unfold stopped, after_stop. cbn [videoElement audioElement audios plays stream streams
    audioContext isStreaming audioEnabled micLevel]. simpl negb. simpl is_zero.
  rewrite !andb_true_r.
  apply andb_true_intro; split; [apply andb_true_intro; split|].
  - by destruct (videoElement s).
  - destruct (audioElement s) as [a|]; [|done].
    apply andb_true_intro; split; [|apply none_pending_aborted].
    rewrite reloaded_alter, list_lookup_alter_eq.
    destruct (audios s !! a) as [e|]; reflexivity.
  - destruct (stream s) as [st|]; [|done].
    rewrite list_lookup_alter_eq.
    match goal with |- context [_ <$> ?o] => destruct o as [tr|] end; [|reflexivity].
    apply (all_ended_after_stop tr).
Qed.

(** C8.  Stopping is idempotent.  [stopStream] never throws.  When playback
    is already stopped, it leaves every variable and every browser object as
    it was; only the record of the calls it made grows.  And whatever the
    state before, the state [stopStream] leaves behind is stopped, so that a
    second stop is such a no-op. *)
Theorem stop_when_stopped_is_noop (s : State) :
  completes stopStream s = true /\
  (stopped s = true -> exec stopStream s = set_log (log s ++ stop_calls s) s) /\
  stopped (exec stopStream s) = true /\
  exec stopStream (exec stopStream s) =
    set_log (log (exec stopStream s) ++ stop_calls (exec stopStream s)) (exec stopStream s).
Proof.
  assert (Hc : completes stopStream s = true)
    by (unfold completes; by rewrite stopStream_eq).
  rewrite (stopStream_exec (exec stopStream s)), !stopStream_exec.
  repeat split; [done| |apply stopped_after_stop|].
  - apply stopStream_when_stopped.
  - apply stopStream_when_stopped, stopped_after_stop.
Qed.

Lemma stop_when_stopped_witness :
  stopped halted = true /\
  exec stopStream halted = set_log (log halted ++ stop_calls halted) halted.
Proof.
  assert (H : stopped halted = true) by (vm_compute; reflexivity).
  split; [exact H|].
  destruct (stop_when_stopped_is_noop halted) as (_ & Hnoop & _).
  exact (Hnoop H).
Defined.

(** ** Teardown *)

Section segments.
Variable phase : Event -> nat.

Lemma seg_nil (lo hi : nat) : seg phase lo hi [].
Proof. split; [done|constructor]. Qed.

Lemma seg_weaken (lo hi lo' hi' : nat) (l : list Event) :
  (lo' <= lo)%nat -> (hi <= hi')%nat -> seg phase lo hi l -> seg phase lo' hi' l.
Proof.
  intros Hlo Hhi [Ho Hb]. split; [done|].
  eapply Forall_impl; [exact Hb|]. simpl. intros e He. lia.
Qed.

Lemma seg_const (p : nat) (l : list Event) :
  Forall (fun e => phase e = p) l -> seg phase p p l.
Proof.
  intros H. split.
  - induction H as [|e l He Hl IH]; [done|]. simpl. destruct l as [|e' l']; [done|].
    apply Forall_cons in Hl as [He' _]. rewrite IH, He, He', Nat.leb_refl. done.
  - eapply Forall_impl; [exact H|]. simpl. intros e He. lia.
Qed.

Lemma seg_app (lo mid hi : nat) (l1 l2 : list Event) :
  (lo <= mid <= hi)%nat -> seg phase lo mid l1 -> seg phase mid hi l2 -> seg phase lo hi (l1 ++ l2).
Proof.
  intros Hm [Ho1 Hb1] [Ho2 Hb2]. split.
  - induction l1 as [|e l1 IH]; [done|].
    apply Forall_cons in Hb1 as [He Hb1].
    destruct l1 as [|e' l1'].
    + simpl. destruct l2 as [|e2 l2']; [done|].
      apply Forall_cons in Hb2 as [He2 _]. rewrite Ho2, andb_true_r.
      apply Nat.leb_le. lia.
    + change (in_order phase (e :: e' :: l1'))
        with ((phase e <=? phase e')%nat && in_order phase (e' :: l1')) in Ho1.
      apply andb_prop in Ho1 as [Hle Ho1].
      change (in_order phase ((e :: e' :: l1') ++ l2))
        with ((phase e <=? phase e')%nat && in_order phase ((e' :: l1') ++ l2)).
      rewrite Hle. simpl andb. apply IH; assumption.
  - apply Forall_app. split.
    + eapply Forall_impl; [exact Hb1|]. simpl. intros e He. lia.
    + eapply Forall_impl; [exact Hb2|]. simpl. intros e He. lia.
Qed.
End segments.

Lemma track_stops_phase (st : nat) (l : list nat) :
  Forall (fun e => teardown_phase e = 2%nat) (EvTrackStop st <$> l).
Proof. apply Forall_fmap, Forall_true. done. Qed.

Lemma stop_calls_in_order (s : State) : seg teardown_phase 0 3 (stop_calls s).
Proof.
  unfold stop_calls.
  apply (seg_app _ 0 0 3); [lia| |].
  { apply seg_const. destruct (videoElement s); repeat constructor. }
  apply (seg_app _ 0 1 3); [lia| |].
  { apply (seg_weaken _ 1 1); [lia..|]. apply seg_const.
    destruct (audioElement s); repeat constructor. }
  apply (seg_app _ 1 2 3); [lia| |].
  { apply (seg_weaken _ 2 2); [lia..|]. apply seg_const.
    destruct (stream s); [apply track_stops_phase|constructor]. }
  apply (seg_weaken _ 3 3); [lia..|]. apply seg_const.
  destruct (audioContext s); repeat constructor.
Qed.

Lemma teardown_calls_in_order (s : State) :
  in_order teardown_phase (teardown_calls s) = true.
Proof.
  unfold teardown_calls, cancel_calls, listener_calls.
  apply (seg_app _ 0 3 5); [lia|apply stop_calls_in_order|].
  apply (seg_app _ 3 4 5); [lia| |].
  - apply (seg_weaken _ 4 4); [lia..|]. apply seg_const.
    destruct (truthy_handle (animationFrame s)); [|constructor].
    destruct (has_cancelAnimationFrame (caps s)); repeat constructor.
  - apply (seg_weaken _ 5 5); [lia..|]. apply seg_const.
    destruct (has_document (caps s)); repeat constructor.
Qed.

(** No call of teardown is made twice. *)
Lemma NoDup_around_track_stops (pre post : list Event) (st n : nat) :
  NoDup (pre ++ post) ->
  Forall (fun e => teardown_phase e ≠ 2%nat) (pre ++ post) ->
  NoDup (pre ++ (EvTrackStop st <$> seq 0 n) ++ post).
Proof.
  intros Hnd Hph. apply NoDup_app in Hnd as (Hpre & Hdisj & Hpost).
  apply Forall_app in Hph as [Hph1 Hph2].
  assert (Htr : NoDup (EvTrackStop st <$> seq 0 n)).
  { apply NoDup_fmap_2; [|apply NoDup_seq]. by intros i j [= ->]. }
  assert (Hin : forall e, e ∈ EvTrackStop st <$> seq 0 n -> teardown_phase e = 2%nat).
  { intros e (i & -> & _)%list_elem_of_fmap. done. }
  apply NoDup_app. split; [done|]. split.
  - intros e He [Het|Hep]%elem_of_app; [|by eapply Hdisj].
    apply Hin in Het. rewrite Forall_forall in Hph1. by eapply Hph1.
  - apply NoDup_app. split; [done|]. split; [|done].
    intros e Het Hep. apply Hin in Het. rewrite Forall_forall in Hph2. by eapply Hph2.
Qed.

Lemma teardown_calls_NoDup (s : State) : NoDup (teardown_calls s).
Proof.
  unfold teardown_calls, stop_calls, cancel_calls, listener_calls.
  set (tracks := match stream s with
                 | Some st => EvTrackStop st <$> seq 0 (length (default [] (streams s !! st)))
                 | None => []
                 end).
  set (V := match videoElement s with Some _ => _ | None => _ end).
  set (Au := match audioElement s with Some _ => _ | None => _ end).
  set (C := match audioContext s with Some _ => _ | None => _ end).
  set (F := match truthy_handle (animationFrame s) with Some _ => _ | None => _ end).
  set (L := if has_document (caps s) then _ else _).
  assert (H : NoDup ((V ++ Au) ++ tracks ++ (C ++ F ++ L))).
  { assert (Hrest : NoDup ((V ++ Au) ++ (C ++ F ++ L)) /\
                    Forall (fun e => teardown_phase e ≠ 2%nat) ((V ++ Au) ++ (C ++ F ++ L))).
    { subst V Au C F L.
      destruct (videoElement s), (audioElement s), (audioContext s),
        (truthy_handle (animationFrame s)), (has_cancelAnimationFrame (caps s)),
        (has_document (caps s)); simpl;
        (split; [repeat (apply NoDup_cons; split;
                           [rewrite ?not_elem_of_cons; repeat split;
                            first [apply not_elem_of_nil | discriminate]|]);
                 apply NoDup_nil_2
                |repeat constructor; done]). }
    destruct Hrest as [Hnd Hph]. subst tracks.
    destruct (stream s) as [st|]; [by apply NoDup_around_track_stops|exact Hnd]. }
  rewrite <- !app_assoc in H. rewrite <- !app_assoc. exact H.
Qed.

Lemma wp_stopStream (s : State) (Q : Completion unit -> State -> Prop) :
  Q (Normal tt) (after_stop s) -> wp stopStream s Q.
Proof. unfold wp. by rewrite stopStream_eq. Qed.

Lemma onDestroy_wp (s : State) :
  wp onDestroy s (fun r s' =>
    (exists u, r = Normal u) /\
    log s' = log s ++ teardown_calls s /\
    analyser s' = analyser s /\
    stopped s' = true /\
    rafPending s' = match truthy_handle (animationFrame s) with
                    | Some h => if has_cancelAnimationFrame (caps s)
                                then filter (fun x => x ≠ h) (rafPending s)
                                else rafPending s
                    | None => rafPending s
                    end).
Proof.
  unfold onDestroy, teardown_calls, cancel_calls, listener_calls.
  wp_step. apply wp_stopStream. cbv beta iota.
  repeat first [wp_step
               | progress cbn [after_stop animationFrame caps log analyser rafPending]
               | wp_case];
    rewrite <- ?app_assoc, ?app_nil_r;
    (split; [exists tt; reflexivity|]); (split; [reflexivity|]); (split; [reflexivity|]);
    (split; [exact (stopped_after_stop s)|reflexivity]).
Qed.

(** C4 (as the code has it).  Teardown ([onDestroy]) from any state never
    throws and makes exactly these calls, in this order: pause and detach the
    video, stop playback (pause, rewind, detach the audio element), stop
    every track of the stream, close the processing context, cancel the
    scheduled animation frame, remove the page listener.  No call is made
    twice, and afterwards everything is stopped.  The analyser is not
    released: the [analyser] variable still holds what it held. *)
Theorem teardown_release_order (s : State) :
  completes onDestroy s = true /\
  emitted onDestroy s = teardown_calls s /\
  in_order teardown_phase (emitted onDestroy s) = true /\
  NoDup (emitted onDestroy s) /\
  stopped (exec onDestroy s) = true /\
  analyser (exec onDestroy s) = analyser s /\
  (forall h, truthy_handle (animationFrame s) = Some h ->
             has_cancelAnimationFrame (caps s) = true ->
             h ∉ rafPending (exec onDestroy s)).
Proof.
  destruct (wp_normal _ _ _ (onDestroy_wp s)) as (Hc & Hlog & Han & Hst & Hraf).
  apply emitted_app in Hlog.
  repeat split; try assumption.
  - rewrite Hlog. apply teardown_calls_in_order.
  - rewrite Hlog. apply teardown_calls_NoDup.
  - intros h Hh Hcaf. rewrite Hraf, Hh, Hcaf.
    intros [Hne _]%list_elem_of_filter. by apply Hne.
Qed.

Lemma teardown_release_witness :
  (truthy_handle (animationFrame monitoring) = Some 1%nat /\
   has_cancelAnimationFrame (caps monitoring) = true) /\
  1%nat ∉ rafPending (exec onDestroy monitoring).
Proof.
  assert (H : truthy_handle (animationFrame monitoring) = Some 1%nat /\
              has_cancelAnimationFrame (caps monitoring) = true).
  { vm_compute. by split. }
  split; [exact H|]. destruct H as [Hh Hc].
  destruct (teardown_release_order monitoring) as (_ & _ & _ & _ & _ & _ & Hraf).
  exact (Hraf 1%nat Hh Hc).
Defined.

(** C4 as stated fails: on the monitoring page the tracks are stopped before
    the processing context is closed, not after, and the analyser is still
    attached when teardown is over. *)
Lemma teardown_claimed_order_fails :
  emitted onDestroy monitoring =
    [EvVideoPause; EvVideoSetSrc None;
     EvAudioPause 0; EvAudioSeek 0; EvAudioSetSrc 0 None;
     EvTrackStop 0 0; EvTrackStop 0 1;
     EvCtxClose 0;
     EvCancelFrame 1;
     EvRemoveListener] /\
  in_order claimed_phase (emitted onDestroy monitoring) = false /\
  analyser (exec onDestroy monitoring) = Some (0, 1)%nat.
Proof. vm_compute. done. Qed.

(** ** Switching the microphone *)

Lemma requestPermissions_call_log (s : State) :
  log (exec requestPermissions_call s) = log s ++ acquire_calls s.
Proof.
  apply (wp_exec requestPermissions_call s (fun _ s' => log s' = log s ++ acquire_calls s)).
  unfold requestPermissions_call, requestPermissions_catch, acquire_calls.
  destruct (has_navigator (caps s)) eqn:Hnav, (has_mediaDevices (caps s)) eqn:Hmd;
    wp_all; rewrite ?app_nil_r; reflexivity.
Qed.

Lemma no_acquire_in_stop_calls (s : State) :
  Forall (fun e => is_acquire e = false) (stop_calls s).
Proof.
  unfold stop_calls. rewrite !Forall_app. repeat split.
  - destruct (videoElement s); repeat constructor.
  - destruct (audioElement s); repeat constructor.
  - destruct (stream s); [|constructor]. apply Forall_fmap, Forall_true. done.
  - destruct (audioContext s); repeat constructor.
Qed.

(** C7 (as the code has it).  A device switch does nothing at all when no
    stream has been acquired.  When one has, it first runs [stopStream] to
    the end (every track ended, playback paused and detached, the context
    closed and forgotten) and then runs [requestPermissions] from the
    stopped state: its calls are those of the stop followed by the
    [getUserMedia] request, and no [getUserMedia] is among the former. *)
Theorem device_switch_stops_then_reacquires (s : State) :
  (stream s = None ->
     switchMicrophone_call s = (Normal false, s) /\
     forall r, switchMicrophone r s = (Normal tt, s)) /\
  (forall st, stream s = Some st ->
     switchMicrophone_call s = requestPermissions_call (exec stopStream s) /\
     (forall r, switchMicrophone r s = requestPermissions r (exec stopStream s)) /\
     stopped (exec stopStream s) = true /\
     (ctx_inv s -> live_contexts (exec stopStream s) = []) /\
     emitted switchMicrophone_call s = stop_calls s ++ acquire_calls s /\
     Forall (fun e => is_acquire e = false) (stop_calls s)).
Proof.
  split.
  - intros Hst. unfold switchMicrophone, switchMicrophone_call, bind, read.
    rewrite Hst. done.
  - intros st Hst.
    assert (Hcall : switchMicrophone_call s = requestPermissions_call (exec stopStream s)).
    { rewrite stopStream_exec. unfold switchMicrophone_call, bind, read.
      rewrite Hst, stopStream_eq. done. }
    repeat split.
    + exact Hcall.
    + intros r. unfold switchMicrophone, requestPermissions, bind. by rewrite Hcall.
    + rewrite stopStream_exec. apply stopped_after_stop.
    + apply stopStream_releases.
    + apply emitted_app. unfold exec at 1. rewrite Hcall.
      fold (exec requestPermissions_call (exec stopStream s)).
      rewrite requestPermissions_call_log, stopStream_exec.
      cbn [after_stop log caps selectedMicId acquire_calls].
      unfold acquire_calls. cbn [after_stop caps selectedMicId].
      by rewrite app_assoc.
    + apply no_acquire_in_stop_calls.
Qed.

Lemma device_switch_witness :
  stream monitoring = Some 0%nat /\
  emitted switchMicrophone_call (set_selectedMicId "mic-b" monitoring) =
    [EvVideoPause; EvVideoSetSrc None;
     EvAudioPause 0; EvAudioSeek 0; EvAudioSetSrc 0 None;
     EvTrackStop 0 0; EvTrackStop 0 1;
     EvCtxClose 0;
     EvGetUserMedia (Some "mic-b")].
Proof.
  split; [vm_compute; reflexivity|].
  destruct (device_switch_stops_then_reacquires (set_selectedMicId "mic-b" monitoring))
    as [_ H].
  destruct (H 0%nat ltac:(vm_compute; reflexivity)) as (_ & _ & _ & _ & -> & _).
  vm_compute. reflexivity.
Defined.

(** C7 as stated fails: after access was refused no stream is held, and
    choosing another microphone requests nothing, although the browser has
    every API: no [getUserMedia] call is made and none is awaited. *)
Lemma device_switch_without_stream_does_nothing :
  stream refused = None /\
  has_navigator (caps refused) && has_mediaDevices (caps refused) = true /\
  emitted (perform (MicrophoneSelected "mic-b")) refused = [] /\
  gumPending (exec (perform (MicrophoneSelected "mic-b")) refused) = 0%nat.
Proof. vm_compute. done. Qed.

(** ** Enabling twice *)

(** C1 (the code's defect).  [setupAudioPlayback] creates a new element and
    never touches the one [audioElement] held before: the list of elements
    only grows by the new one.  On the monitoring page one element is
    audible; when access was asked for twice and granted twice, two are, each
    playing its own stream, and [audioElement] only refers to the second. *)
Theorem second_enable_leaves_first_playing :
  (forall s st, has_Audio (caps s) = true ->
     audios (exec (setupAudioPlayback st) s) = audios s ++ [monitor_element st]) /\
  active_playbacks monitoring = 1%nat /\
  active_playbacks enabled_twice = 2%nat /\
  audioElement enabled_twice = Some 1%nat /\
  source_of enabled_twice 0 = Some (RawStream 0) /\
  source_of enabled_twice 1 = Some (RawStream 1).
Proof.
  split; [|vm_compute; done].
  intros s st Haudio.
  apply (wp_exec (setupAudioPlayback st) s
           (fun _ s' => audios s' = audios s ++ [monitor_element st])).
  unfold setupAudioPlayback. wp_go. reflexivity.
Qed.

(** ** Invariants of scripts *)

Lemma wp_keeps (I : State -> Prop) {A} (m : Script A) (s : State)
    (Q : Completion A -> State -> Prop) :
  keeps I m -> I s -> (forall r s', I s' -> Q r s') -> wp m s Q.
Proof. intros Hk Hs HQ. eapply wp_mono; [|exact (Hk s Hs)]. simpl. auto. Qed.

Lemma keeps_exec (I : State -> Prop) {A} (m : Script A) (s : State) :
  keeps I m -> I s -> I (exec m s).
Proof. intros Hk Hs. exact (Hk s Hs). Qed.

Lemma keeps_bind (I : State -> Prop) {A B} (m : Script A) (k : A -> Script B) :
  keeps I m -> (forall a, keeps I (k a)) -> keeps I (bind m k).
Proof.
  intros Hm Hk s Hs. apply wp_bind. apply (wp_keeps I); [done..|].
  intros [a|e] s' Hs'; [by apply Hk|done].
Qed.

Lemma keeps_read (I : State -> Prop) {A} (f : State -> A) : keeps I (read f).
Proof. intros s Hs. by apply wp_read. Qed.

Lemma keeps_ret (I : State -> Prop) {A} (a : A) : keeps I (ret a).
Proof. intros s Hs. by apply wp_ret. Qed.

(** ** The script's references stay valid *)

Lemma sound_frame (s s' : State) :
  sound s ->
  length (audios s') = length (audios s) -> length (streams s') = length (streams s) ->
  audioElement s' = audioElement s -> stream s' = stream s ->
  live_contexts s' = live_contexts s -> audioContext s' = audioContext s ->
  caps s' = caps s -> sound s'.
Proof.
  unfold sound, refs_ok, ctx_inv.
  intros [[Ha Hs] [Hl Hc]] -> -> -> -> -> -> ->. done.
Qed.

(** Settle a goal [sound s'] at the end of a run from [s]. *)
Ltac frame_leaf s Hs :=
  apply (sound_frame s); [exact Hs|..]; unfold live_contexts; simp_state;
  rewrite ?length_alter, ?length_insert, ?length_fmap;
  rewrite ?live_from_alter_same by (intros []; reflexivity); reflexivity.

Lemma playSettled_sound (i : nat) (ok : bool) : keeps sound (playSettled i ok).
Proof.
  intros s Hq. unfold playSettled, playHandlers. wp_all; frame_leaf s Hq.
Qed.

Lemma getAudioDevices_sound r : keeps sound (getAudioDevices r).
Proof. intros s Hq. unfold getAudioDevices. wp_all; frame_leaf s Hq. Qed.

Lemma startStream_sound : keeps sound startStream.
Proof. intros s Hq. unfold startStream. wp_all; frame_leaf s Hq. Qed.

Lemma requestPermissions_call_sound : keeps sound requestPermissions_call.
Proof.
  intros s Hq. unfold requestPermissions_call, requestPermissions_catch.
  wp_all; frame_leaf s Hq.
Qed.

Lemma emit_sound (e : Event) : keeps sound (emit e).
Proof. intros s Hq. wp_all. frame_leaf s Hq. Qed.

Lemma paint_sound (p : Paint) : keeps sound (paint p).
Proof. intros s Hq. wp_all. frame_leaf s Hq. Qed.

Lemma drawBars_sound (height barWidth x : Q) (data : list Z) :
  keeps sound (drawBars height barWidth x data).
Proof.
  revert x. induction data as [|d data IH]; intros x; cbn [drawBars].
  - apply keeps_ret.
  - apply keeps_bind; [apply paint_sound|]. intros _. apply IH.
Qed.

Lemma draw_sound (data : list Z) : keeps sound (draw data).
Proof.
  intros s Hq. unfold draw. wp_all; try frame_leaf s Hq.
  all: apply (wp_keeps sound); [apply drawBars_sound|frame_leaf s Hq|].
  all: intros r s' Hs'; destruct r; [|exact Hs']; wp_all; frame_leaf s' Hs'.
Qed.

Lemma sound_grow (s s' : State) :
  sound s ->
  (length (audios s) <= length (audios s'))%nat ->
  (length (streams s) <= length (streams s'))%nat ->
  (audioElement s' = audioElement s \/
   exists a, audioElement s' = Some a /\ (a < length (audios s'))%nat) ->
  (stream s' = stream s \/
   exists st, stream s' = Some st /\ (st < length (streams s'))%nat) ->
  live_contexts s' = live_contexts s -> audioContext s' = audioContext s ->
  caps s' = caps s -> sound s'.
Proof.
  unfold sound, refs_ok, ctx_inv.
  intros [[Ha Hs] [Hl Hc]] Hla Hls Hae Hst -> -> ->.
  repeat split; try done.
  - destruct Hae as [->|(a & -> & Hlt)]; [|done].
    destruct (audioElement s); [lia|done].
  - destruct Hst as [->|(a & -> & Hlt)]; [|done].
    destruct (stream s); [lia|done].
Qed.

Ltac grow_leaf s Hs :=
  apply (sound_grow s); [exact Hs|..]; unfold live_contexts; simp_state;
  rewrite ?length_alter, ?length_insert, ?length_fmap, ?length_app; simpl;
  first [reflexivity | lia | by left
        | right; eexists; split; [reflexivity|];
          rewrite ?length_alter, ?length_insert, ?length_fmap, ?length_app; simpl; lia].

Ltac sound_leaf s Hs := first [solve [frame_leaf s Hs] | solve [grow_leaf s Hs]].

Lemma setupAudioPlayback_sound (st : nat) : keeps sound (setupAudioPlayback st).
Proof.
  intros s Hq. unfold setupAudioPlayback. wp_all; sound_leaf s Hq.
Qed.

Lemma live_from_nodes (f : AudioCtx -> AudioCtx) (c : nat) (s : State) :
  (forall x, ctx_state (f x) = ctx_state x) ->
  live_from 0 (alter f c (contexts s)) = live_contexts s.
Proof. intros Hf. by apply live_from_alter_same. Qed.

Ltac ctx_absurd :=
  match goal with
  | Hq : sound ?s, H : audioContext ?s = Some ?c, H' : contexts ?s !! ?c = None |- _ =>
      let x := fresh "x" in let Hx := fresh "Hx" in
      destruct (ctx_inv_open s c (proj2 Hq) H) as (x & Hx & _); congruence
  end.

Lemma sound_new_ctx (s s' : State) (g : AudioCtx) :
  sound s -> audioContext s = None -> AudioContext_ctor (caps s) = CtorWorks ->
  contexts s' = contexts s ++ [g] -> ctx_state g = Running ->
  audioContext s' = Some (length (contexts s)) ->
  length (audios s') = length (audios s) -> length (streams s') = length (streams s) ->
  audioElement s' = audioElement s -> stream s' = stream s -> caps s' = caps s ->
  sound s'.
Proof.
  unfold sound, refs_ok, ctx_inv, live_contexts.
  intros [[Ha Hs] [Hl Hc]] Hnone Hctor -> Hg -> -> -> -> -> ->.
  rewrite Hnone in Hl. simpl in Hl.
  repeat split; try done.
  rewrite live_from_app, Hl. simpl. by rewrite Hg.
Qed.

Lemma setupAudioAnalyser_sound (st : nat) : keeps sound (setupAudioAnalyser st).
Proof.
  intros s Hq. unfold setupAudioAnalyser.
  wp_all; try sound_leaf s Hq; try ctx_absurd.
  eapply (sound_new_ctx s); [exact Hq|done|done|..]; simp_state;
    rewrite ?alter_fresh; simp_state; try reflexivity.
Qed.

Lemma updateAudioDelay_refs (s : State) :
  wp updateAudioDelay s (fun _ s' =>
    length (audios s') = length (audios s) /\ streams s' = streams s /\
    audioElement s' = audioElement s /\ stream s' = stream s).
Proof.
  unfold updateAudioDelay, buildDelayGraph.
  wp_all; rewrite ?length_alter; done.
Qed.

Lemma updateAudioDelay_sound : keeps sound updateAudioDelay.
Proof.
  intros s [Hrefs Hinv].
  destruct (updateAudioDelay_ctx_disciplined s Hinv) as (_ & _ & _ & Hinv').
  pose proof (updateAudioDelay_refs s) as H. unfold wp, exec in *.
  destruct H as (Ha & Hs & He & Hst). split; [|exact Hinv'].
  unfold refs_ok in *. by rewrite Ha, Hs, He, Hst.
Qed.

Lemma toggleAudio_sound : keeps sound toggleAudio.
Proof.
  intros s Hq. unfold toggleAudio. wp_all; try sound_leaf s Hq.
  apply (wp_keeps sound); [exact updateAudioDelay_sound|exact Hq|].
  intros r s' Hq'. destruct r; [|exact Hq']. wp_all. sound_leaf s' Hq'.
Qed.

Lemma frameFired_sound (h : nat) (data : list Z) : keeps sound (frameFired h data).
Proof.
  intros s Hq. unfold frameFired. wp_all; try sound_leaf s Hq.
  apply (wp_keeps sound); [apply draw_sound| |auto]. sound_leaf s Hq.
Qed.

Lemma stopStream_sound : keeps sound stopStream.
Proof.
  intros s [[Ha Hs] Hinv]. apply wp_stopStream.
  pose proof (stopStream_releases s Hinv) as Hl. rewrite stopStream_exec in Hl.
  unfold sound, refs_ok, ctx_inv. rewrite Hl.
  unfold after_stop, reloaded. simp_state.
  repeat split; try done.
  - destruct (audioElement s); [|done]. by rewrite !length_alter.
  - destruct (stream s); [|done]. by rewrite length_alter.
Qed.

Lemma requestPermissions_resume_sound r : keeps sound (requestPermissions_resume r).
Proof.
  intros s Hq.
  unfold requestPermissions_resume, getUserMedia_settled, requestPermissions_catch.
  wp_all; try sound_leaf s Hq.
  all: apply (wp_keeps sound); [apply setupAudioPlayback_sound|sound_leaf s Hq|].
  all: intros r1 s1 Hs1; destruct r1; [|wp_all; sound_leaf s1 Hs1].
  all: apply (wp_keeps sound); [apply setupAudioAnalyser_sound|exact Hs1|].
  all: intros r2 s2 Hs2; destruct r2; [exact Hs2|wp_all; sound_leaf s2 Hs2].
Qed.

Lemma switchMicrophone_call_sound : keeps sound switchMicrophone_call.
Proof.
  intros s Hq. unfold switchMicrophone_call. wp_all; try sound_leaf s Hq.
  apply (wp_keeps sound); [apply stopStream_sound|exact Hq|].
  intros r s' Hq'. destruct r; [|exact Hq'].
  apply (wp_keeps sound); [apply requestPermissions_call_sound|exact Hq'|auto].
Qed.

Lemma onDestroy_sound : keeps sound onDestroy.
Proof.
  intros s Hq. unfold onDestroy. wp_step.
  apply (wp_keeps sound); [apply stopStream_sound|exact Hq|].
  intros r s' Hq'. destruct r; [|exact Hq']. wp_all; sound_leaf s' Hq'.
Qed.

Lemma requestPermissions_sound r : keeps sound (requestPermissions r).
Proof.
  unfold requestPermissions. apply keeps_bind; [apply requestPermissions_call_sound|].
  intros []; [apply requestPermissions_resume_sound|apply keeps_ret].
Qed.

Lemma onMount_sound devices media data : keeps sound (onMount devices media data).
Proof.
  unfold onMount, startAudioLevelVisualization.
  apply keeps_bind; [apply keeps_read|]. intros doc.
  apply keeps_bind; [destruct doc; [apply emit_sound|apply keeps_ret]|]. intros _.
  apply keeps_bind; [apply getAudioDevices_sound|]. intros _.
  apply keeps_bind; [apply requestPermissions_sound|]. intros _.
  apply draw_sound.
Qed.

Lemma perform_sound (a : Action) : keeps sound (perform a).
Proof.
  destruct a; cbn [perform].
  - apply onMount_sound.
  - apply getAudioDevices_sound.
  - intros s Hq. wp_step.
    apply (wp_keeps sound); [apply requestPermissions_call_sound|exact Hq|].
    intros r s' Hq'. destruct r; [|exact Hq']. by wp_all.
  - intros s Hq. wp_all.
    apply (wp_keeps sound); [apply switchMicrophone_call_sound|sound_leaf s Hq|].
    intros r s' Hq'. destruct r; [|exact Hq']. by wp_all.
  - intros s Hq. wp_all; try sound_leaf s Hq.
    apply (wp_keeps sound); [apply requestPermissions_resume_sound|exact Hq|auto].
  - apply draw_sound.
  - apply frameFired_sound.
  - apply toggleAudio_sound.
  - intros s Hq. wp_all.
    apply (wp_keeps sound); [apply updateAudioDelay_sound|sound_leaf s Hq|auto].
  - apply startStream_sound.
  - apply stopStream_sound.
  - apply playSettled_sound.
  - intros s Hq. wp_all; sound_leaf s Hq.
  - intros s Hq. wp_all; sound_leaf s Hq.
  - intros s Hq. wp_all; sound_leaf s Hq.
  - apply onDestroy_sound.
Qed.

(** Every state the page can reach has valid references and at most the one
    open context [audioContext] holds. *)
Lemma reachable_sound (s : State) : Reachable s -> refs_ok s /\ ctx_inv s.
Proof.
  induction 1 as [c|s a _ IH].
  - by repeat split.
  - by apply (keeps_exec sound); [apply perform_sound|].
Qed.

(** So the page never has two contexts open. *)
Lemma reachable_one_context (s : State) :
  Reachable s -> (length (live_contexts s) <= 1)%nat.
Proof.
  intros [_ [-> _]]%reachable_sound. destruct (audioContext s); simpl; lia.
Qed.

(** ** The level display before an analyser is attached *)

(** Settle a goal [quiet s'] at the end of a run from [s]. *)
Ltac quiet_leaf s Hq :=
  unfold quiet; simp_state;
  let Hn := fresh "Hn" in
  intros Hn; try discriminate;
  let Hs := fresh "Hs" in
  assert (Hs : analyser s = None) by first [exact Hn | assumption | congruence];
  let Hm := fresh "Hm" in
  let Hc := fresh "Hc" in
  destruct (Hq Hs) as [Hm Hc];
  split;
  [ first [reflexivity | exact Hm]
  | first [exact Hc
          | let cv := fresh "cv" in intros cv [= <-]; reflexivity
          | let cv := fresh "cv" in let Hcv := fresh "Hcv" in
            intros cv Hcv; apply Hc; congruence ] ].

Lemma setupAudioPlayback_quiet (st : nat) : keeps quiet (setupAudioPlayback st).
Proof.
  intros s Hq. unfold setupAudioPlayback. wp_all; quiet_leaf s Hq.
Qed.

Lemma setupAudioAnalyser_quiet (st : nat) : keeps quiet (setupAudioAnalyser st).
Proof.
  intros s Hq. unfold setupAudioAnalyser. wp_all; quiet_leaf s Hq.
Qed.

Lemma updateAudioDelay_quiet : keeps quiet updateAudioDelay.
Proof.
  intros s Hq. unfold updateAudioDelay, buildDelayGraph. wp_all; quiet_leaf s Hq.
Qed.

Lemma toggleAudio_quiet : keeps quiet toggleAudio.
Proof.
  intros s Hq. unfold toggleAudio. wp_all; try quiet_leaf s Hq.
  apply (wp_keeps quiet); [exact updateAudioDelay_quiet|exact Hq|].
  intros r s' Hq'. destruct r; [|exact Hq']. wp_all. quiet_leaf s' Hq'.
Qed.

Lemma playSettled_quiet (i : nat) (ok : bool) : keeps quiet (playSettled i ok).
Proof.
  intros s Hq. unfold playSettled, playHandlers. wp_all; quiet_leaf s Hq.
Qed.

Lemma drawBars_analyser (height barWidth x : Q) (data : list Z) (s : State) :
  wp (drawBars height barWidth x data) s (fun _ s' => analyser s' = analyser s).
Proof.
  revert x s. induction data as [|d data IH]; intros x s; cbn [drawBars].
  - by wp_all.
  - wp_all. eapply wp_mono; [|apply IH]. simpl. intros _ s' ->. reflexivity.
Qed.

Lemma draw_quiet (data : list Z) : keeps quiet (draw data).
Proof.
  intros s Hq. unfold draw.
  destruct (canvasElement s) as [cv|] eqn:Hcv; [|wp_all; quiet_leaf s Hq].
  destruct (analyser s) as [an|] eqn:Han; [|wp_all; quiet_leaf s Hq].
  destruct (cv_has2d cv) eqn:H2d; [|wp_all; quiet_leaf s Hq].
  assert (Hsome : forall s', analyser s' = Some an -> quiet s')
    by (intros s' H; unfold quiet; rewrite H; discriminate).
  wp_all; try (apply Hsome; simp_state; assumption).
  all: eapply wp_mono; [|apply drawBars_analyser]; simpl;
       intros r s' Hs'; simp_state_in_all; destruct r;
       [|apply Hsome; congruence];
       wp_all; apply Hsome; simp_state; congruence.
Qed.

Lemma frameFired_quiet (h : nat) (data : list Z) : keeps quiet (frameFired h data).
Proof.
  intros s Hq. unfold frameFired. wp_all; try quiet_leaf s Hq.
  apply (wp_keeps quiet); [apply draw_quiet| |auto]. quiet_leaf s Hq.
Qed.

Lemma startStream_quiet : keeps quiet startStream.
Proof. intros s Hq. unfold startStream. wp_all; quiet_leaf s Hq. Qed.

Lemma stopStream_quiet : keeps quiet stopStream.
Proof.
  intros s Hq. apply wp_stopStream. unfold quiet, after_stop.
  cbn [analyser micLevel canvasElement]. intros Hn. split; [done|]. by apply Hq.
Qed.

Lemma getAudioDevices_quiet r : keeps quiet (getAudioDevices r).
Proof. intros s Hq. unfold getAudioDevices. wp_all; quiet_leaf s Hq. Qed.

Lemma requestPermissions_call_quiet : keeps quiet requestPermissions_call.
Proof.
  intros s Hq. unfold requestPermissions_call, requestPermissions_catch.
  wp_all; quiet_leaf s Hq.
Qed.

Lemma requestPermissions_resume_quiet r : keeps quiet (requestPermissions_resume r).
Proof.
  intros s Hq.
  unfold requestPermissions_resume, getUserMedia_settled, requestPermissions_catch,
    setupAudioPlayback, setupAudioAnalyser.
  wp_all; quiet_leaf s Hq.
Qed.

Lemma switchMicrophone_call_quiet : keeps quiet switchMicrophone_call.
Proof.
  intros s Hq. unfold switchMicrophone_call. wp_all; try quiet_leaf s Hq.
  apply (wp_keeps quiet); [apply stopStream_quiet|exact Hq|].
  intros r s' Hq'. destruct r; [|exact Hq'].
  apply (wp_keeps quiet); [apply requestPermissions_call_quiet|exact Hq'|auto].
Qed.

Lemma onDestroy_quiet : keeps quiet onDestroy.
Proof.
  intros s Hq. unfold onDestroy. wp_step.
  apply (wp_keeps quiet); [apply stopStream_quiet|exact Hq|].
  intros r s' Hq'. destruct r; [|exact Hq']. wp_all; quiet_leaf s' Hq'.
Qed.

Lemma emit_quiet (e : Event) : keeps quiet (emit e).
Proof. intros s Hq. wp_all. quiet_leaf s Hq. Qed.

Lemma requestPermissions_quiet r : keeps quiet (requestPermissions r).
Proof.
  unfold requestPermissions. apply keeps_bind; [apply requestPermissions_call_quiet|].
  intros []; [apply requestPermissions_resume_quiet|apply keeps_ret].
Qed.

Lemma onMount_quiet devices media data : keeps quiet (onMount devices media data).
Proof.
  unfold onMount, startAudioLevelVisualization.
  apply keeps_bind; [apply keeps_read|]. intros doc.
  apply keeps_bind; [destruct doc; [apply emit_quiet|apply keeps_ret]|]. intros _.
  apply keeps_bind; [apply getAudioDevices_quiet|]. intros _.
  apply keeps_bind; [apply requestPermissions_quiet|]. intros _.
  apply draw_quiet.
Qed.

Lemma perform_quiet (a : Action) : keeps quiet (perform a).
Proof.
  destruct a; cbn [perform].
  - apply onMount_quiet.
  - apply getAudioDevices_quiet.
  - intros s Hq. wp_step.
    apply (wp_keeps quiet); [apply requestPermissions_call_quiet|exact Hq|].
    intros r s' Hq'. destruct r; [|exact Hq']. by wp_all.
  - intros s Hq. wp_all.
    apply (wp_keeps quiet); [apply switchMicrophone_call_quiet|quiet_leaf s Hq|].
    intros r s' Hq'. destruct r; [|exact Hq']. by wp_all.
  - intros s Hq. wp_all; try quiet_leaf s Hq.
    apply (wp_keeps quiet); [apply requestPermissions_resume_quiet|exact Hq|auto].
  - apply draw_quiet.
  - apply frameFired_quiet.
  - apply toggleAudio_quiet.
  - intros s Hq. wp_all.
    apply (wp_keeps quiet); [apply updateAudioDelay_quiet|quiet_leaf s Hq|auto].
  - apply startStream_quiet.
  - apply stopStream_quiet.
  - apply playSettled_quiet.
  - intros s Hq. wp_all; quiet_leaf s Hq.
  - intros s Hq. wp_all; quiet_leaf s Hq.
  - intros s Hq. wp_all; quiet_leaf s Hq.
  - apply onDestroy_quiet.
Qed.

Lemma reachable_quiet (s : State) : Reachable s -> quiet s.
Proof.
  induction 1 as [c|s a _ IH].
  - intros _. split; [done|]. by intros cv [=].
  - by apply keeps_exec; [apply perform_quiet|].
Qed.

Lemma reachable_run (acts : list Action) (s : State) :
  Reachable s -> Reachable (run acts s).
Proof.
  revert s. induction acts as [|a acts IH]; intros s Hs; [done|].
  simpl. apply IH. by constructor.
Qed.

(** C9.  Sampling with no analyser attached.  In every state the page can
    reach in which [analyser] is unset, a refresh tick ([draw]) does not
    fail and does not change anything; the level on display is 0 and no
    frequency bar has been painted on the canvas, whatever data the audio
    hardware would deliver.  (The script builds no frame value: the frame is
    what the page shows, [micLevel] and the canvas.) *)
Theorem unattached_analyser_shows_zero_frame (s : State) (data : list Z) :
  Reachable s -> analyser s = None ->
  draw data s = (Normal tt, s) /\
  micLevel (exec (draw data) s) = 0%Q /\
  (forall cv, canvasElement (exec (draw data) s) = Some cv -> cv_painted cv = []).
Proof.
  intros Hreach Han.
  assert (Heq : draw data s = (Normal tt, s)).
  { unfold draw, bind, read. destruct (canvasElement s); [|done].
    cbv beta iota. by rewrite Han. }
  unfold exec. rewrite Heq. simpl.
  split; [done|]. by apply reachable_quiet.
Qed.

Lemma unattached_analyser_witness :
  (Reachable refused /\ analyser refused = None) /\
  micLevel (exec (draw [40; 250; 3]) refused) = 0%Q.
Proof.
  assert (H : Reachable refused /\ analyser refused = None).
  { split; [apply reachable_run, reach_init|reflexivity]. }
  split; [exact H|]. destruct H as [Hr Han].
  destruct (unattached_analyser_shows_zero_frame refused [40; 250; 3] Hr Han) as (_ & Hm & _).
  exact Hm.
Defined.

(** * Further properties of the script *)

(** ** Acquisition *)

Lemma getErrorMessage_nonempty (name : string) : getErrorMessage name <> "".
Proof.
  unfold getErrorMessage.
  destruct (String.eqb name "NotAllowedError"); [done|].
  destruct (String.eqb name "NotFoundError"); [done|].
  destruct (String.eqb name "NotReadableError"); done.
Qed.

(** X1.  A rejected request.  When [getUserMedia] rejects with error [name],
    [requestPermissions] does not throw, sets [hasPermission] to false and
    [errorMessage] to the (never empty) message for [name], and touches
    nothing else: stream, elements, promises, contexts and analyser are as
    before. *)
Theorem requestPermissions_rejected_reports_error (s : State) (name : string) :
  has_navigator (caps s) = true -> has_mediaDevices (caps s) = true ->
  let m := requestPermissions (Abrupt name) in
  completes m s = true /\
  hasPermission (exec m s) = false /\
  errorMessage (exec m s) = getErrorMessage name /\
  errorMessage (exec m s) <> "" /\
  emitted m s = acquire_calls s /\
  gumPending (exec m s) = gumPending s /\
  stream (exec m s) = stream s /\ streams (exec m s) = streams s /\
  audioElement (exec m s) = audioElement s /\ audios (exec m s) = audios s /\
  plays (exec m s) = plays s /\
  audioContext (exec m s) = audioContext s /\ contexts (exec m s) = contexts s /\
  analyser (exec m s) = analyser s /\ videoElement (exec m s) = videoElement s /\
  audioEnabled (exec m s) = audioEnabled s.
Proof.
  intros Hnav Hmd m. subst m.
  pose proof (getErrorMessage_nonempty name) as Hne.
  assert (H : wp (requestPermissions (Abrupt name)) s (fun r s' =>
    (exists u, r = Normal u) /\
    (hasPermission s' = false /\ errorMessage s' = getErrorMessage name /\
     log s' = log s ++ acquire_calls s /\ gumPending s' = gumPending s /\
     stream s' = stream s /\ streams s' = streams s /\
     audioElement s' = audioElement s /\ audios s' = audios s /\
     plays s' = plays s /\
     audioContext s' = audioContext s /\ contexts s' = contexts s /\
     analyser s' = analyser s /\ videoElement s' = videoElement s /\
     audioEnabled s' = audioEnabled s))).
  { unfold requestPermissions, requestPermissions_call, requestPermissions_resume,
      getUserMedia_settled, requestPermissions_catch, acquire_calls.
    rewrite Hnav, Hmd. wp_go. repeat split; eauto. }
  apply wp_normal in H as (Hc & Hp & He & Hlog & Hrest).
  apply emitted_app in Hlog. rewrite He.
  repeat split; try tauto; try done.
Qed.

Lemma requestPermissions_witness_rejected :
  (has_navigator (caps (init browser)) = true /\ has_mediaDevices (caps (init browser)) = true) /\
  hasPermission (exec (requestPermissions (Abrupt "NotFoundError")) (init browser)) = false.
Proof.
  assert (H : has_navigator (caps (init browser)) = true /\
              has_mediaDevices (caps (init browser)) = true) by (split; reflexivity).
  split; [exact H|]. destruct H as [Hn Hm].
  destruct (requestPermissions_rejected_reports_error (init browser) "NotFoundError" Hn Hm)
    as (_ & Hp & _).
  exact Hp.
Defined.

Lemma wp_eq {A} (m : Script A) (s s0 : State) (r0 : Completion A) :
  wp m s (fun r s' => r = r0 /\ s' = s0) -> m s = (r0, s0).
Proof. unfold wp. destruct (m s) as [r s']. simpl. by intros [-> ->]. Qed.

(** X2.  Without [navigator], [requestPermissions] does nothing at all.  With
    [navigator] but without [navigator.mediaDevices], the [TypeError] is
    caught: nothing is requested or awaited, and the page shows the generic
    error message with [hasPermission] false. *)
Theorem requestPermissions_without_media_api (s : State) (r : Completion (list TrackKind)) :
  (has_navigator (caps s) = false -> requestPermissions r s = (Normal tt, s)) /\
  (has_navigator (caps s) = true -> has_mediaDevices (caps s) = false ->
     requestPermissions r s =
       (Normal tt,
        set_hasPermission false (set_errorMessage (getErrorMessage "TypeError") s))).
Proof.
  split.
  - intros Hn. apply wp_eq. unfold requestPermissions, requestPermissions_call.
    wp_go. done.
  - intros Hn Hm. apply wp_eq.
    unfold requestPermissions, requestPermissions_call, requestPermissions_catch.
    wp_go. done.
Qed.

Ltac acq_leaf s Hinv :=
  repeat match goal with
  | H : negb _ = true |- _ => apply negb_true_iff in H
  | H : negb _ = false |- _ => apply negb_false_iff in H
  | H : context [alter _ ?n _ !! ?n] |- _ => rewrite list_lookup_alter_eq in H
  | H : audioContext s = Some ?c, H' : contexts s !! ?c = None |- _ =>
      destruct (ctx_inv_open s c Hinv H) as (? & ? & _); congruence
  | H : ?x = Some _, H' : context [?x] |- _ => rewrite H in H'
  end;
  try discriminate;
  try match goal with
      | H : audioContext s = Some _ |- _ =>
          let Hw := fresh "Hw" in pose proof (proj2 Hinv) as Hw; rewrite H in Hw
      end;
  repeat split; eauto; intros; try congruence;
  try (destruct (AudioContext_ctor (caps s)); simpl in *; congruence).

(** X3.  A granted request.  When the browser has the media API,
    [requestPermissions] never throws; it holds the new stream, whose tracks
    are all live, shows it in the video element if one is bound, and (when
    [Audio] exists) makes a new element playing that stream with its [play()]
    pending.  It reports success unless constructing the analyser's
    [AudioContext] throws: then the stream is held and playback started, but
    [hasPermission] is false and the generic error message is shown. *)
Theorem requestPermissions_granted (s : State) (kinds : list TrackKind) :
  has_navigator (caps s) = true -> has_mediaDevices (caps s) = true -> ctx_inv s ->
  let m := requestPermissions (Normal kinds) in
  let st := length (streams s) in
  completes m s = true /\
  stream (exec m s) = Some st /\
  streams (exec m s) = streams s ++ [live_tracks kinds] /\
  videoElement (exec m s) =
    (fun v => mkVideoElem (Some (RawStream st)) (v_paused v)) <$> videoElement s /\
  gumPending (exec m s) = gumPending s /\
  (has_Audio (caps s) = true ->
     audioElement (exec m s) = Some (length (audios s)) /\
     audios (exec m s) = audios s ++ [monitor_element st] /\
     last (plays (exec m s)) = Some (mkPlay (length (audios s)) FromSetup Pending)) /\
  (has_Audio (caps s) = false ->
     audioElement (exec m s) = audioElement s /\ audios (exec m s) = audios s /\
     plays (exec m s) = plays s) /\
  (AudioContext_ctor (caps s) <> CtorThrows ->
     hasPermission (exec m s) = true /\ errorMessage (exec m s) = "") /\
  (AudioContext_ctor (caps s) = CtorThrows ->
     hasPermission (exec m s) = false /\
     errorMessage (exec m s) = getErrorMessage "NotSupportedError" /\
     analyser (exec m s) = analyser s).
Proof.
  intros Hnav Hmd Hinv m st. subst m st.
  assert (H : wp (requestPermissions (Normal kinds)) s (fun r s' =>
    (exists u, r = Normal u) /\
    (stream s' = Some (length (streams s)) /\
     streams s' = streams s ++ [live_tracks kinds] /\
     videoElement s' =
       (fun v => mkVideoElem (Some (RawStream (length (streams s)))) (v_paused v))
         <$> videoElement s /\
     gumPending s' = gumPending s /\
     (has_Audio (caps s) = true ->
        audioElement s' = Some (length (audios s)) /\
        audios s' = audios s ++ [monitor_element (length (streams s))] /\
        last (plays s') = Some (mkPlay (length (audios s)) FromSetup Pending)) /\
     (has_Audio (caps s) = false ->
        audioElement s' = audioElement s /\ audios s' = audios s /\ plays s' = plays s) /\
     (AudioContext_ctor (caps s) <> CtorThrows ->
        hasPermission s' = true /\ errorMessage s' = "") /\
     (AudioContext_ctor (caps s) = CtorThrows ->
        hasPermission s' = false /\
        errorMessage s' = getErrorMessage "NotSupportedError" /\
        analyser s' = analyser s)))).
  { unfold requestPermissions, requestPermissions_call, requestPermissions_resume,
      getUserMedia_settled, requestPermissions_catch, setupAudioPlayback,
      setupAudioAnalyser, live_tracks, monitor_element.
    wp_all; acq_leaf s Hinv; apply last_snoc. }
  apply wp_normal in H as (Hc & H). tauto.
Qed.

Lemma requestPermissions_granted_witness :
  (has_navigator (caps refused) = true /\ has_mediaDevices (caps refused) = true /\
   ctx_inv refused) /\
  stream (exec (requestPermissions (Normal [AudioTrack; VideoTrack])) refused) = Some 0%nat /\
  hasPermission (exec (requestPermissions (Normal [AudioTrack; VideoTrack])) refused) = true.
Proof.
  assert (H : has_navigator (caps refused) = true /\ has_mediaDevices (caps refused) = true /\
              ctx_inv refused) by (vm_compute; done).
  split; [exact H|]. destruct H as (Hn & Hm & Hi).
  destruct (requestPermissions_granted refused [AudioTrack; VideoTrack] Hn Hm Hi)
    as (_ & Hs & _ & _ & _ & _ & _ & Hp & _).
  split; [exact Hs|]. apply Hp. vm_compute. discriminate.
Defined.

(** ** The analyser *)

Lemma setupAudioAnalyser_reuse (s : State) (st c0 : nat) (x0 : AudioCtx) :
  AudioContext_ctor (caps s) = CtorWorks ->
  audioContext s = Some c0 -> contexts s !! c0 = Some x0 ->
  wp (setupAudioAnalyser st) s (fun r s' =>
    (exists u, r = Normal u) /\
    contexts s' !! c0 = Some (with_analyser st x0) /\
    length (contexts s') = length (contexts s) /\
    analyser s' = Some (c0, S (length (ctx_nodes x0))) /\
    audioContext s' = Some c0 /\ log s' = log s).
Proof.
  intros Hc Hv Hx. unfold setupAudioAnalyser. wp_go.
  rewrite list_lookup_alter_eq, Hx. simpl. wp_go.
  rewrite !list_lookup_alter_eq, Hx, !length_alter. simpl.
  rewrite length_app, Nat.add_1_r. unfold with_analyser.
  assert (E : alter (set_fftSize 256) (S (length (ctx_nodes x0)))
                ((ctx_nodes x0 ++ [NSource st]) ++ [NAnalyser 2048])
              = ctx_nodes x0 ++ [NSource st; NAnalyser 256]).
  { replace (S (length (ctx_nodes x0))) with (length (ctx_nodes x0 ++ [NSource st]))
      by (rewrite length_app; simpl; lia).
    by rewrite alter_fresh, <- app_assoc. }
  rewrite E. repeat split; eauto.
Qed.

Lemma setupAudioAnalyser_fresh (s : State) (st : nat) :
  AudioContext_ctor (caps s) = CtorWorks -> audioContext s = None ->
  wp (setupAudioAnalyser st) s (fun r s' =>
    (exists u, r = Normal u) /\
    contexts s' = contexts s ++ [with_analyser st fresh_ctx] /\
    analyser s' = Some (length (contexts s), 1%nat) /\
    audioContext s' = Some (length (contexts s)) /\
    log s' = log s ++ [EvCtxNew (length (contexts s))]).
Proof.
  intros Hc Hv. unfold setupAudioAnalyser. wp_go.
  repeat split; eauto.
Qed.

Lemma feeds_with_analyser (st : nat) (x : AudioCtx) :
  feeds_analyser (with_analyser st x) st (S (length (ctx_nodes x))).
Proof.
  unfold feeds_analyser, with_analyser. simpl. split.
  - replace (S (length (ctx_nodes x))) with (length (ctx_nodes x) + 1)%nat by lia.
    by rewrite lookup_app_r, Nat.add_comm, Nat.add_sub by lia.
  - exists (length (ctx_nodes x)). split.
    + by rewrite list_lookup_middle.
    + apply elem_of_app. right. by left.
Qed.

Lemma frequencyBinCount_with_analyser (s : State) (c n : nat) (x : AudioCtx) :
  contexts s !! c = Some x -> ctx_nodes x !! n = Some (NAnalyser 256) ->
  frequencyBinCount (c, n) s = (Normal 128%nat, s).
Proof. intros Hx Hn. unfold frequencyBinCount. simpl. by rewrite Hx, Hn. Qed.

(** X4.  [setupAudioAnalyser] does nothing when [AudioContext] is undefined.
    Otherwise it never throws and closes nothing; it reuses the context
    [audioContext] holds (creating none) or creates and keeps one; and
    [analyser] is then a node with [fftSize] 256, 128 bins, fed by a source on
    the given stream. *)
Theorem setupAudioAnalyser_attaches (s : State) (st : nat) :
  (AudioContext_ctor (caps s) = CtorUndefined ->
     setupAudioAnalyser st s = (Normal tt, s)) /\
  (AudioContext_ctor (caps s) = CtorWorks -> ctx_inv s ->
     let s' := exec (setupAudioAnalyser st) s in
     completes (setupAudioAnalyser st) s = true /\
     count_closes (emitted (setupAudioAnalyser st) s) = 0%nat /\
     (forall c0, audioContext s = Some c0 ->
        audioContext s' = Some c0 /\ length (contexts s') = length (contexts s)) /\
     exists c n x,
       analyser s' = Some (c, n) /\ audioContext s' = Some c /\
       contexts s' !! c = Some x /\ ctx_state x = Running /\
       feeds_analyser x st n /\
       frequencyBinCount (c, n) s' = (Normal 128%nat, s')).
Proof.
  split.
  - intros Hc. apply wp_eq. unfold setupAudioAnalyser. wp_go. done.
  - intros Hc Hinv s'. subst s'.
    destruct (audioContext s) as [c0|] eqn:Hv.
    + destruct (ctx_inv_open s c0 Hinv Hv) as (x0 & Hx & Hrun).
      destruct (wp_normal _ _ _ (setupAudioAnalyser_reuse s st c0 x0 Hc Hv Hx))
        as (Hcomp & Hl & Hlen & Han & Hv' & Hlog).
      split; [exact Hcomp|]. split; [by rewrite (emitted_nil _ _ Hlog)|].
      split; [by intros c [= <-]|].
      exists c0, (S (length (ctx_nodes x0))), (with_analyser st x0).
      pose proof (feeds_with_analyser st x0) as Hf.
      repeat split; try done; try apply Hf.
      eapply frequencyBinCount_with_analyser; [exact Hl|apply Hf].
    + destruct (wp_normal _ _ _ (setupAudioAnalyser_fresh s st Hc Hv))
        as (Hcomp & Hctx & Han & Hv' & Hlog).
      split; [exact Hcomp|]. split; [by rewrite (emitted_app _ _ _ Hlog)|].
      split; [done|].
      exists (length (contexts s)), 1%nat, (with_analyser st fresh_ctx).
      pose proof (feeds_with_analyser st fresh_ctx) as Hf.
      assert (Hl : contexts (exec (setupAudioAnalyser st) s) !! length (contexts s)
                   = Some (with_analyser st fresh_ctx))
        by (rewrite Hctx; apply lookup_fresh).
      repeat split; try done; try apply Hf.
      eapply frequencyBinCount_with_analyser; [exact Hl|apply Hf].
Qed.

Lemma setupAudioAnalyser_witness :
  (AudioContext_ctor (caps monitoring) = CtorWorks /\ ctx_inv monitoring) /\
  completes (setupAudioAnalyser 0) monitoring = true.
Proof.
  assert (H : AudioContext_ctor (caps monitoring) = CtorWorks /\ ctx_inv monitoring)
    by (vm_compute; done).
  split; [exact H|]. destruct H as [Hc Hi].
  destruct (setupAudioAnalyser_attaches monitoring 0) as [_ Hw].
  destruct (Hw Hc Hi) as (Hcomp & _). exact Hcomp.
Defined.

(** ** Listing the microphones *)

Lemma getAudioDevices_listed (s : State) (devices : list MediaDeviceInfo) :
  has_navigator (caps s) = true -> has_mediaDevices (caps s) = true ->
  wp (getAudioDevices (Normal devices)) s (fun r s' =>
    (exists u, r = Normal u) /\
    availableMics s' = filter (fun d => kind d = "audioinput") devices /\
    selectedMicId s' =
      default_microphone (selectedMicId s)
        (filter (fun d => kind d = "audioinput") devices) /\
    log s' = log s ++ [EvEnumerateDevices]).
Proof.
  intros Hn Hm. unfold getAudioDevices, default_microphone. wp_go.
  destruct (filter _ devices) as [|m mics]; wp_go; [eauto|].
  destruct (String.eqb (selectedMicId s) ""); wp_go; eauto.
Qed.

Lemma getAudioDevices_unlisted (s : State) (r : Completion (list MediaDeviceInfo)) :
  has_navigator (caps s) = false \/ has_mediaDevices (caps s) = false \/
  (exists e, r = Abrupt e) ->
  wp (getAudioDevices r) s (fun r s' =>
    (exists u, r = Normal u) /\ availableMics s' = availableMics s /\
    selectedMicId s' = selectedMicId s).
Proof.
  intros H. unfold getAudioDevices.
  destruct (has_navigator (caps s)) eqn:Hn; [|wp_go; eauto].
  destruct (has_mediaDevices (caps s)) eqn:Hm; [|wp_go; eauto].
  destruct H as [H|[H|[e ->]]]; try discriminate. wp_go. eauto.
Qed.

Lemma default_microphone_stable (sel : string) (mics : list MediaDeviceInfo) :
  default_microphone (default_microphone sel mics) mics = default_microphone sel mics.
Proof.
  unfold default_microphone. destruct mics as [|m mics]; [done|].
  destruct (String.eqb sel "") eqn:E; [|by rewrite E].
  by destruct (String.eqb (deviceId m) "") eqn:E'.
Qed.

(** X5.  [getAudioDevices] never throws.  Without the API, or when
    [enumerateDevices] rejects, the list and the selection are unchanged.
    Otherwise the list is exactly the audio inputs, in order; a selection made
    before is kept (also when that device is no longer listed); with no
    selection the first listed microphone is selected; and listing the same
    devices again changes neither. *)
Theorem getAudioDevices_selects_microphone (s : State)
    (r : Completion (list MediaDeviceInfo)) :
  let m := getAudioDevices r in
  completes m s = true /\
  (has_navigator (caps s) = false \/ has_mediaDevices (caps s) = false \/
   (exists e, r = Abrupt e) ->
     availableMics (exec m s) = availableMics s /\
     selectedMicId (exec m s) = selectedMicId s) /\
  (forall devices,
     has_navigator (caps s) = true -> has_mediaDevices (caps s) = true ->
     r = Normal devices ->
     availableMics (exec m s) = filter is_microphone devices /\
     Forall is_microphone (availableMics (exec m s)) /\
     (selectedMicId s <> "" -> selectedMicId (exec m s) = selectedMicId s) /\
     (selectedMicId s = "" ->
        selectedMicId (exec m s) = default "" (deviceId <$> head (availableMics (exec m s)))) /\
     availableMics (exec m (exec m s)) = availableMics (exec m s) /\
     selectedMicId (exec m (exec m s)) = selectedMicId (exec m s)).
Proof.
  intros m. subst m.
  assert (Hc : completes (getAudioDevices r) s = true).
  { apply (wp_normal (getAudioDevices r) s (fun _ => True)).
    unfold getAudioDevices. wp_all; eauto. }
  split; [exact Hc|]. split.
  - intros H. by destruct (wp_normal _ _ _ (getAudioDevices_unlisted s r H)) as (_ & ? & ?).
  - intros devices Hn Hm ->.
    destruct (wp_normal _ _ _ (getAudioDevices_listed s devices Hn Hm))
      as (_ & Hmics & Hsel & Hlog).
    set (s1 := exec (getAudioDevices (Normal devices)) s) in *.
    assert (Hcaps : caps s1 = caps s).
    { subst s1. apply (wp_exec (getAudioDevices (Normal devices)) s (fun _ s' => caps s' = caps s)).
      unfold getAudioDevices. wp_all; reflexivity. }
    destruct (wp_normal _ _ _ (getAudioDevices_listed s1 devices
                ltac:(by rewrite Hcaps) ltac:(by rewrite Hcaps)))
      as (_ & Hmics2 & Hsel2 & _).
    unfold is_microphone. rewrite Hmics. repeat split.
    + apply Forall_forall. intros d Hd. by apply list_elem_of_filter in Hd as [? _].
    + intros Hne. rewrite Hsel. unfold default_microphone.
      destruct (filter _ devices); [done|].
      destruct (String.eqb (selectedMicId s) "") eqn:E; [|done].
      by apply String.eqb_eq in E.
    + intros He. rewrite Hsel, He. unfold default_microphone.
      by destruct (filter _ devices).
    + by rewrite Hmics2.
    + by rewrite Hsel2, Hsel, default_microphone_stable.
Qed.

Lemma getAudioDevices_witness :
  (has_navigator (caps (init browser)) = true /\
   has_mediaDevices (caps (init browser)) = true) /\
  selectedMicId (exec (getAudioDevices (Normal two_mics)) (init browser)) = "mic-a".
Proof.
  assert (H : has_navigator (caps (init browser)) = true /\
              has_mediaDevices (caps (init browser)) = true) by (split; reflexivity).
  split; [exact H|]. destruct H as [Hn Hm].
  destruct (getAudioDevices_selects_microphone (init browser) (Normal two_mics))
    as (_ & _ & Hl).
  destruct (Hl two_mics Hn Hm eq_refl) as (_ & _ & _ & Hsel & _).
  rewrite (Hsel eq_refl). vm_compute. reflexivity.
Defined.

(** ** The level display *)

Lemma byteFrequencyData_bytes (n : nat) (data : list Z) :
  Forall is_byte (byteFrequencyData n data).
Proof.
  unfold byteFrequencyData. apply Forall_fmap, Forall_true. intros i. unfold is_byte. simpl.
  pose proof (Z.mod_pos_bound (nth i data 0) 256). lia.
Qed.

Lemma length_byteFrequencyData (n : nat) (data : list Z) :
  length (byteFrequencyData n data) = n.
Proof. unfold byteFrequencyData. by rewrite length_fmap, length_seq. Qed.

Lemma foldl_add_shift (l : list Z) (a : Z) : foldl Z.add a l = a + foldl Z.add 0 l.
Proof.
  revert a. induction l as [|d l IH]; intros a; simpl; [lia|].
  rewrite (IH (a + d)), (IH (0 + d)). lia.
Qed.

Lemma sum_bytes (l : list Z) :
  Forall is_byte l -> 0 <= foldl Z.add 0 l <= 255 * Z.of_nat (length l).
Proof.
  induction 1 as [|d l Hd _ IH]; simpl; [lia|].
  rewrite foldl_add_shift. unfold is_byte in Hd. lia.
Qed.

Lemma painted_by_nil (s : State) : painted_by [] s = s.
Proof.
  unfold painted_by. destruct s as [? ? ? ? ? ? ? ? ? ? ? ? ? ? ? ? ? ? ? ? ? cv ? ?].
  destruct cv as [[]|]; cbn; [|done]. by rewrite app_nil_r.
Qed.

Lemma painted_by_app (ps qs : list Paint) (s : State) :
  painted_by qs (painted_by ps s) = painted_by (ps ++ qs) s.
Proof.
  unfold painted_by. destruct s as [? ? ? ? ? ? ? ? ? ? ? ? ? ? ? ? ? ? ? ? ? cv ? ?].
  destruct cv as [[]|]; cbn; [|done]. by rewrite app_assoc.
Qed.

Lemma paint_eq (p : Paint) (s : State) : paint p s = (Normal tt, painted_by [p] s).
Proof. reflexivity. Qed.

Lemma drawBars_eq (height barWidth x : Q) (dataArray : list Z) (s : State) :
  drawBars height barWidth x dataArray s
  = (Normal tt, painted_by (bars height barWidth x dataArray) s).
Proof.
  revert x s. induction dataArray as [|d rest IH]; intros x s; simpl.
  - unfold ret. by rewrite painted_by_nil.
  - unfold bind. rewrite paint_eq, IH, painted_by_app. reflexivity.
Qed.

Lemma wp_drawBars (height barWidth x : Q) (dataArray : list Z) (s : State)
    (Q : Completion unit -> State -> Prop) :
  Q (Normal tt) (painted_by (bars height barWidth x dataArray) s) ->
  wp (drawBars height barWidth x dataArray) s Q.
Proof. unfold wp. by rewrite drawBars_eq. Qed.

Lemma draw_attached (s : State) (data : list Z) (cv : Canvas) (an : nat * nat)
    (x : AudioCtx) (fft : Z) :
  canvasElement s = Some cv -> cv_has2d cv = true ->
  analyser s = Some an -> contexts s !! an.1 = Some x ->
  ctx_nodes x !! an.2 = Some (NAnalyser fft) ->
  let dataArray := byteFrequencyData (Z.to_nat (fft / 2)) data in
  let raf := has_requestAnimationFrame (caps s) in
  wp (draw data) s (fun r s' =>
    (exists u, r = Normal u) /\
    canvasElement s' =
      Some (mkCanvas (cv_width cv) (cv_height cv) (cv_has2d cv)
              (cv_painted cv ++ frame_paints cv dataArray)) /\
    micLevel s' = level_of dataArray /\
    rafPending s' = rafPending s ++ (if raf then [rafNext s] else []) /\
    animationFrame s' = (if raf then Some (rafNext s) else animationFrame s) /\
    log s' = log s ++ (if raf then [EvRequestFrame (rafNext s)] else [])).
Proof.
  intros Hcv H2d Han Hx Hn dataArray raf. subst dataArray raf.
  unfold draw, frame_paints, level_of. rewrite length_byteFrequencyData.
  wp_go. apply wp_drawBars. unfold painted_by. simp_state. rewrite Hcv. simpl.
  wp_go. destruct (has_requestAnimationFrame (caps s)); wp_go;
    rewrite <- ?app_assoc, ?app_nil_r; simpl; rewrite ?H2d; repeat split; eauto.
Qed.

Lemma level_of_bounds (l : list Z) :
  Forall is_byte l -> l <> [] -> (0 <= level_of l /\ level_of l <= 1)%Q.
Proof.
  intros Hb Hne. pose proof (sum_bytes l Hb) as [Hlo Hhi].
  assert (Hn : 0 < Z.of_nat (length l)) by (destruct l; [done|simpl; lia]).
  unfold level_of.
  set (S := foldl Z.add 0 l) in *. set (N := Z.of_nat (length l)) in *.
  assert (HN : (0 < inject_Z N)%Q) by (unfold Qlt; simpl; lia).
  assert (HS : (0 <= inject_Z S)%Q) by (unfold Qle; simpl; lia).
  assert (HS' : (inject_Z S <= 255 * inject_Z N)%Q).
  { unfold Qle; simpl; lia. }
  split.
  - apply Qle_shift_div_l; [reflexivity|]. apply Qle_shift_div_l; [exact HN|].
    lra.
  - apply Qle_shift_div_r; [reflexivity|]. apply Qle_shift_div_r; [exact HN|].
    lra.
Qed.

(** X6.  While an analyser is attached, a refresh writes a level between 0 and
    1, paints the background and one bar per frequency bin, and asks for
    exactly one further frame. *)
Theorem draw_writes_level (s : State) (data : list Z) (cv : Canvas) (an : nat * nat)
    (x : AudioCtx) (fft : Z) :
  canvasElement s = Some cv -> cv_has2d cv = true ->
  analyser s = Some an -> contexts s !! an.1 = Some x ->
  ctx_nodes x !! an.2 = Some (NAnalyser fft) -> 2 <= fft ->
  let s' := exec (draw data) s in
  completes (draw data) s = true /\
  (0 <= micLevel s' /\ micLevel s' <= 1)%Q /\
  (exists cv', canvasElement s' = Some cv' /\
     cv_width cv' = cv_width cv /\ cv_height cv' = cv_height cv /\
     length (cv_painted cv') = (length (cv_painted cv) + 1 + Z.to_nat (fft / 2))%nat) /\
  (has_requestAnimationFrame (caps s) = true ->
     rafPending s' = rafPending s ++ [rafNext s] /\
     animationFrame s' = Some (rafNext s) /\
     emitted (draw data) s = [EvRequestFrame (rafNext s)]) /\
  (has_requestAnimationFrame (caps s) = false ->
     rafPending s' = rafPending s /\ animationFrame s' = animationFrame s /\
     emitted (draw data) s = []).
Proof.
  intros Hcv H2d Han Hx Hn Hfft s'. subst s'.
  pose proof (draw_attached s data cv an x fft Hcv H2d Han Hx Hn) as H.
  cbv zeta in H. apply wp_normal in H as (Hc & Hcv' & Hlev & Hraf & Hfr & Hlog).
  apply emitted_app in Hlog.
  assert (Hpos : (0 < Z.to_nat (fft / 2))%nat).
  { assert (1 <= fft / 2) by (apply Z.div_le_lower_bound; lia). lia. }
  split; [exact Hc|]. split; [|split; [|split]].
  - rewrite Hlev. apply level_of_bounds; [apply byteFrequencyData_bytes|].
    intros E. apply (f_equal length) in E. rewrite length_byteFrequencyData in E.
    simpl in E. lia.
  - eexists. split; [exact Hcv'|]. simpl. repeat split.
    rewrite length_app. unfold frame_paints. simpl.
    assert (Hb : forall h w x0 l, length (bars h w x0 l) = length l).
    { intros h w x0 l. revert x0. induction l; intros x0; simpl; [done|]. by rewrite IHl. }
    rewrite Hb, length_byteFrequencyData. lia.
  - intros E. rewrite E in *. done.
  - intros E. rewrite E in *. rewrite app_nil_r in Hraf. done.
Qed.







Lemma draw_level_witness :
  (analyser monitoring = Some (0%nat, 1%nat) /\
   contexts monitoring !! 0%nat = Some (with_analyser 0 fresh_ctx)) /\
  (0 <= micLevel (exec (draw [255; 255; 255]%Z) monitoring))%Q /\
  (micLevel (exec (draw [255; 255; 255]%Z) monitoring) <= 1)%Q.
Proof.
  assert (H : analyser monitoring = Some (0%nat, 1%nat) /\
              contexts monitoring !! 0%nat = Some (with_analyser 0 fresh_ctx))
    by (vm_compute; done).
  split; [exact H|]. destruct H as [Han Hx].
  assert (Hcv : canvasElement monitoring =
                Some (mkCanvas 300 100 true
                        (cv_painted (default (mkCanvas 0 0 true []) (canvasElement monitoring)))))
    by (vm_compute; reflexivity).
  assert (Hn : ctx_nodes (with_analyser 0 fresh_ctx) !! (0%nat, 1%nat).2
               = Some (NAnalyser 256)) by reflexivity.
  destruct (draw_writes_level monitoring [255; 255; 255] _ _ _ 256 Hcv eq_refl Han Hx Hn
              ltac:(lia)) as (_ & Hl & _).
  exact Hl.
Defined.


(** ** The refresh loop *)

Ltac idle_leaf s Hidle :=
  unfold idle_display; simp_state;
  rewrite ?(proj1 Hidle); try (split; [reflexivity|]); try exact (proj2 Hidle);
  try reflexivity; try exact Hidle.

Lemma setupAudioPlayback_idle (st : nat) : keeps idle_display (setupAudioPlayback st).
Proof. intros s Hq. unfold setupAudioPlayback. wp_all; idle_leaf s Hq. Qed.

Lemma setupAudioAnalyser_idle (st : nat) : keeps idle_display (setupAudioAnalyser st).
Proof. intros s Hq. unfold setupAudioAnalyser. wp_all; idle_leaf s Hq. Qed.

Lemma updateAudioDelay_idle_display : keeps idle_display updateAudioDelay.
Proof. intros s Hq. unfold updateAudioDelay, buildDelayGraph. wp_all; idle_leaf s Hq. Qed.

Lemma toggleAudio_idle : keeps idle_display toggleAudio.
Proof.
  intros s Hq. unfold toggleAudio. wp_all; try idle_leaf s Hq.
  apply (wp_keeps idle_display); [exact updateAudioDelay_idle_display|exact Hq|].
  intros r s' Hq'. destruct r; [|exact Hq']. wp_all. idle_leaf s' Hq'.
Qed.

Lemma playSettled_idle (i : nat) (ok : bool) : keeps idle_display (playSettled i ok).
Proof. intros s Hq. unfold playSettled, playHandlers. wp_all; idle_leaf s Hq. Qed.

Lemma frameFired_idle (h : nat) (data : list Z) : keeps idle_display (frameFired h data).
Proof.
  intros s Hq. unfold frameFired. wp_go. rewrite (proj1 Hq).
  rewrite bool_decide_eq_false_2 by apply not_elem_of_nil. wp_go. exact Hq.
Qed.

Lemma startStream_idle : keeps idle_display startStream.
Proof. intros s Hq. unfold startStream. wp_all; idle_leaf s Hq. Qed.

Lemma stopStream_idle : keeps idle_display stopStream.
Proof.
  intros s Hq. apply wp_stopStream. unfold idle_display, after_stop.
  cbn [rafPending micLevel]. split; [apply Hq|done].
Qed.

Lemma getAudioDevices_idle r : keeps idle_display (getAudioDevices r).
Proof. intros s Hq. unfold getAudioDevices. wp_all; idle_leaf s Hq. Qed.

Lemma requestPermissions_call_idle : keeps idle_display requestPermissions_call.
Proof.
  intros s Hq. unfold requestPermissions_call, requestPermissions_catch.
  wp_all; idle_leaf s Hq.
Qed.

Lemma requestPermissions_resume_idle r : keeps idle_display (requestPermissions_resume r).
Proof.
  intros s Hq.
  unfold requestPermissions_resume, getUserMedia_settled, requestPermissions_catch,
    setupAudioPlayback, setupAudioAnalyser.
  wp_all; idle_leaf s Hq.
Qed.

Lemma switchMicrophone_call_idle : keeps idle_display switchMicrophone_call.
Proof.
  intros s Hq. unfold switchMicrophone_call. wp_all; try idle_leaf s Hq.
  apply (wp_keeps idle_display); [apply stopStream_idle|exact Hq|].
  intros r s' Hq'. destruct r; [|exact Hq'].
  apply (wp_keeps idle_display); [apply requestPermissions_call_idle|exact Hq'|auto].
Qed.

Lemma onDestroy_idle : keeps idle_display onDestroy.
Proof.
  intros s Hq. unfold onDestroy. wp_step.
  apply (wp_keeps idle_display); [apply stopStream_idle|exact Hq|].
  intros r s' Hq'. destruct r; [|exact Hq']. wp_all; idle_leaf s' Hq'.
Qed.

Lemma perform_idle (a : Action) : starts_display a = false -> keeps idle_display (perform a).
Proof.
  intros Ha. destruct a; try discriminate; cbn [perform].
  - apply getAudioDevices_idle.
  - intros s Hq. wp_step.
    apply (wp_keeps idle_display); [apply requestPermissions_call_idle|exact Hq|].
    intros r s' Hq'. destruct r; [|exact Hq']. by wp_all.
  - intros s Hq. wp_all.
    apply (wp_keeps idle_display); [apply switchMicrophone_call_idle|idle_leaf s Hq|].
    intros r s' Hq'. destruct r; [|exact Hq']. by wp_all.
  - intros s Hq. wp_all; try idle_leaf s Hq.
    apply (wp_keeps idle_display); [apply requestPermissions_resume_idle|exact Hq|auto].
  - apply frameFired_idle.
  - apply toggleAudio_idle.
  - intros s Hq. wp_all.
    apply (wp_keeps idle_display); [apply updateAudioDelay_idle_display|idle_leaf s Hq|auto].
  - apply startStream_idle.
  - apply stopStream_idle.
  - apply playSettled_idle.
  - intros s Hq. wp_all; idle_leaf s Hq.
  - intros s Hq. wp_all; idle_leaf s Hq.
  - intros s Hq. wp_all; idle_leaf s Hq.
  - apply onDestroy_idle.
Qed.

Lemma run_idle (acts : list Action) (s : State) :
  Forall (fun a => starts_display a = false) acts ->
  idle_display s -> idle_display (run acts s).
Proof.
  intros Hacts. revert s. induction Hacts as [|a acts Ha _ IH]; intros s Hs; [done|].
  simpl. apply IH. by apply (keeps_exec idle_display); [apply perform_idle|].
Qed.

Lemma onMount_refused_idle (s : State) devices name data :
  idle_display s -> analyser s = None ->
  idle_display (exec (onMount devices (Abrupt name) data) s).
Proof.
  intros Hq Han.
  apply (wp_exec (onMount devices (Abrupt name) data) s (fun _ s' => idle_display s')).
  unfold onMount, startAudioLevelVisualization, getAudioDevices, requestPermissions,
    requestPermissions_call, requestPermissions_resume, getUserMedia_settled,
    requestPermissions_catch, draw.
  wp_all; idle_leaf s Hq.
Qed.

(** X8.  When access was refused at mount, the display loop is never started:
    whatever happens afterwards, short of mounting again, no frame is ever
    scheduled and the level stays 0, also once access has been granted. *)
Theorem display_not_started_after_refusal (s : State)
    (devices : Completion (list MediaDeviceInfo)) (name : string) (data : list Z)
    (acts : list Action) :
  rafPending s = [] -> micLevel s = 0%Q -> analyser s = None ->
  Forall (fun a => starts_display a = false) acts ->
  let s' := run acts (exec (onMount devices (Abrupt name) data) s) in
  rafPending s' = [] /\ micLevel s' = 0%Q.
Proof.
  intros Hr Hm Han Hacts s'. subst s'.
  apply run_idle; [exact Hacts|]. by apply onMount_refused_idle.
Qed.

Lemma display_not_started_witness :
  let s0 := exec (perform (CanvasBound 300 100 true)) (init browser) in
  let s' := run granted_later (exec (onMount (Normal two_mics) (Abrupt "NotAllowedError") []) s0) in
  (rafPending s0 = [] /\ micLevel s0 = 0%Q /\ analyser s0 = None /\
   Forall (fun a => starts_display a = false) granted_later) /\
  hasPermission s' = true /\ analyser s' = Some (0%nat, 1%nat) /\
  rafPending s' = [] /\ micLevel s' = 0%Q.
Proof.
  intros s0 s'.
  assert (H : rafPending s0 = [] /\ micLevel s0 = 0%Q /\ analyser s0 = None /\
              Forall (fun a => starts_display a = false) granted_later).
  { repeat split. unfold granted_later. repeat constructor. }
  split; [exact H|]. destruct H as (Hr & Hm & Han & Hacts).
  split; [vm_compute; reflexivity|]. split; [vm_compute; reflexivity|].
  exact (display_not_started_after_refusal s0 (Normal two_mics) "NotAllowedError" []
           granted_later Hr Hm Han Hacts).
Defined.

Lemma draw_adds_one_frame (data : list Z) (s : State) :
  wp (draw data) s (fun _ s' =>
    (length (rafPending s') <= S (length (rafPending s)))%nat).
Proof.
  unfold draw. wp_all; try lia.
  all: apply wp_drawBars; unfold painted_by; simp_state; wp_all;
       rewrite ?length_app; simpl; lia.
Qed.

(** X9.  A refresh callback never multiplies the loop: after it has run, no
    more frames are scheduled than before. *)
Theorem frameFired_keeps_one_loop (s : State) (h : nat) (data : list Z) :
  (length (rafPending (exec (frameFired h data) s)) <= length (rafPending s))%nat /\
  (h ∉ rafPending s -> frameFired h data s = (Normal tt, s)).
Proof.
  split.
  - apply (wp_exec (frameFired h data) s
             (fun _ s' => (length (rafPending s') <= length (rafPending s))%nat)).
    unfold frameFired. wp_go.
    destruct (bool_decide (h ∈ rafPending s)) eqn:E; wp_go; [|lia].
    apply bool_decide_eq_true_1 in E.
    eapply wp_mono; [|apply draw_adds_one_frame]. simpl. intros _ s' Hle.
    simp_state_in_all.
    assert (Hlt : (length (filter (fun x => x ≠ h) (rafPending s)) < length (rafPending s))%nat).
    { clear Hle. induction (rafPending s) as [|y l IH]; [by apply elem_of_nil in E|].
      destruct (decide (y = h)) as [->|Hne].
      - rewrite filter_cons_False by (intros Hh; by apply Hh).
        pose proof (length_filter (fun x => x ≠ h) l). simpl. lia.
      - rewrite filter_cons_True by done. simpl.
        apply elem_of_cons in E as [E|E]; [congruence|]. specialize (IH E). lia. }
    lia.
  - intros Hn. apply wp_eq. unfold frameFired. wp_go.
    rewrite bool_decide_eq_false_2 by exact Hn. by wp_go.
Qed.

(** ** Starting and stopping the mirror *)

Lemma startStream_wp (s : State) (st : nat) (v : VideoElem) :
  stream s = Some st -> videoElement s = Some v ->
  wp startStream s (fun r s' =>
    (exists u, r = Normal u) /\
    isStreaming s' = true /\
    videoElement s' = Some (mkVideoElem (Some (RawStream st)) false) /\
    streams s' = streams s /\ stream s' = stream s /\
    log s' = log s ++ [EvVideoSetSrc (Some (RawStream st)); EvVideoPlay]).
Proof.
  intros Hst Hv. unfold startStream. wp_go. rewrite Hv. simpl.
  rewrite <- ?app_assoc. repeat split; eauto.
Qed.

(** X10.  [startStream] shows whatever [stream] holds and acquires nothing:
    after [stopStream] that is the stream whose tracks have all ended. *)
Theorem startStream_after_stop_shows_ended_stream (s : State) (st : nat) (v : VideoElem) :
  stream s = Some st -> videoElement s = Some v ->
  let stopped_state := exec stopStream s in
  let s' := exec startStream stopped_state in
  completes startStream stopped_state = true /\
  isStreaming s' = true /\
  videoElement s' = Some (mkVideoElem (Some (RawStream st)) false) /\
  all_ended (default [] (streams s' !! st)) /\
  emitted startStream stopped_state = [EvVideoSetSrc (Some (RawStream st)); EvVideoPlay].
Proof.
  intros Hst Hv stopped_state s'. subst stopped_state s'.
  rewrite stopStream_exec.
  assert (Hst' : stream (after_stop s) = Some st) by exact Hst.
  assert (Hv' : videoElement (after_stop s) = Some (mkVideoElem None true))
    by (unfold after_stop; cbn [videoElement]; by rewrite Hv).
  destruct (wp_normal _ _ _ (startStream_wp (after_stop s) st _ Hst' Hv'))
    as (Hc & Hi & Hvid & Hstr & _ & Hlog).
  apply emitted_app in Hlog.
  repeat split; try done.
  rewrite Hstr. unfold after_stop. cbn [streams]. rewrite Hst.
  rewrite list_lookup_alter_eq. unfold all_ended.
  match goal with |- context [_ <$> ?o] => destruct o as [tr|] end; simpl; [|constructor].
  apply Forall_fmap, Forall_true. done.
Qed.

(** X11.  Without a stream or without the video element [startStream] does
    nothing. *)
Theorem startStream_needs_stream_and_video (s : State) :
  stream s = None \/ videoElement s = None -> startStream s = (Normal tt, s).
Proof.
  intros H. apply wp_eq. unfold startStream. wp_go.
  destruct H as [H|H]; rewrite H; [by wp_go|]. destruct (stream s); by wp_go.
Qed.

Lemma startStream_witness :
  (stream monitoring = Some 0%nat /\
   videoElement monitoring = Some (mkVideoElem None true)) /\
  isStreaming (exec startStream (exec stopStream monitoring)) = true /\
  all_ended (default [] (streams (exec startStream (exec stopStream monitoring)) !! 0%nat)).
Proof.
  assert (H : stream monitoring = Some 0%nat /\
              videoElement monitoring = Some (mkVideoElem None true))
    by (vm_compute; done).
  split; [exact H|]. destruct H as [Hst Hv].
  destruct (startStream_after_stop_shows_ended_stream monitoring 0 _ Hst Hv)
    as (_ & Hi & _ & He & _).
  split; [exact Hi|exact He].
Defined.

(** ** Switching monitoring off and on *)

Lemma toggleAudio_off_wp (s : State) (a st : nat) :
  audioElement s = Some a -> stream s = Some st -> audioEnabled s = true ->
  wp toggleAudio s (fun r s' =>
    (exists u, r = Normal u) /\
    audioEnabled s' = false /\
    audios s' = reloaded None a (audios s) /\
    plays s' = abort_play a <$> (abort_play a <$> plays s) /\
    contexts s' = contexts s /\ audioContext s' = audioContext s /\
    streams s' = streams s /\ stream s' = stream s /\ analyser s' = analyser s /\
    log s' = log s ++ [EvAudioPause a; EvAudioSeek a; EvAudioSetSrc a None]).
Proof.
  intros Ha Hst Hen. unfold toggleAudio, reloaded. wp_go.
  rewrite <- ?app_assoc. repeat split; eauto.
Qed.

Lemma filter_active_stopped (l : list AudioElem) (a : nat) (e : AudioElem) :
  l !! a = Some e ->
  filter (fun e => is_active e = true)
    (alter (fun e => with_src None (with_currentTime 0%Q (with_paused true e))) a l)
  = filter (fun e => is_active e = true) (delete a l).
Proof.
  revert a. induction l as [|y l IH]; intros a Hea; [done|].
  destruct a as [|a].
  - change (filter (fun e => is_active e = true)
              (with_src None (with_currentTime 0%Q (with_paused true y)) :: l)
            = filter (fun e => is_active e = true) l).
    by rewrite filter_cons_False.
  - change (filter (fun e => is_active e = true)
              (y :: alter (fun e => with_src None (with_currentTime 0%Q (with_paused true e))) a l)
            = filter (fun e => is_active e = true) (y :: delete a l)).
    rewrite !filter_cons, (IH a Hea). done.
Qed.

(** X12.  Switching monitoring off stops the element but releases nothing
    else: the delay graph's context stays open and the capture tracks stay
    live. *)
Theorem toggleAudio_off_keeps_graph (s : State) (a st : nat) :
  audioElement s = Some a -> stream s = Some st -> audioEnabled s = true ->
  (a < length (audios s))%nat ->
  let s' := exec toggleAudio s in
  completes toggleAudio s = true /\
  audioEnabled s' = false /\
  (exists e, audios s' !! a = Some e /\ element_stopped e = true) /\
  none_pending a (plays s') = true /\
  active_playbacks s' = length (filter (fun e => is_active e = true)
                                  (delete a (audios s))) /\
  live_contexts s' = live_contexts s /\ audioContext s' = audioContext s /\
  streams s' = streams s /\
  emitted toggleAudio s = [EvAudioPause a; EvAudioSeek a; EvAudioSetSrc a None].
Proof.
  intros Ha Hst Hen Hlt s'. subst s'.
  destruct (wp_normal _ _ _ (toggleAudio_off_wp s a st Ha Hst Hen))
    as (Hc & He & Haud & Hpl & Hctx & Hv & Hstr & _ & _ & Hlog).
  apply emitted_app in Hlog.
  destruct (lookup_lt_is_Some_2 (audios s) a Hlt) as [e Hea].
  repeat split; try done.
  - rewrite Haud, reloaded_alter, list_lookup_alter_eq, Hea. simpl. eexists. split; [done|].
    reflexivity.
  - rewrite Hpl. apply none_pending_aborted.
  - unfold active_playbacks. rewrite Haud, reloaded_alter.
    by rewrite (filter_active_stopped _ _ _ Hea).
  - unfold live_contexts. by rewrite Hctx.
Qed.

Lemma toggleAudio_off_witness :
  (audioElement monitoring = Some 0%nat /\ stream monitoring = Some 0%nat /\
   audioEnabled monitoring = true /\ (0 < length (audios monitoring))%nat) /\
  audioEnabled (exec toggleAudio monitoring) = false /\
  live_contexts (exec toggleAudio monitoring) = live_contexts monitoring.
Proof.
  assert (H : audioElement monitoring = Some 0%nat /\ stream monitoring = Some 0%nat /\
              audioEnabled monitoring = true /\ (0 < length (audios monitoring))%nat)
    by (vm_compute; repeat split; lia).
  split; [exact H|]. destruct H as (Ha & Hst & Hen & Hlt).
  destruct (toggleAudio_off_keeps_graph monitoring 0 0 Ha Hst Hen Hlt)
    as (_ & He & _ & _ & _ & Hl & _).
  split; [exact He|exact Hl].
Defined.

(** ** The delay graph cannot be built *)

(** X13.  Whatever the delay, when [AudioContext] does not exist or cannot be
    constructed the element plays the raw stream: nothing is thrown, no
    context is created or closed, and playback resumes if it was enabled. *)
Theorem updateAudioDelay_falls_back_to_raw_stream (s : State) (a st : nat) :
  audioElement s = Some a -> stream s = Some st -> (a < length (audios s))%nat ->
  AudioContext_ctor (caps s) = CtorUndefined \/
  (AudioContext_ctor (caps s) = CtorThrows /\ audioContext s = None) ->
  let s' := exec updateAudioDelay s in
  completes updateAudioDelay s = true /\
  source_of s' a = Some (RawStream st) /\
  contexts s' = contexts s /\ audioContext s' = audioContext s /\
  audioEnabled s' = audioEnabled s /\
  emitted updateAudioDelay s =
    [EvAudioPause a; EvAudioSeek a; EvAudioSetSrc a (Some (RawStream st))]
      ++ (if audioEnabled s then [EvAudioPlay a] else []).
Proof.
  intros Ha Hst Hlt Hctor s'. subst s'.
  assert (H : wp updateAudioDelay s (fun r s' =>
    (exists u, r = Normal u) /\
    audios s' = reloaded (Some (RawStream st)) a (audios s) /\
    contexts s' = contexts s /\
    audioContext s' = audioContext s /\
    plays s' = replayed a (audioEnabled s) (plays s) /\
    untouched s s' /\
    log s' = log s ++ [EvAudioPause a; EvAudioSeek a; EvAudioSetSrc a (Some (RawStream st))]
                   ++ (if audioEnabled s then [EvAudioPlay a] else []))).
  { destruct Hctor as [Hu|[Ht Hv]].
    - apply updateAudioDelay_direct; auto.
    - destruct (Z_lt_le_dec 0 (audioDelay s)).
      + by apply updateAudioDelay_fallback.
      + apply updateAudioDelay_direct; auto. }
  apply wp_normal in H as (Hc & Haud & Hctx & Hv & _ & Hun & Hlog).
  apply emitted_app in Hlog.
  destruct Hun as (_&_&_&_&_&_&_&_&_&_&_&_&_&_&_&Hen&_).
  repeat split; try done.
  eauto using source_of_reloaded.
Qed.

Lemma updateAudioDelay_fallback_witness :
  (audioElement delayed_without_web_audio = Some 0%nat /\
   stream delayed_without_web_audio = Some 0%nat /\
   (0 < length (audios delayed_without_web_audio))%nat /\
   AudioContext_ctor (caps delayed_without_web_audio) = CtorThrows /\
   audioContext delayed_without_web_audio = None) /\
  source_of (exec updateAudioDelay delayed_without_web_audio) 0 = Some (RawStream 0).
Proof.
  assert (H : audioElement delayed_without_web_audio = Some 0%nat /\
              stream delayed_without_web_audio = Some 0%nat /\
              (0 < length (audios delayed_without_web_audio))%nat /\
              AudioContext_ctor (caps delayed_without_web_audio) = CtorThrows /\
              audioContext delayed_without_web_audio = None)
    by (vm_compute; repeat split; lia).
  split; [exact H|]. destruct H as (Ha & Hst & Hlt & Hc & Hv).
  destruct (updateAudioDelay_falls_back_to_raw_stream delayed_without_web_audio 0 0
              Ha Hst Hlt (or_intror (conj Hc Hv))) as (_ & Hsrc & _).
  exact Hsrc.
Defined.

(** ** No handler throws *)

Lemma analyser_ok_grows (s s' : State) :
  analyser_ok s -> analyser s' = analyser s ->
  (forall c x, contexts s !! c = Some x ->
     exists x', contexts s' !! c = Some x' /\ ctx_nodes x' = ctx_nodes x) ->
  analyser_ok s'.
Proof.
  unfold analyser_ok. intros Hok -> Hg. destruct (analyser s) as [an|]; [|done].
  destruct Hok as (x & Hx & Hn). destruct (Hg _ _ Hx) as (x' & Hx' & Hnodes).
  exists x'. by rewrite Hnodes.
Qed.

Lemma analyser_ok_frame (s s' : State) :
  analyser s' = analyser s -> contexts s' = contexts s -> analyser_ok s -> analyser_ok s'.
Proof. unfold analyser_ok. by intros -> ->. Qed.

Ltac wf_leaf s H :=
  split;
  [ sound_leaf s (proj1 H)
  | apply (analyser_ok_frame s);
    [simp_state; reflexivity | simp_state; reflexivity | exact (proj2 H)] ].

Lemma keeps_well_formed {A} (m : Script A) :
  keeps sound m ->
  (forall s, well_formed s -> wp m s (fun _ s' => analyser_ok s')) ->
  keeps well_formed m.
Proof.
  intros Hs Hok s Hwf. specialize (Hs s (proj1 Hwf)). specialize (Hok s Hwf).
  unfold wp in *. done.
Qed.

Lemma grows_closed (cs : list AudioCtx) (c0 : nat) (tail : list AudioCtx) (c : nat) (x : AudioCtx) :
  cs !! c = Some x ->
  exists x', (alter (with_state Closed) c0 cs ++ tail) !! c = Some x' /\
             ctx_nodes x' = ctx_nodes x.
Proof.
  intros Hx. rewrite lookup_app_l by (rewrite length_alter; by eapply lookup_lt_Some).
  destruct (decide (c = c0)) as [->|Hne].
  - rewrite list_lookup_alter_eq, Hx. by eexists.
  - rewrite list_lookup_alter_ne by done. by eexists.
Qed.

Lemma grows_app (cs tail : list AudioCtx) (c : nat) (x : AudioCtx) :
  cs !! c = Some x ->
  exists x', (cs ++ tail) !! c = Some x' /\ ctx_nodes x' = ctx_nodes x.
Proof. intros Hx. rewrite lookup_app_l by (by eapply lookup_lt_Some). by eexists. Qed.

Lemma updateAudioDelay_ok (s : State) :
  well_formed s -> wp updateAudioDelay s (fun _ s' => analyser_ok s').
Proof.
  intros [[Hrefs Hinv] Hok].
  destruct (audioElement s) as [a|] eqn:Ha; [destruct (stream s) as [st|] eqn:Hst|].
  2,3: unfold wp; rewrite updateAudioDelay_idle by auto; exact Hok.
  destruct (Z_lt_le_dec 0 (audioDelay s)) as [Hd|Hd].
  2: { eapply wp_mono; [|apply (updateAudioDelay_direct s a st Ha Hst); auto].
       simpl. intros r s' (_ & _ & Hctx & _ & _ & Hun & _).
       apply (analyser_ok_frame s); [apply Hun|exact Hctx|exact Hok]. }
  destruct (AudioContext_ctor (caps s)) eqn:Hc.
  - eapply wp_mono; [|apply (updateAudioDelay_direct s a st Ha Hst); auto].
    simpl. intros r s' (_ & _ & Hctx & _ & _ & Hun & _).
    apply (analyser_ok_frame s); [apply Hun|exact Hctx|exact Hok].
  - destruct (audioContext s) as [c0|] eqn:Hv.
    { destruct Hinv as [_ Hw]. rewrite Hv in Hw. congruence. }
    eapply wp_mono; [|apply (updateAudioDelay_fallback s a st Ha Hst Hd Hc Hv)].
    simpl. intros r s' (_ & _ & Hctx & _ & _ & Hun & _).
    apply (analyser_ok_frame s); [apply Hun|exact Hctx|exact Hok].
  - destruct (audioContext s) as [c0|] eqn:Hv.
    + destruct (ctx_inv_open s c0 Hinv Hv) as (x & Hx & Hr).
      eapply wp_mono; [|apply (updateAudioDelay_rebuild s a st c0 x Ha Hst Hd Hc Hv Hx Hr)].
      simpl. intros r s' (_ & _ & Hctx & _ & _ & Hun & _).
      apply (analyser_ok_grows s); [exact Hok|apply Hun|].
      intros c y Hy. rewrite Hctx. by apply grows_closed.
    + eapply wp_mono; [|apply (updateAudioDelay_first_build s a st Ha Hst Hd Hc Hv)].
      simpl. intros r s' (_ & _ & Hctx & _ & _ & Hun & _).
      apply (analyser_ok_grows s); [exact Hok|apply Hun|].
      intros c y Hy. rewrite Hctx. by apply grows_app.
Qed.

Lemma updateAudioDelay_wf : keeps well_formed updateAudioDelay.
Proof. apply keeps_well_formed; [apply updateAudioDelay_sound|apply updateAudioDelay_ok]. Qed.

Lemma stopStream_wf : keeps well_formed stopStream.
Proof.
  apply keeps_well_formed; [apply stopStream_sound|].
  intros s [_ Hok]. apply wp_stopStream.
  apply (analyser_ok_grows s); [exact Hok|reflexivity|].
  intros c x Hx. unfold after_stop. cbn [contexts].
  destruct (audioContext s) as [c0|]; [|by eexists].
  destruct (grows_closed (contexts s) c0 [] c x Hx) as (x' & Hx' & Hn).
  rewrite app_nil_r in Hx'. eauto.
Qed.

Lemma setupAudioAnalyser_wf (st : nat) : keeps well_formed (setupAudioAnalyser st).
Proof.
  apply keeps_well_formed; [apply setupAudioAnalyser_sound|].
  intros s [[Hrefs Hinv] Hok].
  destruct (AudioContext_ctor (caps s)) eqn:Hc.
  - unfold setupAudioAnalyser. wp_go. exact Hok.
  - destruct (audioContext s) as [c0|] eqn:Hv.
    { destruct Hinv as [_ Hw]. rewrite Hv in Hw. congruence. }
    unfold setupAudioAnalyser. wp_go. exact Hok.
  - destruct (audioContext s) as [c0|] eqn:Hv.
    + destruct (ctx_inv_open s c0 Hinv Hv) as (x0 & Hx & _).
      eapply wp_mono; [|apply (setupAudioAnalyser_reuse s st c0 x0 Hc Hv Hx)].
      simpl. intros r s' (_ & Hl & _ & Han & _).
      unfold analyser_ok. rewrite Han. simpl. exists (with_analyser st x0).
      split; [exact Hl|apply feeds_with_analyser].
    + eapply wp_mono; [|apply (setupAudioAnalyser_fresh s st Hc Hv)].
      simpl. intros r s' (_ & Hctx & Han & _).
      unfold analyser_ok. rewrite Han. simpl. exists (with_analyser st fresh_ctx).
      split; [rewrite Hctx; apply lookup_fresh|apply (feeds_with_analyser st fresh_ctx)].
Qed.

Lemma setupAudioPlayback_wf (st : nat) : keeps well_formed (setupAudioPlayback st).
Proof. intros s H. unfold setupAudioPlayback. wp_all; wf_leaf s H. Qed.

Lemma playSettled_wf (i : nat) (ok : bool) : keeps well_formed (playSettled i ok).
Proof. intros s H. unfold playSettled, playHandlers. wp_all; wf_leaf s H. Qed.

Lemma getAudioDevices_wf r : keeps well_formed (getAudioDevices r).
Proof. intros s H. unfold getAudioDevices. wp_all; wf_leaf s H. Qed.

Lemma startStream_wf : keeps well_formed startStream.
Proof. intros s H. unfold startStream. wp_all; wf_leaf s H. Qed.

Lemma requestPermissions_call_wf : keeps well_formed requestPermissions_call.
Proof.
  intros s H. unfold requestPermissions_call, requestPermissions_catch.
  wp_all; wf_leaf s H.
Qed.

Lemma toggleAudio_wf : keeps well_formed toggleAudio.
Proof.
  intros s H. unfold toggleAudio. wp_all; try wf_leaf s H.
  apply (wp_keeps well_formed); [exact updateAudioDelay_wf|exact H|].
  intros r s' H'. destruct r; [|exact H']. wp_all. wf_leaf s' H'.
Qed.

Lemma draw_wf (data : list Z) : keeps well_formed (draw data).
Proof.
  intros s H. unfold draw. wp_all; try wf_leaf s H.
  all: apply wp_drawBars; unfold painted_by; simp_state; wp_all; wf_leaf s H.
Qed.

Lemma frameFired_wf (h : nat) (data : list Z) : keeps well_formed (frameFired h data).
Proof.
  intros s H. unfold frameFired. wp_all; try wf_leaf s H.
  apply (wp_keeps well_formed); [apply draw_wf| |auto]. wf_leaf s H.
Qed.

Lemma requestPermissions_resume_wf r : keeps well_formed (requestPermissions_resume r).
Proof.
  intros s H.
  unfold requestPermissions_resume, getUserMedia_settled, requestPermissions_catch.
  wp_all; try wf_leaf s H.
  all: apply (wp_keeps well_formed); [apply setupAudioPlayback_wf|wf_leaf s H|].
  all: intros r1 s1 Hs1; destruct r1; [|wp_all; wf_leaf s1 Hs1].
  all: apply (wp_keeps well_formed); [apply setupAudioAnalyser_wf|exact Hs1|].
  all: intros r2 s2 Hs2; destruct r2; [exact Hs2|wp_all; wf_leaf s2 Hs2].
Qed.

Lemma switchMicrophone_call_wf : keeps well_formed switchMicrophone_call.
Proof.
  intros s H. unfold switchMicrophone_call. wp_all; try wf_leaf s H.
  apply (wp_keeps well_formed); [apply stopStream_wf|exact H|].
  intros r s' H'. destruct r; [|exact H'].
  apply (wp_keeps well_formed); [apply requestPermissions_call_wf|exact H'|auto].
Qed.

Lemma onDestroy_wf : keeps well_formed onDestroy.
Proof.
  intros s H. unfold onDestroy. wp_step.
  apply (wp_keeps well_formed); [apply stopStream_wf|exact H|].
  intros r s' H'. destruct r; [|exact H']. wp_all; wf_leaf s' H'.
Qed.

Lemma emit_wf (e : Event) : keeps well_formed (emit e).
Proof. intros s H. wp_all. wf_leaf s H. Qed.

Lemma requestPermissions_wf r : keeps well_formed (requestPermissions r).
Proof.
  unfold requestPermissions. apply keeps_bind; [apply requestPermissions_call_wf|].
  intros []; [apply requestPermissions_resume_wf|apply keeps_ret].
Qed.

Lemma onMount_wf devices media data : keeps well_formed (onMount devices media data).
Proof.
  unfold onMount, startAudioLevelVisualization.
  apply keeps_bind; [apply keeps_read|]. intros doc.
  apply keeps_bind; [destruct doc; [apply emit_wf|apply keeps_ret]|]. intros _.
  apply keeps_bind; [apply getAudioDevices_wf|]. intros _.
  apply keeps_bind; [apply requestPermissions_wf|]. intros _.
  apply draw_wf.
Qed.

Lemma perform_wf (a : Action) : keeps well_formed (perform a).
Proof.
  destruct a; cbn [perform].
  - apply onMount_wf.
  - apply getAudioDevices_wf.
  - intros s H. wp_step.
    apply (wp_keeps well_formed); [apply requestPermissions_call_wf|exact H|].
    intros r s' H'. destruct r; [|exact H']. by wp_all.
  - intros s H. wp_all.
    apply (wp_keeps well_formed); [apply switchMicrophone_call_wf|wf_leaf s H|].
    intros r s' H'. destruct r; [|exact H']. by wp_all.
  - intros s H. wp_all; try wf_leaf s H.
    apply (wp_keeps well_formed); [apply requestPermissions_resume_wf|exact H|auto].
  - apply draw_wf.
  - apply frameFired_wf.
  - apply toggleAudio_wf.
  - intros s H. wp_all.
    apply (wp_keeps well_formed); [apply updateAudioDelay_wf|wf_leaf s H|auto].
  - apply startStream_wf.
  - apply stopStream_wf.
  - apply playSettled_wf.
  - intros s H. wp_all; wf_leaf s H.
  - intros s H. wp_all; wf_leaf s H.
  - intros s H. wp_all; wf_leaf s H.
  - apply onDestroy_wf.
Qed.

Lemma reachable_well_formed (s : State) : Reachable s -> well_formed s.
Proof.
  induction 1 as [c|s a _ IH].
  - by repeat split.
  - by apply (keeps_exec well_formed); [apply perform_wf|].
Qed.

Lemma safe_intro {A} (m : Script A) :
  keeps well_formed m -> (forall s, well_formed s -> completes m s = true) -> safe m.
Proof.
  intros Hk Hc s H. specialize (Hk s H). specialize (Hc s H).
  unfold wp, completes in *. destruct (m s).1; [eauto|done].
Qed.

Lemma safe_bind {A B} (m : Script A) (k : A -> Script B) :
  safe m -> (forall a, safe (k a)) -> safe (bind m k).
Proof.
  intros Hm Hk s H. apply wp_bind. eapply wp_mono; [|apply (Hm s H)].
  simpl. intros r s' [[a ->] H']. by apply Hk.
Qed.

Lemma safe_completes {A} (m : Script A) (s : State) :
  safe m -> well_formed s -> completes m s = true.
Proof.
  intros Hm H. specialize (Hm s H). unfold wp, completes in *.
  by destruct Hm as [[a ->] _].
Qed.

Lemma getAudioDevices_completes r (s : State) : completes (getAudioDevices r) s = true.
Proof.
  apply (wp_normal (getAudioDevices r) s (fun _ => True)).
  unfold getAudioDevices. wp_all; eauto.
Qed.

Lemma requestPermissions_call_completes (s : State) :
  completes requestPermissions_call s = true.
Proof.
  apply (wp_normal requestPermissions_call s (fun _ => True)).
  unfold requestPermissions_call, requestPermissions_catch. wp_all; eauto.
Qed.

Lemma requestPermissions_resume_completes r (s : State) :
  completes (requestPermissions_resume r) s = true.
Proof.
  apply (wp_normal (requestPermissions_resume r) s (fun _ => True)).
  unfold requestPermissions_resume, getUserMedia_settled, requestPermissions_catch,
    setupAudioPlayback, setupAudioAnalyser.
  wp_all; eauto.
Qed.

Lemma startStream_completes (s : State) : completes startStream s = true.
Proof.
  apply (wp_normal startStream s (fun _ => True)). unfold startStream. wp_all; eauto.
Qed.

Lemma playSettled_completes (i : nat) (ok : bool) (s : State) :
  completes (playSettled i ok) s = true.
Proof.
  apply (wp_normal (playSettled i ok) s (fun _ => True)).
  unfold playSettled, playHandlers. wp_all; eauto.
Qed.

Lemma stopStream_completes (s : State) : completes stopStream s = true.
Proof. unfold completes. by rewrite stopStream_eq. Qed.

Lemma onDestroy_completes (s : State) : completes onDestroy s = true.
Proof. by destruct (wp_normal _ _ _ (onDestroy_wp s)) as [Hc _]. Qed.

Lemma draw_completes (data : list Z) (s : State) :
  analyser_ok s -> completes (draw data) s = true.
Proof.
  intros Hok. apply (wp_normal (draw data) s (fun _ => True)).
  unfold analyser_ok in Hok.
  destruct (canvasElement s) as [cv|] eqn:Hcv; [|unfold draw; wp_go; eauto].
  destruct (analyser s) as [an|] eqn:Han; [|unfold draw; wp_go; eauto].
  destruct Hok as (x & Hx & Hn).
  destruct (cv_has2d cv) eqn:H2d; [|unfold draw; wp_go; eauto].
  unfold draw. wp_go.
  apply wp_drawBars. unfold painted_by. simp_state. wp_all; eauto.
Qed.

Lemma draw_safe (data : list Z) : safe (draw data).
Proof.
  apply safe_intro; [apply draw_wf|]. intros s [_ Hok]. by apply draw_completes.
Qed.

Lemma frameFired_safe (h : nat) (data : list Z) : safe (frameFired h data).
Proof.
  intros s H. unfold frameFired. wp_go.
  destruct (bool_decide (h ∈ rafPending s)); wp_go; [|eauto].
  apply draw_safe. wf_leaf s H.
Qed.

Lemma toggleAudio_safe : safe toggleAudio.
Proof.
  apply safe_intro; [apply toggleAudio_wf|]. intros s _. apply toggleAudio_completes.
Qed.

Lemma onMount_safe devices media data : safe (onMount devices media data).
Proof.
  unfold onMount, startAudioLevelVisualization.
  apply safe_bind; [apply safe_intro; [apply keeps_read|done]|]. intros doc.
  apply safe_bind.
  { destruct doc; apply safe_intro; [apply emit_wf|done|apply keeps_ret|done]. }
  intros _. apply safe_bind.
  { apply safe_intro; [apply getAudioDevices_wf|]. intros s _. apply getAudioDevices_completes. }
  intros _. apply safe_bind; [|intros _; apply draw_safe].
  unfold requestPermissions. apply safe_bind.
  { apply safe_intro; [apply requestPermissions_call_wf|].
    intros s _. apply requestPermissions_call_completes. }
  intros []; apply safe_intro;
    [apply requestPermissions_resume_wf| |apply keeps_ret|done].
  intros s _. apply requestPermissions_resume_completes.
Qed.

Lemma perform_safe (a : Action) : safe (perform a).
Proof.
  destruct a; cbn [perform].
  - apply onMount_safe.
  - apply safe_intro; [apply getAudioDevices_wf|]. intros s _. apply getAudioDevices_completes.
  - apply safe_bind; [|intros _; apply safe_intro; [apply keeps_ret|done]].
    apply safe_intro; [apply requestPermissions_call_wf|].
    intros s _. apply requestPermissions_call_completes.
  - apply safe_bind.
    { apply safe_intro; [|done]. intros s H. wp_go. wf_leaf s H. }
    intros _. apply safe_bind; [|intros _; apply safe_intro; [apply keeps_ret|done]].
    unfold switchMicrophone_call.
    apply safe_bind; [apply safe_intro; [apply keeps_read|done]|].
    intros [st|]; [|apply safe_intro; [apply keeps_ret|done]].
    apply safe_bind.
    { apply safe_intro; [apply stopStream_wf|]. intros s _. apply stopStream_completes. }
    intros _. apply safe_intro; [apply requestPermissions_call_wf|].
    intros s _. apply requestPermissions_call_completes.
  - apply safe_bind; [apply safe_intro; [apply keeps_read|done]|].
    intros [|n]; [apply safe_intro; [apply keeps_ret|done]|].
    apply safe_intro; [apply requestPermissions_resume_wf|].
    intros s _. apply requestPermissions_resume_completes.
  - apply draw_safe.
  - apply frameFired_safe.
  - apply toggleAudio_safe.
  - apply safe_bind.
    { apply safe_intro; [|done]. intros s H. wp_go. wf_leaf s H. }
    intros _. apply safe_intro; [apply updateAudioDelay_wf|].
    intros s _. apply updateAudioDelay_completes.
  - apply safe_intro; [apply startStream_wf|]. intros s _. apply startStream_completes.
  - apply safe_intro; [apply stopStream_wf|]. intros s _. apply stopStream_completes.
  - apply safe_intro; [apply playSettled_wf|]. intros s _. apply playSettled_completes.
  - apply safe_intro; [apply (perform_wf VideoBound)|]. intros s _.
    apply (wp_normal (perform VideoBound) s (fun _ => True)). cbn [perform]. wp_all; eauto.
  - apply safe_intro; [apply (perform_wf VideoUnbound)|]. intros s _.
    apply (wp_normal (perform VideoUnbound) s (fun _ => True)). cbn [perform]. wp_all; eauto.
  - apply safe_intro; [apply (perform_wf (CanvasBound width height has2d))|]. intros s _.
    apply (wp_normal (perform (CanvasBound width height has2d)) s (fun _ => True)).
    cbn [perform]. wp_all; eauto.
  - apply safe_intro; [apply onDestroy_wf|]. intros s _. apply onDestroy_completes.
Qed.

(** X14.  Nothing the user or the browser can do makes a handler of the page
    throw: in every reachable state every action completes normally. *)
Theorem no_handler_throws (s : State) (a : Action) :
  Reachable s -> completes (perform a) s = true.
Proof.
  intros Hr. apply safe_completes; [apply perform_safe|by apply reachable_well_formed].
Qed.

Lemma no_handler_throws_witness :
  Reachable monitoring /\
  completes (perform (FrameFired 1 [7; 300; 12])) monitoring = true.
Proof.
  assert (H : Reachable monitoring) by apply reachable_run, reach_init.
  split; [exact H|]. exact (no_handler_throws monitoring (FrameFired 1 [7; 300; 12]) H).
Defined.

(** X15.  The refresh callback finds its analyser: once [analyser] is set it is
    a node with 128 bins, in every reachable state. *)
Theorem analyser_always_has_128_bins (s : State) (an : nat * nat) :
  Reachable s -> analyser s = Some an ->
  frequencyBinCount an s = (Normal 128%nat, s).
Proof.
  intros Hr Han. destruct (reachable_well_formed s Hr) as [_ Hok].
  unfold analyser_ok in Hok. rewrite Han in Hok. destruct Hok as (x & Hx & Hn).
  destruct an as [c n]. by eapply frequencyBinCount_with_analyser.
Qed.

Lemma analyser_bins_witness :
  (Reachable monitoring /\ analyser monitoring = Some (0%nat, 1%nat)) /\
  frequencyBinCount (0%nat, 1%nat) monitoring = (Normal 128%nat, monitoring).
Proof.
  assert (H : Reachable monitoring /\ analyser monitoring = Some (0%nat, 1%nat))
    by (split; [apply reachable_run, reach_init|reflexivity]).
  split; [exact H|]. destruct H as [Hr Han].
  exact (analyser_always_has_128_bins monitoring (0%nat, 1%nat) Hr Han).
Defined.

(** ** One refresh loop, stopped at teardown *)

Ltac loop_leaf H := unfold loop_is; simp_state; exact H.

Section loop_frame.
Variables (P : list nat) (N : nat) (F : option nat) (c : Caps).

Lemma setupAudioPlayback_loop (st : nat) : keeps (loop_is P N F c) (setupAudioPlayback st).
Proof. intros s H. unfold setupAudioPlayback. wp_all; loop_leaf H. Qed.

Lemma updateAudioDelay_loop : keeps (loop_is P N F c) updateAudioDelay.
Proof. intros s H. unfold updateAudioDelay, buildDelayGraph. wp_all; loop_leaf H. Qed.

Lemma toggleAudio_loop : keeps (loop_is P N F c) toggleAudio.
Proof.
  intros s H. unfold toggleAudio. wp_all; try loop_leaf H.
  apply (wp_keeps (loop_is P N F c)); [exact updateAudioDelay_loop|exact H|].
  intros r s' H'. destruct r; [|exact H']. wp_all. loop_leaf H'.
Qed.

Lemma playSettled_loop (i : nat) (ok : bool) : keeps (loop_is P N F c) (playSettled i ok).
Proof. intros s H. unfold playSettled, playHandlers. wp_all; loop_leaf H. Qed.

Lemma startStream_loop : keeps (loop_is P N F c) startStream.
Proof. intros s H. unfold startStream. wp_all; loop_leaf H. Qed.

Lemma stopStream_loop : keeps (loop_is P N F c) stopStream.
Proof. intros s H. apply wp_stopStream. exact H. Qed.

Lemma getAudioDevices_loop r : keeps (loop_is P N F c) (getAudioDevices r).
Proof. intros s H. unfold getAudioDevices. wp_all; loop_leaf H. Qed.

Lemma requestPermissions_call_loop : keeps (loop_is P N F c) requestPermissions_call.
Proof.
  intros s H. unfold requestPermissions_call, requestPermissions_catch.
  wp_all; loop_leaf H.
Qed.

Lemma requestPermissions_resume_loop r : keeps (loop_is P N F c) (requestPermissions_resume r).
Proof.
  intros s H.
  unfold requestPermissions_resume, getUserMedia_settled, requestPermissions_catch,
    setupAudioPlayback, setupAudioAnalyser.
  wp_all; loop_leaf H.
Qed.

Lemma switchMicrophone_call_loop : keeps (loop_is P N F c) switchMicrophone_call.
Proof.
  intros s H. unfold switchMicrophone_call. wp_all; try loop_leaf H.
  apply (wp_keeps (loop_is P N F c)); [apply stopStream_loop|exact H|].
  intros r s' H'. destruct r; [|exact H'].
  apply (wp_keeps (loop_is P N F c)); [apply requestPermissions_call_loop|exact H'|auto].
Qed.

Lemma requestPermissions_loop r : keeps (loop_is P N F c) (requestPermissions r).
Proof.
  unfold requestPermissions. apply keeps_bind; [apply requestPermissions_call_loop|].
  intros []; [apply requestPermissions_resume_loop|apply keeps_ret].
Qed.

Lemma emit_loop (e : Event) : keeps (loop_is P N F c) (emit e).
Proof. intros s H. wp_all. loop_leaf H. Qed.
End loop_frame.

Lemma keeps_one_loop {A} (m : Script A) (c : Caps) :
  (forall P N F, keeps (loop_is P N F c) m) -> keeps (one_loop c) m.
Proof.
  intros Hm s (Hc & Hn & Hp).
  eapply wp_mono; [|apply (Hm (rafPending s) (rafNext s) (animationFrame s) s); by repeat split].
  simpl. intros _ s' (Hp' & Hn' & Hf' & Hc'). unfold one_loop.
  rewrite Hp', Hn', Hf', Hc'. split; [done|]. split; [done|].
  destruct Hp as [Hp|(h & Hp & Hf & Hh)]; [by left|]. right. exists h.
  repeat split; try done.
Qed.

Lemma draw_starts_loop (data : list Z) (s : State) :
  (0 < rafNext s)%nat -> rafPending s = [] ->
  wp (draw data) s (fun _ s' => one_loop (caps s) s').
Proof.
  intros Hn Hp. unfold draw, one_loop.
  wp_all; try (simp_state; split; [done|split; [lia|by left]]).
  all: apply wp_drawBars; unfold painted_by; simp_state; wp_all.
  all: simp_state; rewrite ?Hp; split; [done|split; [lia|]]; eauto.
Qed.

Lemma frameFired_one_loop (c : Caps) (h : nat) (data : list Z) :
  keeps (one_loop c) (frameFired h data).
Proof.
  intros s (Hc & Hn & Hp). unfold frameFired. wp_go.
  destruct Hp as [Hp|(h0 & Hp & Hf & Hh0)]; rewrite Hp.
  - rewrite bool_decide_eq_false_2 by apply not_elem_of_nil. wp_go.
    split; [done|split; [done|by left]].
  - destruct (decide (h = h0)) as [->|Hne].
    + rewrite bool_decide_eq_true_2 by (by apply list_elem_of_singleton). wp_go.
      rewrite <- Hc.
      apply (draw_starts_loop data (set_rafPending (filter (fun x => x ≠ h0) (rafPending s)) s));
        simp_state; [done|]. rewrite Hp. apply filter_ne_self.
    + rewrite bool_decide_eq_false_2 by (by rewrite list_elem_of_singleton).
      wp_go. split; [done|split; [done|]]. right. eauto.
Qed.

Lemma onDestroy_stops_loop (c : Caps) (s : State) :
  one_loop c s -> has_cancelAnimationFrame c = true ->
  rafPending (exec onDestroy s) = [].
Proof.
  intros (Hcaps & Hn & Hp) Hc. rewrite <- Hcaps in Hc.
  destruct (wp_normal _ _ _ (onDestroy_wp s)) as (_ & _ & _ & _ & Hraf).
  rewrite Hraf, Hc. destruct Hp as [Hp|(h & Hp & Hf & Hh)]; rewrite Hp.
  - by destruct (truthy_handle (animationFrame s)).
  - rewrite Hf. destruct h as [|h]; [lia|]. simpl. apply filter_ne_self.
Qed.

Lemma onDestroy_one_loop (c : Caps) : keeps (one_loop c) onDestroy.
Proof.
  intros s (Hcaps & Hn & Hp).
  destruct (wp_normal _ _ _ (onDestroy_wp s)) as (_ & _ & _ & _ & Hraf).
  assert (Hnext : rafNext (exec onDestroy s) = rafNext s /\
                  animationFrame (exec onDestroy s) = animationFrame s /\
                  caps (exec onDestroy s) = caps s).
  { apply (wp_exec onDestroy s (fun _ s' =>
             rafNext s' = rafNext s /\ animationFrame s' = animationFrame s /\
             caps s' = caps s)).
    unfold onDestroy. wp_step. apply wp_stopStream.
    repeat first [wp_step | progress cbn [after_stop animationFrame caps rafNext] | wp_case];
      done. }
  destruct Hnext as (Hnx & Hfr & Hcp).
  unfold one_loop, wp. fold (exec onDestroy s). rewrite Hnx, Hfr, Hraf, Hcp.
  split; [done|]. split; [done|].
  destruct Hp as [Hp|(h & Hp & Hf & Hh)]; rewrite Hp.
  - left. destruct (truthy_handle (animationFrame s)); [|done].
    by destruct (has_cancelAnimationFrame (caps s)).
  - rewrite Hf. destruct h as [|h]; [lia|]. simpl.
    destruct (has_cancelAnimationFrame (caps s)); [left; apply filter_ne_self|].
    right. exists (S h). repeat split; try done.
Qed.

Lemma perform_one_loop (c : Caps) (a : Action) :
  starts_display a = false -> keeps (one_loop c) (perform a).
Proof.
  intros Ha. destruct a; try discriminate; cbn [perform].
  - apply keeps_one_loop. intros. apply getAudioDevices_loop.
  - apply keeps_one_loop. intros P N F.
    apply keeps_bind; [apply requestPermissions_call_loop|intros; apply keeps_ret].
  - apply keeps_one_loop. intros P N F.
    apply keeps_bind; [intros s H; wp_go; loop_leaf H|]. intros _.
    apply keeps_bind; [apply switchMicrophone_call_loop|intros; apply keeps_ret].
  - apply keeps_one_loop. intros P N F.
    apply keeps_bind; [apply keeps_read|].
    intros [|n]; [apply keeps_ret|apply requestPermissions_resume_loop].
  - apply frameFired_one_loop.
  - apply keeps_one_loop. intros. apply toggleAudio_loop.
  - apply keeps_one_loop. intros P N F.
    apply keeps_bind; [intros s H; wp_go; loop_leaf H|]. intros _.
    apply updateAudioDelay_loop.
  - apply keeps_one_loop. intros. apply startStream_loop.
  - apply keeps_one_loop. intros. apply stopStream_loop.
  - apply keeps_one_loop. intros. apply playSettled_loop.
  - apply keeps_one_loop. intros P N F s H. wp_all; loop_leaf H.
  - apply keeps_one_loop. intros P N F s H. wp_all; loop_leaf H.
  - apply keeps_one_loop. intros P N F s H. wp_all; loop_leaf H.
  - apply onDestroy_one_loop.
Qed.

Lemma run_one_loop (c : Caps) (acts : list Action) (s : State) :
  Forall (fun a => starts_display a = false) acts ->
  one_loop c s -> one_loop c (run acts s).
Proof.
  intros Hacts. revert s. induction Hacts as [|a acts Ha _ IH]; intros s Hs; [done|].
  simpl. apply IH. by apply (keeps_exec (one_loop c)); [apply perform_one_loop|].
Qed.

Lemma onMount_one_loop devices media data (s : State) :
  (0 < rafNext s)%nat -> rafPending s = [] ->
  one_loop (caps s) (exec (onMount devices media data) s).
Proof.
  intros Hn Hp.
  apply (wp_exec (onMount devices media data) s (fun _ s' => one_loop (caps s) s')).
  unfold onMount, startAudioLevelVisualization.
  set (I := loop_is [] (rafNext s) (animationFrame s) (caps s)).
  assert (Hidle : forall s', I s' -> one_loop (caps s) s').
  { intros s' (Hp' & Hn' & _ & Hc'). split; [done|]. split; [by rewrite Hn'|by left]. }
  assert (H0 : I s) by (by repeat split).
  wp_step. apply wp_bind.
  apply (wp_keeps I);
    [destruct (has_document (caps s)); [apply emit_loop|apply keeps_ret]|exact H0|].
  intros r1 s1 H1. destruct r1; [|by apply Hidle].
  apply wp_bind. apply (wp_keeps I); [apply getAudioDevices_loop|exact H1|].
  intros r2 s2 H2. destruct r2; [|by apply Hidle].
  apply wp_bind. apply (wp_keeps I); [apply requestPermissions_loop|exact H2|].
  intros r3 s3 H3. destruct r3; [|by apply Hidle].
  destruct H3 as (Hp3 & Hn3 & _ & Hc3). rewrite <- Hc3.
  apply draw_starts_loop; [by rewrite Hn3|done].
Qed.

(** X16.  Once the page is mounted there is one refresh loop, and teardown
    stops it: whatever happened in between, [onDestroy] leaves no frame
    scheduled. *)
Theorem teardown_stops_refresh_loop (s0 : State)
    (devices : Completion (list MediaDeviceInfo)) (media : Completion (list TrackKind))
    (data : list Z) (acts : list Action) :
  rafPending s0 = [] -> (0 < rafNext s0)%nat ->
  has_cancelAnimationFrame (caps s0) = true ->
  Forall (fun a => starts_display a = false) acts ->
  let s := run acts (exec (onMount devices media data) s0) in
  (length (rafPending s) <= 1)%nat /\
  rafPending (exec onDestroy s) = [].
Proof.
  intros Hp Hn Hc Hacts s.
  assert (H1 : one_loop (caps s0) s).
  { subst s. apply run_one_loop; [exact Hacts|]. by apply onMount_one_loop. }
  split.
  - destruct H1 as (_ & _ & [->|(h & -> & _)]); simpl; lia.
  - by apply (onDestroy_stops_loop (caps s0)).
Qed.

Lemma teardown_stops_loop_witness :
  let s0 := exec (perform (CanvasBound 300 100 true)) (init browser) in
  let s := run busy_session
             (exec (onMount (Normal two_mics) (Normal [AudioTrack; VideoTrack]) [5]) s0) in
  (rafPending s0 = [] /\ (0 < rafNext s0)%nat /\
   has_cancelAnimationFrame (caps s0) = true /\
   Forall (fun a => starts_display a = false) busy_session) /\
  rafPending s = [4%nat] /\
  rafPending (exec onDestroy s) = [].
Proof.
  intros s0 s.
  assert (H : rafPending s0 = [] /\ (0 < rafNext s0)%nat /\
              has_cancelAnimationFrame (caps s0) = true /\
              Forall (fun a => starts_display a = false) busy_session).
  { repeat split; [simpl; lia|]. unfold busy_session. repeat constructor. }
  split; [exact H|]. destruct H as (Hp & Hn & Hc & Hacts).
  split; [vm_compute; reflexivity|].
  exact (proj2 (teardown_stops_refresh_loop s0 (Normal two_mics)
                  (Normal [AudioTrack; VideoTrack]) [5] busy_session Hp Hn Hc Hacts)).
Defined.

(** ** What the page asks for when it is mounted *)

Ltac begins_leaf H :=
  unfold log_begins in *; simp_state;
  repeat (apply prefix_app_r); exact H.

Lemma requestPermissions_resume_begins (K : list Event) r :
  keeps (log_begins K) (requestPermissions_resume r).
Proof.
  intros s H.
  unfold requestPermissions_resume, getUserMedia_settled, requestPermissions_catch,
    setupAudioPlayback, setupAudioAnalyser.
  wp_all; begins_leaf H.
Qed.

Lemma draw_begins (K : list Event) (data : list Z) : keeps (log_begins K) (draw data).
Proof.
  intros s H. unfold draw. wp_all; try begins_leaf H.
  all: apply wp_drawBars; unfold painted_by; simp_state; wp_all; begins_leaf H.
Qed.

Lemma getAudioDevices_wp (s : State) (r : Completion (list MediaDeviceInfo)) :
  has_navigator (caps s) = true -> has_mediaDevices (caps s) = true ->
  wp (getAudioDevices r) s (fun res s' =>
    (exists u, res = Normal u) /\
    log s' = log s ++ [EvEnumerateDevices] /\
    selectedMicId s' = listed_selection r (selectedMicId s) /\
    caps s' = caps s).
Proof.
  intros Hn Hm. unfold getAudioDevices, listed_selection, default_microphone. wp_go.
  destruct r as [devices|e]; wp_go; [|eauto].
  destruct (filter _ devices) as [|m mics]; wp_go; [eauto|].
  destruct (String.eqb (selectedMicId s) ""); wp_go; eauto.
Qed.

Lemma requestPermissions_call_wp (s : State) :
  has_navigator (caps s) = true -> has_mediaDevices (caps s) = true ->
  wp requestPermissions_call s (fun res s' =>
    res = Normal true /\
    log s' = log s ++ [EvGetUserMedia (microphone_constraint (selectedMicId s))]).
Proof.
  intros Hn Hm. unfold requestPermissions_call, microphone_constraint. wp_go. done.
Qed.

(** X17.  On mount the page first lists the devices and then asks for the
    camera and the microphone that listing selected: the first audio input,
    unless one was selected before; the default microphone when none is listed
    or listing fails. *)
Theorem onMount_requests_selected_microphone (s : State)
    (devices : Completion (list MediaDeviceInfo)) (media : Completion (list TrackKind))
    (data : list Z) :
  has_navigator (caps s) = true -> has_mediaDevices (caps s) = true ->
  let sel := selectedMicId (exec (getAudioDevices devices) s) in
  exists rest,
    emitted (onMount devices media data) s =
      (if has_document (caps s) then [EvAddListener] else [])
        ++ [EvEnumerateDevices; EvGetUserMedia (microphone_constraint sel)] ++ rest.
Proof.
  intros Hn Hm sel.
  assert (Hsel : sel = listed_selection devices (selectedMicId s)).
  { subst sel. by destruct (wp_exec _ _ _ (getAudioDevices_wp s devices Hn Hm)) as (_ & _ & ? & _). }
  set (pre := if has_document (caps s) then [EvAddListener] else []).
  set (K := log s ++ pre ++ [EvEnumerateDevices; EvGetUserMedia (microphone_constraint sel)]).
  assert (H : wp (onMount devices media data) s (fun _ s' => log_begins K s')).
  { unfold onMount, startAudioLevelVisualization, requestPermissions.
    wp_step. apply wp_bind.
    apply (wp_mono _ _ (fun r s1 => r = Normal tt /\ log s1 = log s ++ pre /\
                                    caps s1 = caps s /\ selectedMicId s1 = selectedMicId s)).
    2: { subst pre. destruct (has_document (caps s)); wp_go; rewrite ?app_nil_r; done. }
    intros r1 s1 (-> & Hl1 & Hc1 & Hs1).
    apply wp_bind.
    eapply wp_mono; [|apply (getAudioDevices_wp s1 devices); by rewrite Hc1].
    simpl. intros r2 s2 ([u ->] & Hl2 & Hs2 & Hc2).
    apply wp_bind. apply wp_bind.
    eapply wp_mono; [|apply (requestPermissions_call_wp s2); by rewrite Hc2, Hc1].
    simpl. intros r3 s3 (-> & Hl3).
    assert (HK : log_begins K s3).
    { unfold log_begins, K. rewrite Hl3, Hl2, Hl1, Hs2, Hs1, Hsel.
      rewrite <- !app_assoc. done. }
    apply (wp_keeps (log_begins K)); [apply requestPermissions_resume_begins|exact HK|].
    intros r4 s4 H4. destruct r4; [|exact H4]. by apply draw_begins. }
  apply wp_exec in H. destruct H as [rest Hrest]. exists rest.
  apply emitted_app. rewrite Hrest. unfold K. by rewrite <- !app_assoc.
Qed.

Lemma onMount_request_witness :
  (has_navigator (caps (init browser)) = true /\
   has_mediaDevices (caps (init browser)) = true) /\
  exists rest,
    emitted (onMount (Normal two_mics) (Normal [AudioTrack]) []) (init browser) =
      [EvAddListener; EvEnumerateDevices; EvGetUserMedia (Some "mic-a")] ++ rest.
Proof.
  assert (H : has_navigator (caps (init browser)) = true /\
              has_mediaDevices (caps (init browser)) = true) by (split; reflexivity).
  split; [exact H|]. destruct H as [Hn Hm].
  exact (onMount_requests_selected_microphone (init browser) (Normal two_mics)
           (Normal [AudioTrack]) [] Hn Hm).
Defined.

(** ** What holds in every state of the page *)

(** X18.  In every state the page can reach, the element and the stream the
    script refers to exist, at most one audio context is open, namely the one
    [audioContext] holds, and both [stopStream] and [onDestroy] close it. *)
Theorem page_keeps_one_context (s : State) :
  Reachable s ->
  refs_ok s /\
  live_contexts s = option_list (audioContext s) /\
  (length (live_contexts s) <= 1)%nat /\
  live_contexts (exec stopStream s) = [] /\
  live_contexts (exec onDestroy s) = [].
Proof.
  intros Hr. destruct (reachable_well_formed s Hr) as [[Hrefs Hinv] _].
  split; [exact Hrefs|]. split; [apply Hinv|].
  split; [destruct Hinv as [-> _]; destruct (audioContext s); simpl; lia|].
  split; [by apply stopStream_releases|].
  assert (Hd : contexts (exec onDestroy s) = contexts (exec stopStream s)).
  { rewrite stopStream_exec.
    apply (wp_exec onDestroy s (fun _ s' => contexts s' = contexts (after_stop s))).
    unfold onDestroy. wp_step. apply wp_stopStream.
    repeat first [wp_step | progress cbn [after_stop animationFrame caps contexts] | wp_case];
      done. }
  unfold live_contexts. rewrite Hd. by apply stopStream_releases.
Qed.

Lemma page_one_context_witness :
  Reachable enabled_twice /\
  (length (live_contexts enabled_twice) <= 1)%nat /\
  live_contexts (exec onDestroy enabled_twice) = [].
Proof.
  assert (H : Reachable enabled_twice) by apply reachable_run, reach_init.
  split; [exact H|].
  destruct (page_keeps_one_context enabled_twice H) as (_ & _ & Hl & _ & Hd).
  split; [exact Hl|exact Hd].
Defined.

Lemma requestPermissions_no_api_witness :
  has_navigator (caps (init (mkCaps false false true true CtorWorks true true))) = false /\
  requestPermissions (Normal [AudioTrack])
    (init (mkCaps false false true true CtorWorks true true))
  = (Normal tt, init (mkCaps false false true true CtorWorks true true)).
Proof.
  split; [reflexivity|].
  apply (proj1 (requestPermissions_without_media_api _ _)). reflexivity.
Defined.

Lemma frameFired_stale_witness :
  (7%nat ∉ rafPending monitoring) /\
  frameFired 7 [1; 2] monitoring = (Normal tt, monitoring).
Proof.
  assert (H : 7%nat ∉ rafPending monitoring).
  { vm_compute. intros H. apply list_elem_of_singleton in H. discriminate. }
  split; [exact H|]. exact (proj2 (frameFired_keeps_one_loop monitoring 7 [1; 2]) H).
Defined.

Lemma startStream_noop_witness :
  (stream refused = None \/ videoElement refused = None) /\
  startStream refused = (Normal tt, refused).
Proof.
  assert (H : stream refused = None \/ videoElement refused = None) by (left; reflexivity).
  split; [exact H|]. exact (startStream_needs_stream_and_video refused H).
Defined.
